(** * jirafs: the ticket folder (src/jirafs/ticketfolder.py)

    A shallow embedding of [TicketFolder]: the folder's files, its two git
    work trees, the tracker it talks to and the attributes the instance
    memoizes are one explicit [World]; every method is a function in a
    state-and-exception monad over that world. *)

From Stdlib Require Import ZArith List Ascii String Bool Lia DecimalString.
From stdpp Require Import base tactics option list fin_maps gmap strings.

Local Open Scope string_scope.
Local Open Scope list_scope.
Local Open Scope Z_scope.

(** ** Python strings

    The builtins the methods call on [str] values.  Strings are byte
    strings; whitespace is Python's for code points below 128. *)
Module Py.

Definition LF : ascii := ascii_of_nat 10.
Definition CR : ascii := ascii_of_nat 13.

Definition is_space (c : ascii) : bool :=
  let n := nat_of_ascii c in
  ((9 <=? n)%nat && (n <=? 13)%nat) || ((28 <=? n)%nat && (n <=? 32)%nat).

Definition is_digit (c : ascii) : bool :=
  let n := nat_of_ascii c in (48 <=? n)%nat && (n <=? 57)%nat.

Definition digit_value (c : ascii) : Z := Z.of_nat (nat_of_ascii c) - 48.

Definition is_empty (s : string) : bool :=
  match s with EmptyString => true | String _ _ => false end.

Definition ascii_eqb (a b : ascii) : bool := Ascii.eqb a b.

(** [c in chars] for a one-character [c]. *)
Fixpoint char_in (c : ascii) (chars : string) : bool :=
  match chars with
  | EmptyString => false
  | String d rest => ascii_eqb c d || char_in c rest
  end.

Fixpoint lstrip (s : string) : string :=
  match s with
  | EmptyString => EmptyString
  | String c rest => if is_space c then lstrip rest else s
  end.

Fixpoint rstrip (s : string) : string :=
  match s with
  | EmptyString => EmptyString
  | String c rest =>
      let rest' := rstrip rest in
      if is_empty rest' && is_space c then EmptyString else String c rest'
  end.

(** [s.strip()] *)
Definition strip (s : string) : string := lstrip (rstrip s).

(** [s.startswith(p)] *)
Definition startswith (p s : string) : bool := String.prefix p s.

(** [f.readlines()]: the lines of a text, each with its terminator. *)
Fixpoint readlines (s : string) : list string :=
  match s with
  | EmptyString => []
  | String c rest =>
      if ascii_eqb c LF then String c EmptyString :: readlines rest
      else match readlines rest with
           | [] => [String c EmptyString]
           | l :: ls => String c l :: ls
           end
  end.

(** [s.split('\n')] *)
Fixpoint split_lines (s : string) : list string :=
  match s with
  | EmptyString => [EmptyString]
  | String c rest =>
      if ascii_eqb c LF then EmptyString :: split_lines rest
      else match split_lines rest with
           | [] => [String c EmptyString]
           | l :: ls => String c l :: ls
           end
  end.

(** [s.replace('\r\n', '\n')] *)
Fixpoint replace_crlf (s : string) : string :=
  match s with
  | EmptyString => EmptyString
  | String c rest =>
      match rest with
      | String d rest' =>
          if ascii_eqb c CR && ascii_eqb d LF
          then String LF (replace_crlf rest')
          else String c (replace_crlf rest)
      | EmptyString => s
      end
  end.

(** The digits of [int(s)], after the sign: decimal digits, a single
    underscore allowed between two of them. *)
Fixpoint parse_digits (acc : Z) (after_digit : bool) (s : string) : option Z :=
  match s with
  | EmptyString => if after_digit then Some acc else None
  | String c rest =>
      if is_digit c then parse_digits (10 * acc + digit_value c) true rest
      else if ascii_eqb c "_"%char && after_digit then parse_digits acc false rest
      else None
  end.

(** [int(s)]; [None] stands for [ValueError]. *)
Definition parse_int (s : string) : option Z :=
  match strip s with
  | String "-"%char rest => Z.opp <$> parse_digits 0 false rest
  | String "+"%char rest => parse_digits 0 false rest
  | body => parse_digits 0 false body
  end.

(** [sorted(names)]: insertion into an ascending list, by code point. *)
Fixpoint insert_sorted (x : string) (l : list string) : list string :=
  match l with
  | [] => [x]
  | y :: rest => if String.leb x y then x :: l else y :: insert_sorted x rest
  end.

Definition sorted (l : list string) : list string :=
  fold_right insert_sorted [] l.

Definition nl : string := String LF EmptyString.

(** A double quote, for the messages that hold one. *)
Definition quote : string := String (ascii_of_nat 34) EmptyString.

(** [str(n)] *)
Definition str_of_int (n : Z) : string := NilZero.string_of_int (Z.to_int n).

Fixpoint zeros (n : nat) : string :=
  match n with
  | O => EmptyString
  | S n' => String "0"%char (zeros n')
  end.

(** [s.zfill(width)]: zeros go after a leading sign. *)
Definition zfill (width : nat) (s : string) : string :=
  let pad := zeros (width - String.length s) in
  match s with
  | String c rest =>
      if char_in c "+-" then String c (String.append pad rest)
      else String.append pad s
  | EmptyString => pad
  end.

(** [s.split(sep)] for a one-character [sep]. *)
Fixpoint split (sep : ascii) (s : string) : list string :=
  match s with
  | EmptyString => [EmptyString]
  | String c rest =>
      if ascii_eqb c sep then EmptyString :: split sep rest
      else match split sep rest with
           | [] => [String c EmptyString]
           | l :: ls => String c l :: ls
           end
  end.

Definition is_lower (c : ascii) : bool :=
  let n := nat_of_ascii c in (97 <=? n)%nat && (n <=? 122)%nat.

Definition is_upper (c : ascii) : bool :=
  let n := nat_of_ascii c in (65 <=? n)%nat && (n <=? 90)%nat.

Definition upper_char (c : ascii) : ascii :=
  if is_lower c then ascii_of_nat (nat_of_ascii c - 32) else c.

(** [s.upper()], for the letters below 128. *)
Fixpoint upper (s : string) : string :=
  match s with
  | EmptyString => EmptyString
  | String c rest => String (upper_char c) (upper rest)
  end.

(** [s.endswith(suffix)] *)
Fixpoint endswith (suffix s : string) : bool :=
  String.eqb s suffix
  || match s with
     | EmptyString => false
     | String _ rest => endswith suffix rest
     end.

(** Every character of [s] passes [p]. *)
Fixpoint all_chars (p : ascii -> bool) (s : string) : bool :=
  match s with
  | EmptyString => true
  | String c rest => p c && all_chars p rest
  end.

End Py.

(** ** Regular expressions

    What [infer_ticket_number] needs of [re]: the classes [\w] and [\d]
    (for code points below 128), literal characters, [+] and [$].  A
    pattern is matched from the start of the string, as [re.match] does,
    so a leading [^] adds nothing and is not kept. *)
Module Re.

Inductive atom :=
| Word                          (* \w *)
| Digit                         (* \d *)
| Lit (c : ascii).

Inductive item :=
| One (a : atom)
| Plus (a : atom)               (* a+ *)
| Dollar.                       (* $ *)

Definition is_word (c : ascii) : bool :=
  Py.is_digit c || Py.is_upper c || Py.is_lower c || Py.ascii_eqb c "_"%char.

Definition takes (a : atom) (c : ascii) : bool :=
  match a with
  | Word => is_word c
  | Digit => Py.is_digit c
  | Lit d => Py.ascii_eqb c d
  end.

(** [$] holds at the end of the string and before a newline that ends
    it. *)
Definition at_end (s : string) : bool :=
  match s with
  | EmptyString => true
  | String c EmptyString => Py.ascii_eqb c Py.LF
  | _ => false
  end.

(** [re.match(pattern, s)] is not [None]: some way of taking characters
    for every [+] lets the whole pattern through. *)
Fixpoint matches (pattern : list item) (s : string) : bool :=
  match pattern with
  | [] => true
  | One a :: rest =>
      match s with
      | String c s' => takes a c && matches rest s'
      | EmptyString => false
      end
  | Plus a :: rest =>
      (fix more (s : string) : bool :=
         match s with
         | String c s' => takes a c && (more s' || matches rest s')
         | EmptyString => false
         end) s
  | Dollar :: rest => at_end s && matches rest s
  end.

End Re.

(** ** Values and remote resources *)

(** A field value as [fetch] tells them apart: [None], a string, or any
    other object, kept as the text [six.text_type] gives for it. *)
Inductive pyval :=
| PNone
| PStr (s : string)
| PObj (text : string).

#[global] Instance pyval_eq_dec : EqDecision pyval.
Proof. solve_decision. Defined.

(** [isinstance(value, six.string_types)] *)
Definition is_string (v : pyval) : bool :=
  match v with PStr _ => true | _ => false end.

(** [six.text_type(value)] *)
Definition text_type (v : pyval) : string :=
  match v with
  | PNone => "None"
  | PStr s => s
  | PObj text => text
  end.

(** [d.get(k)] on a dict of values: [None] for a missing key. *)
Definition dict_get (d : gmap string pyval) (k : string) : pyval :=
  default PNone (d !! k).

Record Attachment := {
  filename : string;
  created : string;
}.

Record Comment := {
  comment_created : string;
  author : string;
  body : string;
}.

(** An issue as the tracker serves it: [raw_fields] is
    [issue.raw['fields']], whose values [getattr(issue.fields, name)]
    reads; [attachment] is [issue.fields.attachment]; [comments] is
    [issue.fields.comment.comments]. *)
Record Issue := {
  raw_fields : gmap string pyval;
  attachment : list Attachment;
  comments : list Comment;
}.

#[global] Instance Attachment_eq_dec : EqDecision Attachment.
Proof. solve_decision. Defined.

(** ** Exceptions and results *)

Inductive exn :=
| IOError
| ValueError
| TypeError
| AttributeError
| CalledProcessError
| JIRAError.

#[global] Instance exn_eq_dec : EqDecision exn.
Proof. solve_decision. Defined.

Inductive result (A : Type) :=
| Ok (a : A)
| Raise (e : exn).
Arguments Ok {A} a.
Arguments Raise {A} e.

(** ** String formatting: whether [message % args] raises

    [log] formats every message with [%].  Its arguments are a tuple, or
    (when the caller gives none) the empty list, which [%] takes for a
    mapping and, where a conversion asks for a value, for that single
    value.  Only the outcome matters here, so the formatted text itself is
    not built: a log line keeps the message and its arguments. *)
Module Format.

Inductive fmt_args :=
| NoArgs                        (* args = [] *)
| Tuple (values : list pyval).

Inductive state :=
| Lit                           (* outside a conversion *)
| Percent                       (* just after '%' *)
| Key (depth : nat)             (* inside '(' ... ')' *)
| Flags
| Width (n : Z)
| Dot
| Prec (n : Z)
| Len.

Definition PY_SSIZE_T_MAX : Z := 2 ^ 63 - 1.
Definition INT_MAX : Z := 2 ^ 31 - 1.

Definition step_result : Type := exn + (state * list pyval).

(** The conversion character: the next value is taken first. *)
Definition conversion (c : ascii) (pending : list pyval) : step_result :=
  match pending with
  | [] => inl TypeError                       (* not enough arguments *)
  | v :: rest =>
      if Py.char_in c "sra" then inr (Lit, rest)
      else if Py.char_in c "diuoxXeEfFgG" then inl TypeError
      else if Py.ascii_eqb c "c"%char then
        match v with
        | PStr (String _ EmptyString) => inr (Lit, rest)
        | _ => inl TypeError
        end
      else inl ValueError                     (* unsupported format character *)
  end.

Definition from_len (c : ascii) (pending : list pyval) : step_result :=
  if Py.char_in c "hlL" then inr (Len, pending) else conversion c pending.

Definition from_dot (c : ascii) (pending : list pyval) : step_result :=
  if Py.ascii_eqb c "."%char then inr (Dot, pending) else from_len c pending.

Definition from_width (c : ascii) (pending : list pyval) : step_result :=
  if Py.ascii_eqb c "*"%char then inl TypeError          (* * wants int *)
  else if Py.is_digit c then inr (Width (Py.digit_value c), pending)
  else from_dot c pending.

Definition from_flags (c : ascii) (pending : list pyval) : step_result :=
  if Py.char_in c "-+ #0" then inr (Flags, pending) else from_width c pending.

Definition step (mapping : bool) (st : state) (c : ascii) (pending : list pyval)
  : step_result :=
  match st with
  | Lit => if Py.ascii_eqb c "%"%char then inr (Percent, pending) else inr (Lit, pending)
  | Percent =>
      if Py.ascii_eqb c "%"%char then inr (Lit, pending)
      else if Py.ascii_eqb c "("%char then
        if mapping then inr (Key 1, pending) else inl TypeError
      else from_flags c pending
  | Key depth =>
      if Py.ascii_eqb c ")"%char then
        match depth with
        | 1%nat => inl TypeError                (* [][key] *)
        | _ => inr (Key (Nat.pred depth), pending)
        end
      else if Py.ascii_eqb c "("%char then inr (Key (S depth), pending)
      else inr (Key depth, pending)
  | Flags => from_flags c pending
  | Width n =>
      if Py.is_digit c then
        if (PY_SSIZE_T_MAX - Py.digit_value c) / 10 <? n then inl ValueError
        else inr (Width (10 * n + Py.digit_value c), pending)
      else from_dot c pending
  | Dot =>
      if Py.ascii_eqb c "*"%char then inl TypeError
      else if Py.is_digit c then inr (Prec (Py.digit_value c), pending)
      else from_len c pending
  | Prec n =>
      if Py.is_digit c then
        if (INT_MAX - Py.digit_value c) / 10 <? n then inl ValueError
        else inr (Prec (10 * n + Py.digit_value c), pending)
      else from_len c pending
  | Len => conversion c pending
  end.

Fixpoint scan (mapping : bool) (st : state) (pending : list pyval) (s : string)
  : option exn :=
  match s with
  | EmptyString =>
      match st with
      | Lit =>
          match pending with
          | _ :: _ => if mapping then None else Some TypeError
          | [] => None
          end
      | _ => Some ValueError                    (* incomplete format *)
      end
  | String c rest =>
      match step mapping st c pending with
      | inl e => Some e
      | inr (st', pending') => scan mapping st' pending' rest
      end
  end.

(** The exception [message % args] raises, if any. *)
Definition format_error (message : string) (args : fmt_args) : option exn :=
  match args with
  | NoArgs => scan true Lit [PObj "[]"] message
  | Tuple values => scan false Lit values message
  end.

End Format.

(** ** The world a ticket folder lives in *)

(** Where a file name is resolved: [get_local_path], [get_metadata_path],
    [get_shadow_path], and the user's home.  Each directory is its own
    name space. *)
Inductive Path :=
| Local (name : string)
| Metadata (name : string)
| Shadow (name : string)
| Home (name : string).

(** [logging] levels, with their numbers. *)
Inductive Level := DEBUG | INFO | ERROR.

Definition level_number (l : Level) : Z :=
  match l with DEBUG => 10 | INFO => 20 | ERROR => 40 end.

Record LogEntry := {
  level : Level;
  message : string;
  args : Format.fmt_args;
}.

(** What the client asks of the tracker. *)
Inductive Request :=
| Connect                                     (* get_jira() *)
| GetIssue (key : string)                     (* jira.issue(key) *)
| Download (a : Attachment)                   (* attachment.get() *)
| Delete (a : Attachment)                     (* attachment.delete() *)
| AddAttachment (key name data : string)      (* jira.add_attachment(key, file) *)
| AddComment (key text : string)              (* jira.add_comment(key, text) *)
| Update (values : gmap string pyval).        (* issue.update, with the values as keywords *)

(** What leaves the process, in order: requests to the tracker, git
    commands (with the work tree they run in), writes of files other than
    the operation log, and the calls of migration functions. *)
Inductive Event :=
| Net (r : Request)
| Git (shadow : bool) (args : list string)
| Wrote (p : Path)
| Migrate (n : Z).

Abbreviation Tree := (gmap string string).

Record Disk := {
  local_files : Tree;
  metadata_files : Tree;
  shadow_files : Tree;
  home_files : Tree;
  oplog : list LogEntry;            (* the file at log_path *)
}.

(** The shadow repository, as far as [fetch] and [push] drive it: what is
    staged, the commits (newest first), the reference [jira] it pushes to.
    [outcome] gives what git answers: [None] is a non-zero exit. *)
Record Repo := {
  index : Tree;
  commits : list Tree;
  jira_ref : list Tree;
  outcome : bool -> list string -> option string;
}.

(** The tracker: the issue it serves now ([None]: the request fails) and
    its answer to every other request ([None]: the request fails). *)
Record Tracker := {
  served : option Issue;
  respond : Request -> option string;
}.

(** The instance: [ticket_number] and the attributes the properties
    memoize ([_jira], [_issue], [_cached_issue]). *)
Record Instance := {
  ticket_number : string;
  attr_jira : bool;
  attr_issue : option Issue;
  attr_cached_issue : option Issue;
}.

Record World := {
  disk : Disk;
  repo : Repo;
  tracker : Tracker;
  self : Instance;
  trace : list Event;
  console : list LogEntry;          (* what [print] showed *)
}.

Definition with_disk (f : Disk -> Disk) (w : World) : World :=
  {| disk := f (disk w); repo := repo w; tracker := tracker w; self := self w;
     trace := trace w; console := console w |}.

Definition with_repo (f : Repo -> Repo) (w : World) : World :=
  {| disk := disk w; repo := f (repo w); tracker := tracker w; self := self w;
     trace := trace w; console := console w |}.

Definition with_tracker (f : Tracker -> Tracker) (w : World) : World :=
  {| disk := disk w; repo := repo w; tracker := f (tracker w); self := self w;
     trace := trace w; console := console w |}.

Definition with_self (f : Instance -> Instance) (w : World) : World :=
  {| disk := disk w; repo := repo w; tracker := tracker w; self := f (self w);
     trace := trace w; console := console w |}.

Definition emit (e : Event) (w : World) : World :=
  {| disk := disk w; repo := repo w; tracker := tracker w; self := self w;
     trace := trace w ++ [e]; console := console w |}.

Definition show (e : LogEntry) (w : World) : World :=
  {| disk := disk w; repo := repo w; tracker := tracker w; self := self w;
     trace := trace w; console := console w ++ [e] |}.

Definition files_at (p : Path) (d : Disk) : Tree :=
  match p with
  | Local _ => local_files d
  | Metadata _ => metadata_files d
  | Shadow _ => shadow_files d
  | Home _ => home_files d
  end.

Definition name_of (p : Path) : string :=
  match p with Local n | Metadata n | Shadow n | Home n => n end.

Definition read_path (p : Path) (d : Disk) : option string :=
  files_at p d !! name_of p.

Definition store_path (p : Path) (data : string) (d : Disk) : Disk :=
  match p with
  | Local n =>
      {| local_files := <[n := data]> (local_files d); metadata_files := metadata_files d;
         shadow_files := shadow_files d; home_files := home_files d; oplog := oplog d |}
  | Metadata n =>
      {| local_files := local_files d; metadata_files := <[n := data]> (metadata_files d);
         shadow_files := shadow_files d; home_files := home_files d; oplog := oplog d |}
  | Shadow n =>
      {| local_files := local_files d; metadata_files := metadata_files d;
         shadow_files := <[n := data]> (shadow_files d); home_files := home_files d;
         oplog := oplog d |}
  | Home n =>
      {| local_files := local_files d; metadata_files := metadata_files d;
         shadow_files := shadow_files d; home_files := <[n := data]> (home_files d);
         oplog := oplog d |}
  end.

Definition append_oplog (e : LogEntry) (d : Disk) : Disk :=
  {| local_files := local_files d; metadata_files := metadata_files d;
     shadow_files := shadow_files d; home_files := home_files d; oplog := oplog d ++ [e] |}.

Definition set_issue (i : option Issue) (s : Instance) : Instance :=
  {| ticket_number := ticket_number s; attr_jira := attr_jira s; attr_issue := i;
     attr_cached_issue := attr_cached_issue s |}.

Definition set_cached_issue (i : option Issue) (s : Instance) : Instance :=
  {| ticket_number := ticket_number s; attr_jira := attr_jira s; attr_issue := attr_issue s;
     attr_cached_issue := i |}.

Definition set_jira (b : bool) (s : Instance) : Instance :=
  {| ticket_number := ticket_number s; attr_jira := b; attr_issue := attr_issue s;
     attr_cached_issue := attr_cached_issue s |}.

Definition set_served (i : option Issue) (t : Tracker) : Tracker :=
  {| served := i; respond := respond t |}.

(** ** The monad: state of the world, and exceptions

    An exception keeps the effects that came before it. *)
Definition M (A : Type) : Type := World -> result A * World.

Definition ret {A} (a : A) : M A := fun w => (Ok a, w).

Definition bind {A B} (m : M A) (k : A -> M B) : M B :=
  fun w =>
    match m w with
    | (Ok a, w') => k a w'
    | (Raise e, w') => (Raise e, w')
    end.

Definition raise {A} (e : exn) : M A := fun w => (Raise e, w).

Definition get : M World := fun w => (Ok w, w).

Definition modify (f : World -> World) : M unit := fun w => (Ok tt, f w).

(** [try: m except e: handler] *)
Definition try_except {A} (m : M A) (e : exn) (handler : M A) : M A :=
  fun w =>
    match m w with
    | (Raise e', w') => if decide (e' = e) then handler w' else (Raise e', w')
    | r => r
    end.

Declare Scope monad_scope.
Delimit Scope monad_scope with monad.
Notation "x <- m ;; k" := (bind m (fun x => k))
  (at level 20, m at level 99, k at level 200, only parsing) : monad_scope.
Notation "m ;; k" := (bind m (fun _ => k))
  (at level 100, k at level 200, only parsing, right associativity) : monad_scope.
Local Open Scope monad_scope.

(** A [for] loop that carries the variables its body assigns. *)
Fixpoint for_each {A S} (l : list A) (body : S -> A -> M S) (s : S) : M S :=
  match l with
  | [] => ret s
  | x :: rest => s' <- body s x ;; for_each rest body s'
  end.

Definition when (b : bool) (m : M unit) : M unit := if b then m else ret tt.

(** Files: reading a missing file is [IOError]; writing creates or
    replaces, and is seen in the trace. *)
Definition read_file (p : Path) : M string :=
  w <- get ;;
  match read_path p (disk w) with
  | Some data => ret data
  | None => raise IOError
  end.

Definition write_file (p : Path) (data : string) : M unit :=
  modify (fun w => emit (Wrote p) (with_disk (store_path p data) w)).

(** [f.write(data)] on a file open for writing: the text goes after what
    the file holds. *)
Definition append_file (p : Path) (data : string) : M unit :=
  modify (with_disk (fun d => store_path p (default "" (read_path p d) +:+ data) d)).

(** The tracker. *)
Definition request (r : Request) : M string :=
  modify (emit (Net r)) ;;
  w <- get ;;
  match respond (tracker w) r with
  | Some answer => ret answer
  | None => raise JIRAError
  end.

Definition request_issue (key : string) : M Issue :=
  modify (emit (Net (GetIssue key))) ;;
  w <- get ;;
  match served (tracker w) with
  | Some i => ret i
  | None => raise JIRAError
  end.

(** ** git

    The world's [outcome] says whether a command goes through ([None]: it
    exits non-zero) and what it prints.  In the shadow tree, [git add -A]
    stages the tree, [git commit] adds what is staged as a commit, and
    exits non-zero when that is the tree of the last commit, and
    [git push origin jira] sets the reference [jira].  Every other command
    changes nothing here: the history of the working tree is not kept, and
    of the commands [push] and [status] run there none rewrites its
    files. *)
Definition head_tree (r : Repo) : Tree :=
  match commits r with
  | t :: _ => t
  | [] => ∅
  end.

Definition stage (files : Tree) (r : Repo) : Repo :=
  {| index := files; commits := commits r; jira_ref := jira_ref r; outcome := outcome r |}.

Definition commit_index (r : Repo) : Repo :=
  {| index := index r; commits := index r :: commits r; jira_ref := jira_ref r;
     outcome := outcome r |}.

Definition push_jira (r : Repo) : Repo :=
  {| index := index r; commits := commits r; jira_ref := commits r; outcome := outcome r |}.

Definition git (shadow : bool) (cmd : list string) (w : World) : option string * World :=
  match outcome (repo w) shadow cmd with
  | None => (None, w)
  | Some out =>
      if negb shadow then (Some out, w)
      else if decide (cmd = ["add"; "-A"]) then
        (Some out, with_repo (stage (shadow_files (disk w))) w)
      else if decide (head cmd = Some "commit") then
        if decide (index (repo w) = head_tree (repo w)) then (None, w)
        else (Some out, with_repo commit_index w)
      else if decide (cmd = ["push"; "origin"; "jira"]) then
        (Some out, with_repo push_jira w)
      else (Some out, w)
  end.

(** [subprocess.check_output(cmd)] for a git command: [None] stands for
    [CalledProcessError]. *)
Definition check_output (shadow : bool) (cmd : list string) : M (option string) :=
  fun w => let (out, w') := git shadow cmd w in (Ok out, w').

(** ** What the module imports

    [constants.py], [migrations.py] and [rstfieldmanager.py] are not part
    of the file; neither are [fnmatch] and [json].  They are taken as
    given. *)
Record Env := {
  (* constants *)
  TICKET_DETAILS : string;
  TICKET_COMMENTS : string;
  TICKET_NEW_COMMENT : string;
  (* TICKET_FILE_FIELD_TEMPLATE.format(field_name=...) *)
  TICKET_FILE_FIELD_TEMPLATE : string -> string;
  FILE_FIELDS : list string;
  NO_DETAIL_FIELDS : list string;
  IGNORE_FILE : string;
  REMOTE_IGNORE_FILE : string;
  CURRENT_REPO_VERSION : Z;
  (* fnmatch.fnmatch(filename, glob) *)
  fnmatch : string -> string -> bool;
  (* json.dumps and json.loads, for the remote-file metadata and for the
     stored issue; [None] is a text that does not load *)
  json_dumps_files : gmap string string -> string;
  json_loads_files : string -> option (gmap string string);
  json_dumps_issue : Issue -> string;
  json_loads_issue : string -> option Issue;
  (* RSTFieldManager.create(folder, path=...) and (folder, revision=...):
     the fields they read; reading leaves the world as it is *)
  rst_fields_at_path : World -> result (gmap string pyval);
  rst_fields_at_revision : option string -> World -> result (gmap string pyval);
  (* getattr(migrations, name), by the number in the name *)
  migrations : Z -> option (M unit);
}.

(** What [status()] returns. *)
Record Status := {
  to_upload : list string;
  local_differs : gmap string (pyval * pyval);
  new_comment : string;
}.

(** One pass of the loop over the fields in [fetch]: the field is left
    out, written to its own file, or written to the details file. *)
Inductive FieldOutput :=
| LeftOut
| OwnFile (value : string)
| Details (value : string).

(** How the construction of a [TicketFolder] ends: with the instance, or
    with one of the two exceptions of [jirafs.exceptions], or with what
    the migrations raised. *)
Inductive Construction :=
| Constructed
| NotTicketFolderException
| CannotInferTicketNumberFromFolderName
| Raised (e : exn).

(** An instance that has memoized nothing yet. *)
Definition new_instance (number : string) : Instance :=
  {| ticket_number := number; attr_jira := false; attr_issue := None;
     attr_cached_issue := None |}.

(** ** TicketFolder *)
Section TicketFolder.

Variable E : Env.

Definition lift_read {A} (f : World -> result A) : M A := fun w => (f w, w).

(** [jira] property *)
Definition jira : M unit :=
  w <- get ;;
  if attr_jira (self w) then ret tt
  else (request Connect ;; modify (with_self (set_jira true))).

(** [issue] property *)
Definition issue : M Issue :=
  w <- get ;;
  match attr_issue (self w) with
  | Some i => ret i
  | None =>
      jira ;;
      i <- request_issue (ticket_number (self w)) ;;
      modify (with_self (set_issue (Some i))) ;;
      ret i
  end.

(** [log]; the process-wide [logger] is left out. *)
Definition log (message : string) (args : option (list pyval)) (level : Level)
  : M unit :=
  let args :=
    match args with
    | None => Format.NoArgs
    | Some values => Format.Tuple values
    end in
  match Format.format_error message args with
  | Some e => raise e
  | None =>
      let entry := {| level := level; message := message; args := args |} in
      modify (with_disk (append_oplog entry)) ;;
      if level_number INFO <=? level_number level
      then (issue ;; modify (show entry))
      else ret tt
  end.

Definition store_cached_issue : M unit :=
  issue ;;
  i <- issue ;;
  write_file (Metadata "issue.json") (json_dumps_issue E i).

(** [cached_issue] property *)
Definition cached_issue : M Issue :=
  w <- get ;;
  match attr_cached_issue (self w) with
  | Some i => ret i
  | None =>
      try_except
        (text <- read_file (Metadata "issue.json") ;;
         match json_loads_issue E text with
         | Some i => modify (with_self (set_cached_issue (Some i))) ;; ret i
         | None => raise ValueError
         end)
        IOError
        (log "Error encountered while loading cached issue!" None ERROR ;;
         i <- issue ;;
         modify (with_self (set_cached_issue (Some i))) ;;
         ret i)
  end.

Definition get_remote_file_metadata : M (gmap string string) :=
  try_except
    (text <- read_file (Shadow ".jirafs/remote_files.json") ;;
     match json_loads_files E text with
     | Some data => ret data
     | None => raise ValueError
     end)
    IOError
    (ret ∅).

Definition set_remote_file_metadata (data : gmap string string) : M unit :=
  write_file (Shadow ".jirafs/remote_files.json") (json_dumps_files E data).

(** [version] property *)
Definition version : M Z :=
  try_except
    (text <- read_file (Metadata "version") ;;
     match Py.parse_int (Py.strip text) with
     | Some n => ret n
     | None => raise ValueError
     end)
    IOError
    (ret 1).

(** [run_git_command]: the positional arguments as a list, then the two
    keywords; the result is [None] where Python's is. *)
Definition run_git_command (args : list string) (failure_ok shadow : bool)
  : M (option string) :=
  log "Executing git command %s" (Some [PObj (String.concat " " ("git" :: args))]) DEBUG ;;
  modify (emit (Git shadow args)) ;;
  answer <- check_output shadow args ;;
  match answer with
  | Some out => ret (Some (Py.strip out))
  | None => if failure_ok then ret None else raise CalledProcessError
  end.

(** [git_merge_base] property *)
Definition git_merge_base : M (option string) :=
  run_git_command ["merge-base"; "master"; "jira"] false false.

(** The pattern [^\w+-\d+$]. *)
Definition ticket_number_pattern : list Re.item :=
  [Re.Plus Re.Word; Re.One (Re.Lit "-"%char); Re.Plus Re.Digit; Re.Dollar].

(** [infer_ticket_number], from [self.path]; [None] stands for
    [CannotInferTicketNumberFromFolderName].  [split] never returns an
    empty list, so the last element is always there. *)
Definition infer_ticket_number (path : string) : option string :=
  let raw_number := Py.upper (List.last (Py.split "/"%char path) "") in
  if Re.matches ticket_number_pattern raw_number then Some raw_number else None.

Definition get_local_file_at_revision (path revision : string) (failure_ok : bool)
  : M (option string) :=
  run_git_command ["show"; revision +:+ ":" +:+ path] failure_ok false.

Definition get_globs_from_file (text : string) : list string :=
  Py.strip <$>
    filter (fun line => negb (Py.startswith "#" line || Py.is_empty (Py.strip line)) = true)
           (Py.readlines text).

Definition builtin_globs : list string :=
  [TICKET_DETAILS E; TICKET_COMMENTS E; TICKET_NEW_COMMENT E]
    ++ (TICKET_FILE_FIELD_TEMPLATE E <$> FILE_FIELDS E).

Definition globs_of (p : Path) : M (list string) :=
  try_except (text <- read_file p ;; ret (get_globs_from_file text)) IOError (ret []).

Definition get_ignore_globs (which : string) : M (list string) :=
  let all_globs := builtin_globs in
  local_ign <- globs_of (Local which) ;;
  let all_globs := all_globs ++ local_ign in
  global_ignores <- globs_of (Home which) ;;
  let all_globs := all_globs ++ global_ignores in
  ret all_globs.

Definition file_matches_globs (filename : string) (ignore_globs : list string) : bool :=
  existsb (fnmatch E filename) ignore_globs.

(** [output.split('\n')] on what [run_git_command] returned. *)
Definition split_output (output : option string) : M (list string) :=
  match output with
  | Some text => ret (Py.split_lines text)
  | None => raise AttributeError
  end.

Definition get_locally_changed : M (list string) :=
  ignore_globs <- get_ignore_globs (IGNORE_FILE E) ;;
  out <- run_git_command ["ls-files"; "-o"] true false ;;
  new_files <- split_output out ;;
  out <- run_git_command ["ls-files"; "-m"] true false ;;
  modified_files <- split_output out ;;
  let all_possible :=
    filter (fun filename => negb (Py.is_empty filename) = true)
           (new_files ++ modified_files) in
  w <- get ;;
  ret (filter
         (fun filename =>
            negb (file_matches_globs filename ignore_globs)
            && bool_decide (is_Some (read_path (Local filename) (disk w)))
            && negb (Py.startswith "." filename) = true)
         all_possible).

Definition get_remotely_changed : M (list string) :=
  ignore_globs <- get_ignore_globs (REMOTE_IGNORE_FILE E) ;;
  metadata <- get_remote_file_metadata ;;
  i <- issue ;;
  ret (filename <$>
         filter
           (fun a =>
              let matches_globs := file_matches_globs (filename a) ignore_globs in
              let changed := bool_decide (metadata !! filename a ≠ Some (created a)) in
              negb matches_globs && changed = true)
           (attachment i)).

Definition get_local_fields : M (gmap string pyval) :=
  lift_read (rst_fields_at_path E).

Definition get_original_values : M (gmap string pyval) :=
  revision <- git_merge_base ;;
  lift_read (rst_fields_at_revision E revision).

(** The dict [get_local_differing_fields] builds. *)
Definition differing (local_fields original_values : gmap string pyval)
  : gmap string (pyval * pyval) :=
  map_imap
    (fun k v =>
       if decide (dict_get local_fields k ≠ v)
       then Some (v, dict_get local_fields k)
       else None)
    original_values.

Definition get_local_differing_fields : M (gmap string (pyval * pyval)) :=
  local_fields <- get_local_fields ;;
  original_values <- get_original_values ;;
  ret (differing local_fields original_values).

Definition get_new_comment (clear : bool) : M string :=
  try_except
    (text <- read_file (Local (TICKET_NEW_COMMENT E)) ;;
     let comment := Py.strip text in
     when clear (write_file (Local (TICKET_NEW_COMMENT E)) "") ;;
     ret comment)
    IOError
    (ret "").


(** The body of the loop over the fields in [fetch], up to the writes.
    By the time the details branch tests [value is None] the value is a
    string, so that test never leaves a field out. *)
Definition render_field (field : string) (value : pyval) : FieldOutput :=
  let kept :=
    match value with
    | PStr s => Some (PStr (Py.strip (Py.replace_crlf s)))
    | PNone => Some (PStr "")
    | PObj _ => if bool_decide (field ∈ NO_DETAIL_FIELDS E) then None else Some value
    end in
  match kept with
  | None => LeftOut
  | Some value =>
      let value := if is_string value then value else PStr (text_type value) in
      if bool_decide (field ∈ FILE_FIELDS E) then OwnFile (text_type value)
      else if bool_decide (field ∈ NO_DETAIL_FIELDS E) then LeftOut
      else Details (text_type value)
  end.

(** A header line, a blank line, the indented lines, a blank line. *)
Definition write_block (p : Path) (header : string) (text : string) : M unit :=
  append_file p (header +:+ "::" +:+ Py.nl +:+ Py.nl) ;;
  for_each (Py.split_lines (Py.replace_crlf text))
           (fun _ line => append_file p ("    " +:+ line +:+ Py.nl)) tt ;;
  append_file p Py.nl.

Definition write_field (field : string) : M unit :=
  i <- issue ;;
  match raw_fields i !! field with
  | None => raise AttributeError
  | Some value =>
      match render_field field value with
      | LeftOut => ret tt
      | OwnFile value =>
          let file_field_path := Shadow (TICKET_FILE_FIELD_TEMPLATE E field) in
          write_file file_field_path "" ;;
          append_file file_field_path value ;;
          append_file file_field_path Py.nl
      | Details value => write_block (Shadow (TICKET_DETAILS E)) field value
      end
  end.

(** The body of the inner loop of the download in [fetch]. *)
Definition download (fname : string) (file_meta : gmap string string)
           (a : Attachment) : M (gmap string string) :=
  if decide (filename a = fname) then
    let shadow_filename := Shadow fname in
    write_file shadow_filename "" ;;
    log ("Download file " +:+ Py.quote +:+ "%s" +:+ Py.quote) (Some [PStr (filename a)]) INFO ;;
    let file_meta := <[fname := created a]> file_meta in
    data <- request (Download a) ;;
    append_file shadow_filename data ;;
    ret file_meta
  else ret file_meta.

Definition write_comment (c : Comment) : M unit :=
  write_block (Shadow (TICKET_COMMENTS E))
              (comment_created c +:+ ": " +:+ author c) (body c).

Definition fetch : M unit :=
  file_meta <- get_remote_file_metadata ;;
  changed <- get_remotely_changed ;;
  file_meta <-
    for_each changed
      (fun file_meta fname =>
         i <- issue ;;
         for_each (attachment i) (download fname) file_meta)
      file_meta ;;
  set_remote_file_metadata file_meta ;;
  write_file (Shadow (TICKET_DETAILS E)) "" ;;
  i <- issue ;;
  for_each (Py.sorted (fst <$> map_to_list (raw_fields i)))
           (fun _ field => write_field field) tt ;;
  write_file (Shadow (TICKET_COMMENTS E)) "" ;;
  i <- issue ;;
  for_each (comments i) (fun _ c => write_comment c) tt ;;
  store_cached_issue ;;
  run_git_command ["add"; "-A"] false true ;;
  run_git_command ["commit"; "-m"; "Pulled remote changes"] true true ;;
  run_git_command ["push"; "origin"; "jira"] false true ;;
  ret tt.

(** [merge]: the three commands, in the working tree.  What they do to
    its files is not kept here; their order and their exit status are. *)
Definition merge : M unit :=
  run_git_command ["stash"; "--include-untracked"] true false ;;
  run_git_command ["merge"; "jira"] false false ;;
  run_git_command ["stash"; "pop"] true false ;;
  ret tt.

Definition pull : M unit :=
  fetch ;;
  merge.

Definition status : M Status :=
  locally_changed <- get_locally_changed ;;
  differs <- get_local_differing_fields ;;
  comment <- get_new_comment false ;;
  ret {| to_upload := locally_changed; local_differs := differs; new_comment := comment |}.

(** The body of the upload loop in [push]. *)
Definition upload_file (file_meta : gmap string string) (fname : string)
  : M (gmap string string) :=
  upload <- read_file (Local fname) ;;
  log ("Uploading file " +:+ Py.quote +:+ "%s" +:+ Py.quote) (Some [PStr fname]) INFO ;;
  i <- issue ;;
  for_each (attachment i)
           (fun _ a => if decide (filename a = fname)
                       then (request (Delete a) ;; ret tt) else ret tt) tt ;;
  jira ;;
  w <- get ;;
  token <- request (AddAttachment (ticket_number (self w)) fname upload) ;;
  ret (<[fname := token]> file_meta).

Definition push : M unit :=
  status <- status ;;
  file_meta <- get_remote_file_metadata ;;
  file_meta <- for_each (to_upload status) upload_file file_meta ;;
  comment <- get_new_comment true ;;
  when (negb (Py.is_empty comment))
       (log ("Adding comment " +:+ Py.quote +:+ comment +:+ Py.quote) None INFO ;;
        jira ;;
        w <- get ;;
        request (AddComment (ticket_number (self w)) comment) ;;
        ret tt) ;;
  let collected_updates : gmap string pyval := snd <$> local_differs status in
  when (negb (bool_decide (collected_updates = ∅)))
       (log ("Updating fields " +:+ Py.quote +:+ "%s" +:+ Py.quote) (Some [PObj "collected_updates"]) INFO ;;
        issue ;;
        request (Update collected_updates) ;;
        ret tt) ;;
  (* Commit local copy *)
  run_git_command ["add"; "-A"] true false ;;
  run_git_command ["commit"; "-m"; "Pushed local changes"] true false ;;
  (* Commit changes to remote copy, too *)
  run_git_command ["fetch"] false true ;;
  run_git_command ["merge"; "master"] false false ;;
  set_remote_file_metadata file_meta ;;
  run_git_command ["add"; "-A"] false true ;;
  run_git_command ["commit"; "-m"; "Pulled remote changes"] true true ;;
  run_git_command ["push"; "origin"; "jira"] false true ;;
  ret tt.

Definition sync : M unit :=
  pull ;;
  push.

(** ['migration_%s' % str(n).zfill(4)] *)
Definition migration_name (n : Z) : string :=
  "migration_" +:+ Py.zfill 4 (Py.str_of_int n).

(** [migrate]; [n] is the number in the migrator's name. *)
Definition migrate (n : Z) (migrator : M unit) (loglevel : Level) : M unit :=
  log "%s: Migration started" (Some [PStr (migration_name n)]) loglevel ;;
  modify (emit (Migrate n)) ;;
  migrator ;;
  log "%s: Migration finished" (Some [PStr (migration_name n)]) loglevel.

(** [getattr(migrations, name)] *)
Definition get_migrator (n : Z) : M (M unit) :=
  match migrations E n with
  | Some migrator => ret migrator
  | None => raise AttributeError
  end.

(** The [while] loop of [run_migrations]; [None] when [fuel] passes are
    not enough to leave it. *)
Fixpoint run_migrations_loop (fuel : nat) (loglevel : Level) (w : World)
  : option (result unit * World) :=
  match fuel with
  | O => None
  | S fuel' =>
      match version w with
      | (Raise e, w1) => Some (Raise e, w1)
      | (Ok v, w1) =>
          if v <? CURRENT_REPO_VERSION E then
            match (v' <- version ;;
                   migrator <- get_migrator (v' + 1) ;;
                   migrate (v' + 1) migrator loglevel) w1 with
            | (Raise e, w2) => Some (Raise e, w2)
            | (Ok _, w2) => run_migrations_loop fuel' loglevel w2
            end
          else Some (Ok tt, w1)
      end
  end.

Definition run_migrations (fuel : nat) (silent : bool) (w : World)
  : option (result unit * World) :=
  let loglevel := if silent then DEBUG else INFO in
  run_migrations_loop fuel loglevel w.

(** [__init__]: [path] is [self.path], resolved already, and
    [is_metadata_dir] is what [os.path.isdir(self.metadata_dir)] gives.
    The instance of the world it leaves is the one under construction;
    [None] when [fuel] passes of the migration loop are not enough. *)
Definition __init__ (fuel : nat) (path : string) (is_metadata_dir migrate : bool)
           (w : World) : option (Construction * World) :=
  if negb is_metadata_dir then Some (NotTicketFolderException, w)
  else
    match infer_ticket_number path with
    | None => Some (CannotInferTicketNumberFromFolderName, w)
    | Some number =>
        let w := with_self (fun _ => new_instance number) w in
        match (if migrate then run_migrations fuel false w else Some (Ok tt, w)) with
        | None => None
        | Some (Raise e, w) => Some (Raised e, w)
        | Some (Ok _, w) =>
            (* If no new_comment.jira.txt file exists, let's create one *)
            let comment_path := Local (TICKET_NEW_COMMENT E) in
            match read_path comment_path (disk w) with
            | Some _ => Some (Constructed, w)
            | None => Some (Constructed, snd (write_file comment_path "" w))
            end
        end
    end.

End TicketFolder.

(** ** Paths

    [os.path.join] of two parts, as on a POSIX system, and the methods
    that place a file name in the folder.  [path] is [self.path];
    [METADATA_DIR] and [TICKET_OPERATION_LOG] are constants of
    [constants.py]. *)
Definition os_path_join (a b : string) : string :=
  if Py.startswith "/" b then b
  else if Py.is_empty a || Py.endswith "/" a then a +:+ b
  else a +:+ "/" +:+ b.

Section Paths.

Variable path : string.
Variable METADATA_DIR : string.
Variable TICKET_OPERATION_LOG : string.

(** [metadata_dir] property *)
Definition metadata_dir : string := os_path_join path METADATA_DIR.

Definition get_metadata_path (filename : string) : string :=
  os_path_join metadata_dir filename.

Definition get_local_path (filename : string) : string :=
  os_path_join path filename.

Definition get_shadow_path (filename : string) : string :=
  os_path_join (get_metadata_path "shadow") filename.

(** [log_path] property *)
Definition log_path : string := get_metadata_path TICKET_OPERATION_LOG.

End Paths.

(** ** Words for the statements *)

(** The requests the [issue] property makes when read in [w]: none once
    the instance holds the issue. *)
Definition issue_requests (w : World) : list Event :=
  match attr_issue (self w) with
  | Some _ => []
  | None =>
      (if attr_jira (self w) then [] else [Net Connect])
        ++ [Net (GetIssue (ticket_number (self w)))]
  end.

(** The globs an ignore file at [p] holds; none when there is no file. *)
Definition file_globs (p : Path) (w : World) : list string :=
  match read_path p (disk w) with
  | Some text => get_globs_from_file text
  | None => []
  end.

(** [glob] comes from one of the three sources of ignore globs, the two
    files being those named [which]. *)
Definition ignored_by (E : Env) (which : string) (w : World) (glob : string) : Prop :=
  glob ∈ builtin_globs E
  \/ glob ∈ file_globs (Local which) w
  \/ glob ∈ file_globs (Home which) w.

(** The migrations called along a trace, by number, in call order. *)
Definition migrations_called (t : list Event) : list Z :=
  omap (fun e => match e with Migrate n => Some n | _ => None end) t.

(** The version the folder stores, as the [version] property reads it. *)
Definition stored_version (w : World) : result Z := fst (version w).

(** Migration [n] is registered and runs to its end on every folder,
    where the last thing it leaves is the version [n] stored; it calls no
    migration itself, and an instance that holds the issue still holds
    one after it. *)
Definition persists_its_version (E : Env) (n : Z) : Prop :=
  exists migrator,
    migrations E n = Some migrator
    /\ forall w, exists w',
         migrator w = (Ok tt, w')
         /\ stored_version w' = Ok n
         /\ (is_Some (attr_issue (self w)) -> is_Some (attr_issue (self w')))
         /\ migrations_called (trace w') = migrations_called (trace w).

(** [log] at [level] can show its line: below [INFO] nothing is shown,
    from [INFO] on the line shows the issue, which has to be readable. *)
Definition can_log (level : Level) (w : World) : Prop :=
  level_number INFO <= level_number level -> exists i w1, issue w = (Ok i, w1).

(** The git commands along a trace, each with the work tree it ran in
    ([true]: the shadow tree). *)
Definition git_commands (t : list Event) : list (bool * list string) :=
  omap (fun e => match e with Git shadow cmd => Some (shadow, cmd) | _ => None end) t.

(** The comments sent to the tracker along a trace. *)
Definition comments_submitted (t : list Event) : list string :=
  omap (fun e => match e with Net (AddComment _ text) => Some text | _ => None end) t.

(** What [push] does last, once the tracker has been told everything. *)
Definition push_epilogue : list Event :=
  [ Git false ["add"; "-A"];
    Git false ["commit"; "-m"; "Pushed local changes"];
    Git true ["fetch"];
    Git false ["merge"; "master"];
    Wrote (Shadow ".jirafs/remote_files.json");
    Git true ["add"; "-A"];
    Git true ["commit"; "-m"; "Pulled remote changes"];
    Git true ["push"; "origin"; "jira"] ].

(** The same world, with another tracker in front of it. *)
Definition facing (t : Tracker) (w : World) : World := with_tracker (fun _ => t) w.

(** The line [cached_issue] logs when the stored issue cannot be read. *)
Definition cached_issue_error : LogEntry :=
  {| level := ERROR; message := "Error encountered while loading cached issue!";
     args := Format.NoArgs |}.

(** ** What a computation keeps

    A computation respects a relation on worlds when the world it leaves,
    whether it returns or raises, is related to the one it started in. *)
Definition respects (R : relation World) {A} (m : M A) : Prop :=
  forall w, R w (snd (m w)).

(** The files and the operation log. *)
Definition same_disk : relation World := fun w w' => disk w' = disk w.

(** Every file of the shadow tree but the one named [kept] is as it was. *)
Definition shadow_but (kept : string) : relation World := fun w w' =>
  forall name, name <> kept ->
    shadow_files (disk w') !! name = shadow_files (disk w) !! name.

(** The files of the working tree. *)
Definition same_local : relation World := fun w w' =>
  local_files (disk w') = local_files (disk w).

(** The trace only grows. *)
Definition trace_grows : relation World := fun w w' => trace w `prefix_of` trace w'.

(** ** Writes to the shadow tree

    What a stretch of [fetch] does to the shadow tree, as the list of its
    writes: [Put] opens a file for writing and leaves the text in it, [Add]
    writes a text at the end of a file. *)
Inductive Write :=
| Put (name data : string)
| Add (name data : string).

Definition write_name (o : Write) : string :=
  match o with Put name _ | Add name _ => name end.

Definition apply_write (t : Tree) (o : Write) : Tree :=
  match o with
  | Put name data => <[name := data]> t
  | Add name data => <[name := default "" (t !! name) +:+ data]> t
  end.

Definition apply_writes (ops : list Write) (t : Tree) : Tree :=
  foldl apply_write t ops.

(** The same, seen from the one file [k]. *)
Definition write_to (k : string) (x : option string) (o : Write) : option string :=
  match o with
  | Put name data => if decide (name = k) then Some data else x
  | Add name data => if decide (name = k) then Some (default "" x +:+ data) else x
  end.

Definition written (k : string) (ops : list Write) (x : option string) : option string :=
  foldl (write_to k) x ops.

(** The first write to [k], if there is one, is a [Put]. *)
Fixpoint anchored (k : string) (ops : list Write) : bool :=
  match ops with
  | [] => true
  | Put name _ :: rest => if decide (name = k) then true else anchored k rest
  | Add name _ :: rest => if decide (name = k) then false else anchored k rest
  end.

(** [w'] is [w] after the writes [ops] to the shadow tree: the working
    tree, the home, the repository, the tracker and the instance are as
    they were. *)
Definition wrote (ops : list Write) : relation World := fun w w' =>
  shadow_files (disk w') = apply_writes ops (shadow_files (disk w))
  /\ local_files (disk w') = local_files (disk w)
  /\ home_files (disk w') = home_files (disk w)
  /\ repo w' = repo w
  /\ tracker w' = tracker w
  /\ self w' = self w.

(** The instance holds the issue [i] and faces the tracker [t]. *)
Definition settled (i : Issue) (t : Tracker) (w : World) : Prop :=
  attr_issue (self w) = Some i /\ tracker w = t.

(** From every settled world, [m] returns [a] after the writes [ops]
    ([Some (a, ops)]), or raises ([None]). *)
Definition runs (i : Issue) (t : Tracker) {A} (m : M A) (r : option (A * list Write)) : Prop :=
  forall w, settled i t w ->
    match r with
    | Some (a, ops) => exists w', m w = (Ok a, w') /\ wrote ops w w'
    | None => exists e w', m w = (Raise e, w')
    end.

Definition then_result {A B} (r1 : option (A * list Write))
           (r2 : A -> option (B * list Write)) : option (B * list Write) :=
  match r1 with
  | Some (a, ops1) =>
      match r2 a with
      | Some (b, ops2) => Some (b, ops1 ++ ops2)
      | None => None
      end
  | None => None
  end.

Fixpoint loop_result {A S} (body : S -> A -> option (S * list Write))
         (l : list A) (s : S) : option (S * list Write) :=
  match l with
  | [] => Some (s, [])
  | x :: rest => then_result (body s x) (loop_result body rest)
  end.

(** ** fetch, as writes to the shadow tree *)

(** [get_remote_file_metadata], from the shadow tree alone. *)
Definition read_metadata (E : Env) (tree : Tree) : result (gmap string string) :=
  match tree !! ".jirafs/remote_files.json" with
  | None => Ok ∅
  | Some text =>
      match json_loads_files E text with
      | Some data => Ok data
      | None => Raise ValueError
      end
  end.

(** The globs [get_ignore_globs] returns for the ignore files named [which]. *)
Definition ignore_globs_in (E : Env) (which : string) (w : World) : list string :=
  (builtin_globs E ++ file_globs (Local which) w) ++ file_globs (Home which) w.

(** The names [get_remotely_changed] returns. *)
Definition changed_names (E : Env) (ignore_globs : list string)
           (metadata : gmap string string) (i : Issue) : list string :=
  filename <$>
    filter
      (fun a =>
         negb (file_matches_globs E (filename a) ignore_globs)
         && bool_decide (metadata !! filename a <> Some (created a)) = true)
      (attachment i).

(** One pass of the inner loop of the download: the metadata it leaves and
    its writes, or [None] when the download fails. *)
Definition download_result (t : Tracker) (fname : string)
           (file_meta : gmap string string) (a : Attachment)
  : option (gmap string string * list Write) :=
  if decide (filename a = fname) then
    match respond t (Download a) with
    | Some data => Some (<[fname := created a]> file_meta, [Put fname ""; Add fname data])
    | None => None
    end
  else Some (file_meta, []).

Definition downloads_result (i : Issue) (t : Tracker) (changed : list string)
           (file_meta : gmap string string) : option (gmap string string * list Write) :=
  loop_result (fun file_meta fname => loop_result (download_result t fname) (attachment i) file_meta)
              changed file_meta.

(** The last attachment of the given name. *)
Definition last_named (fname : string) (l : list Attachment) : option Attachment :=
  last (filter (fun a => filename a = fname) l).

(** The attachment the download leaves in the file [k]: the last one of
    that name, when the name is among those downloaded. *)
Definition downloaded (changed : list string) (l : list Attachment) (k : string)
  : option Attachment :=
  if decide (k ∈ changed) then last_named k l else None.

Definition block_writes (name header text : string) : list Write :=
  [Add name (header +:+ "::" +:+ Py.nl +:+ Py.nl)]
    ++ concat ((fun line => [Add name ("    " +:+ line +:+ Py.nl)])
                 <$> Py.split_lines (Py.replace_crlf text))
    ++ [Add name Py.nl].

Definition field_writes (E : Env) (i : Issue) (field : string) : list Write :=
  match raw_fields i !! field with
  | Some value =>
      match render_field E field value with
      | LeftOut => []
      | OwnFile text =>
          [Put (TICKET_FILE_FIELD_TEMPLATE E field) "";
           Add (TICKET_FILE_FIELD_TEMPLATE E field) text;
           Add (TICKET_FILE_FIELD_TEMPLATE E field) Py.nl]
      | Details text => block_writes (TICKET_DETAILS E) field text
      end
  | None => []
  end.

(** The result of [write_field]: it raises for a field the issue lacks. *)
Definition field_result (E : Env) (i : Issue) (field : string) : option (unit * list Write) :=
  match raw_fields i !! field with
  | Some _ => Some (tt, field_writes E i field)
  | None => None
  end.

Definition comment_writes (E : Env) (c : Comment) : list Write :=
  block_writes (TICKET_COMMENTS E) (comment_created c +:+ ": " +:+ author c) (body c).

Definition field_names (i : Issue) : list string :=
  Py.sorted (fst <$> map_to_list (raw_fields i)).

(** Everything [fetch] writes after the downloads. *)
Definition rendering_writes (E : Env) (i : Issue) (file_meta : gmap string string)
  : list Write :=
  [Put ".jirafs/remote_files.json" (json_dumps_files E file_meta)]
    ++ [Put (TICKET_DETAILS E) ""]
    ++ concat (field_writes E i <$> field_names i)
    ++ [Put (TICKET_COMMENTS E) ""]
    ++ concat (comment_writes E <$> comments i).

(** The file of the remote-file metadata is none of the files [fetch]
    renders the issue into. *)
Definition metadata_file_apart (E : Env) : Prop :=
  TICKET_DETAILS E <> ".jirafs/remote_files.json"
  /\ TICKET_COMMENTS E <> ".jirafs/remote_files.json"
  /\ forall field, TICKET_FILE_FIELD_TEMPLATE E field <> ".jirafs/remote_files.json".

(** What the three git commands at the end of [fetch] leave of the shadow
    repository, the shadow tree being [tree]; [None] when staging or
    pushing fails. *)
Definition shadow_commit (tree : Tree) (r : Repo) : option Repo :=
  match outcome r true ["add"; "-A"] with
  | None => None
  | Some _ =>
      let staged := stage tree r in
      let committed :=
        match outcome r true ["commit"; "-m"; "Pulled remote changes"] with
        | Some _ => if decide (tree = head_tree staged) then staged else commit_index staged
        | None => staged
        end in
      match outcome r true ["push"; "origin"; "jira"] with
      | Some _ => Some (push_jira committed)
      | None => None
      end
  end.

(** The stretches of [fetch]: the downloads, the rendering of the issue
    into the shadow tree, the git commands. *)
Definition fetch_downloads (changed : list string) (file_meta : gmap string string)
  : M (gmap string string) :=
  for_each changed
    (fun file_meta fname =>
       bind issue (fun i => for_each (attachment i) (download fname) file_meta))
    file_meta.

Definition fetch_rendering (E : Env) (file_meta : gmap string string) : M unit :=
  bind (set_remote_file_metadata E file_meta) (fun _ =>
  bind (write_file (Shadow (TICKET_DETAILS E)) "") (fun _ =>
  bind issue (fun i =>
  bind (for_each (Py.sorted (fst <$> map_to_list (raw_fields i)))
                 (fun _ field => write_field E field) tt) (fun _ =>
  bind (write_file (Shadow (TICKET_COMMENTS E)) "") (fun _ =>
  bind issue (fun i =>
  bind (for_each (comments i) (fun _ c => write_comment E c) tt) (fun _ =>
  store_cached_issue E))))))).

Definition fetch_commit : M unit :=
  bind (run_git_command ["add"; "-A"] false true) (fun _ =>
  bind (run_git_command ["commit"; "-m"; "Pulled remote changes"] true true) (fun _ =>
  bind (run_git_command ["push"; "origin"; "jira"] false true) (fun _ =>
  ret tt))).

(** The instance apart, nothing changed. *)
Definition instance_only : relation World := fun w w' =>
  disk w' = disk w /\ repo w' = repo w /\ tracker w' = tracker w.

(** What git saw of the world is kept: the files, but for the log, and
    everything but the repository, which is now [r']. *)
Definition repo_step (r' : Repo) : relation World := fun w w' =>
  repo w' = r'
  /\ shadow_files (disk w') = shadow_files (disk w)
  /\ local_files (disk w') = local_files (disk w)
  /\ home_files (disk w') = home_files (disk w)
  /\ tracker w' = tracker w
  /\ self w' = self w.

(** No comment was sent in between. *)
Definition same_comments : relation World := fun w w' =>
  comments_submitted (trace w') = comments_submitted (trace w).

(** ** More words for the statements *)

(** A key, a hyphen, a number; a newline may follow, which [$] lets
    through. *)
Definition ticket_number_shape (t : string) : Prop :=
  exists key number tail,
    t = key +:+ "-" +:+ number +:+ tail
    /\ key <> "" /\ Py.all_chars Re.is_word key = true
    /\ number <> "" /\ Py.all_chars Py.is_digit number = true
    /\ (tail = "" \/ tail = Py.nl).

(** A character other than the separator of paths. *)
Definition no_slash (c : ascii) : bool := negb (Py.ascii_eqb c "/").

(** The requests that change the tracker: the others only read from it. *)
Definition is_tracker_write (r : Request) : bool :=
  match r with
  | Delete _ | AddAttachment _ _ _ | AddComment _ _ | Update _ => true
  | Connect | GetIssue _ | Download _ => false
  end.

Definition tracker_writes (t : list Event) : list Request :=
  omap (fun e => match e with
                 | Net r => if is_tracker_write r then Some r else None
                 | _ => None
                 end) t.

(** Nothing was written to the tracker in between. *)
Definition same_tracker_writes : relation World := fun w w' =>
  tracker_writes (trace w') = tracker_writes (trace w).

(** The line [run_git_command] logs. *)
Definition git_log_entry (args : list string) : LogEntry :=
  {| level := DEBUG; message := "Executing git command %s";
     args := Format.Tuple [PObj (String.concat " " ("git" :: args))] |}.

Definition is_git_event (e : Event) : bool :=
  match e with Git _ _ => true | _ => false end.

(** Between [w] and [w'] only git commands were run, and logged at
    [DEBUG]: every file, the repository, the tracker, the instance and the
    console are as they were. *)
Definition only_ran_git : relation World := fun w w' =>
  local_files (disk w') = local_files (disk w)
  /\ metadata_files (disk w') = metadata_files (disk w)
  /\ shadow_files (disk w') = shadow_files (disk w)
  /\ home_files (disk w') = home_files (disk w)
  /\ repo w' = repo w
  /\ tracker w' = tracker w
  /\ self w' = self w
  /\ console w' = console w
  /\ (exists events, trace w' = trace w ++ events
                     /\ Forall (fun e => is_git_event e = true) events)
  /\ (exists lines, oplog (disk w') = oplog (disk w) ++ lines
                    /\ Forall (fun line => level line = DEBUG) lines).

(** The line [log] writes for a message and its arguments. *)
Definition log_entry (message : string) (args : option (list pyval)) (level : Level)
  : LogEntry :=
  {| level := level; message := message;
     args := match args with
             | None => Format.NoArgs
             | Some values => Format.Tuple values
             end |}.

(** What [fetch] keeps: it only reads from the tracker, and the working
    tree and the user's home are as they were. *)
Definition reads_tracker_only : relation World := fun w w' =>
  tracker_writes (trace w') = tracker_writes (trace w)
  /\ local_files (disk w') = local_files (disk w)
  /\ home_files (disk w') = home_files (disk w).

(** The text of pieces written one after the other. *)
Definition join (pieces : list string) : string := foldr String.append "" pieces.

(** The text of a block: a header line, a blank line, the indented lines,
    a blank line. *)
Definition block_text (header text : string) : string :=
  header +:+ "::" +:+ Py.nl +:+ Py.nl
    +:+ join ((fun line => "    " +:+ line +:+ Py.nl) <$> Py.split_lines (Py.replace_crlf text))
    +:+ Py.nl.

(** What a field adds to the details file. *)
Definition field_text (E : Env) (i : Issue) (field : string) : string :=
  match raw_fields i !! field with
  | Some value =>
      match render_field E field value with
      | Details text => block_text field text
      | _ => ""
      end
  | None => ""
  end.

Definition details_text (E : Env) (i : Issue) : string :=
  join (field_text E i <$> field_names i).

Definition comments_text (i : Issue) : string :=
  join ((fun c => block_text (comment_created c +:+ ": " +:+ author c) (body c))
          <$> comments i).

(** What [push] may change of the files: in the working tree the comment
    buffer, which it empties; in the shadow tree the remote-file metadata;
    nothing in the metadata directory or in the user's home. *)
Definition touches_only (E : Env) : relation World := fun w w' =>
  (local_files (disk w') = local_files (disk w)
   \/ local_files (disk w') = <[TICKET_NEW_COMMENT E := ""]> (local_files (disk w)))
  /\ (forall name, name <> ".jirafs/remote_files.json" ->
        shadow_files (disk w') !! name = shadow_files (disk w) !! name)
  /\ metadata_files (disk w') = metadata_files (disk w)
  /\ home_files (disk w') = home_files (disk w).

(** The updates of fields sent to the tracker along a trace. *)
Definition updates_sent (t : list Event) : list (gmap string pyval) :=
  omap (fun e => match e with Net (Update values) => Some values | _ => None end) t.

Definition same_updates : relation World := fun w w' =>
  updates_sent (trace w') = updates_sent (trace w).

(** The tracker, the ticket number and the files of the working tree and
    of the shadow tree are as they were. *)
Definition same_folder : relation World := fun w w' =>
  tracker w' = tracker w
  /\ ticket_number (self w') = ticket_number (self w)
  /\ local_files (disk w') = local_files (disk w)
  /\ shadow_files (disk w') = shadow_files (disk w).

(** The token the tracker gives for the upload of the file [name] of the
    working tree; [None] when there is no such file or the upload fails. *)
Definition upload_token (w : World) (name : string) : option string :=
  data ← local_files (disk w) !! name;
  respond (tracker w) (AddAttachment (ticket_number (self w)) name data).

(** The requests that delete the attachments of the issue named [fname]. *)
Definition deletions (i : Issue) (fname : string) : list Event :=
  (fun a => Net (Delete a)) <$> filter (fun a => filename a = fname) (attachment i).

(** The files of the shadow tree that [fetch] writes from the issue
    itself: the remote-file metadata, the details, the comments and the
    files of the file fields. *)
Definition rendered_file (E : Env) (name : string) : Prop :=
  name = ".jirafs/remote_files.json"
  \/ name = TICKET_DETAILS E
  \/ name = TICKET_COMMENTS E
  \/ exists field, name = TICKET_FILE_FIELD_TEMPLATE E field.

(** ** A folder to run the methods on

    Values for what the module imports, and a small folder [PROJ-123].
    The codec stands for [json]: any text it writes it reads back. *)
Module Demo.

Fixpoint glob_match (pattern name : string) : bool :=
  match pattern with
  | EmptyString => Py.is_empty name
  | String c pattern' =>
      if Py.ascii_eqb c "*"%char then
        (fix star (rest : string) : bool :=
           glob_match pattern' rest
           || match rest with
              | EmptyString => false
              | String _ rest' => star rest'
              end) name
      else
        match name with
        | EmptyString => false
        | String d name' =>
            (Py.ascii_eqb c "?"%char || Py.ascii_eqb c d) && glob_match pattern' name'
        end
  end.

Fixpoint bits_of (p : positive) : string :=
  match p with
  | xH => EmptyString
  | xO q => String "0"%char (bits_of q)
  | xI q => String "1"%char (bits_of q)
  end.

Fixpoint of_bits (s : string) : option positive :=
  match s with
  | EmptyString => Some xH
  | String c rest =>
      if Py.ascii_eqb c "0"%char then xO <$> of_bits rest
      else if Py.ascii_eqb c "1"%char then xI <$> of_bits rest
      else None
  end.

Definition dumps_files (data : gmap string string) : string :=
  bits_of (encode (map_to_list data)).

Definition loads_files (text : string) : option (gmap string string) :=
  p ← of_bits text; l ← decode (A := list (string * string)) p; Some (list_to_map l).


Definition spec_pdf : Attachment := {| filename := "spec.pdf"; created := "T1" |}.

Definition debug_log : Attachment := {| filename := "debug.log"; created := "T0" |}.

Definition issue_A : Issue := {|
  raw_fields := {[ "summary" := PStr "A"; "watches" := PObj "<watches>";
                   "description" := PStr "Text"; "assignee" := PNone ]};
  attachment := [spec_pdf; debug_log];
  comments := [{| comment_created := "2014-01-01"; author := "me"; body := "first" |}];
|}.

Definition issue_B : Issue := {|
  raw_fields := {[ "summary" := PStr "B" ]};
  attachment := [];
  comments := [];
|}.

(** An issue with two attachments of one name. *)
Definition issue_C : Issue := {|
  raw_fields := {[ "summary" := PStr "C" ]};
  attachment := [ {| filename := "a.txt"; created := "T1" |};
                  {| filename := "a.txt"; created := "T2" |} ];
  comments := [];
|}.

(** The stored issue is always [issue_A], under one fixed text. *)
Definition dumps_issue (i : Issue) : string := "issue_A".

Definition loads_issue (text : string) : option Issue :=
  if decide (text = "issue_A") then Some issue_A else None.

(** A migration that only records its number. *)
Definition migration (n : Z) : M unit :=
  write_file (Metadata "version") (Py.str_of_int n).

Definition env : Env := {|
  TICKET_DETAILS := "details.jira.rst";
  TICKET_COMMENTS := "comments.read_only.jira.rst";
  TICKET_NEW_COMMENT := "new_comment.jira.txt";
  TICKET_FILE_FIELD_TEMPLATE := fun field => field +:+ ".jira.rst";
  FILE_FIELDS := ["description"];
  NO_DETAIL_FIELDS := ["attachment"; "comment"; "watches"];
  IGNORE_FILE := ".jirafs_ignore";
  REMOTE_IGNORE_FILE := ".jirafs_remote_ignore";
  CURRENT_REPO_VERSION := 3;
  fnmatch := fun name pattern => glob_match pattern name;
  json_dumps_files := dumps_files;
  json_loads_files := loads_files;
  json_dumps_issue := dumps_issue;
  json_loads_issue := loads_issue;
  rst_fields_at_path := fun w =>
    Ok match local_files (disk w) !! "summary" with
       | Some text => {[ "summary" := PStr (Py.strip text) ]}
       | None => ∅
       end;
  rst_fields_at_revision := fun _ _ => Ok {[ "summary" := PStr "A" ]};
  migrations := fun n => if (2 <=? n) && (n <=? 3) then Some (migration n) else None;
|}.

(** The same values, with other migrations registered. *)
Definition env_with (registered : Z -> option (M unit)) : Env := {|
  TICKET_DETAILS := TICKET_DETAILS env;
  TICKET_COMMENTS := TICKET_COMMENTS env;
  TICKET_NEW_COMMENT := TICKET_NEW_COMMENT env;
  TICKET_FILE_FIELD_TEMPLATE := TICKET_FILE_FIELD_TEMPLATE env;
  FILE_FIELDS := FILE_FIELDS env;
  NO_DETAIL_FIELDS := NO_DETAIL_FIELDS env;
  IGNORE_FILE := IGNORE_FILE env;
  REMOTE_IGNORE_FILE := REMOTE_IGNORE_FILE env;
  CURRENT_REPO_VERSION := CURRENT_REPO_VERSION env;
  fnmatch := fnmatch env;
  json_dumps_files := json_dumps_files env;
  json_loads_files := json_loads_files env;
  json_dumps_issue := json_dumps_issue env;
  json_loads_issue := json_loads_issue env;
  rst_fields_at_path := rst_fields_at_path env;
  rst_fields_at_revision := rst_fields_at_revision env;
  migrations := registered;
|}.

(** git runs every command; it lists two files that are not tracked. *)
Definition git_ok (shadow : bool) (cmd : list string) : option string :=
  if decide (cmd = ["ls-files"; "-o"])
  then Some ("notes.txt" +:+ Py.nl +:+ "debug.log" +:+ Py.nl)
  else Some "".

(** The tracker serves [i] and grants every request; a download yields
    the text [data], an upload the token [T2]. *)
Definition tracker_serving (i : Issue) : Tracker := {|
  served := Some i;
  respond := fun r =>
    match r with
    | Download _ => Some "data"
    | AddAttachment _ _ _ => Some "T2"
    | _ => Some ""
    end;
|}.

Definition folder (comment : string) : Disk := {|
  local_files := {[ "new_comment.jira.txt" := comment; "summary" := "B";
                    "notes.txt" := "my notes"; "debug.log" := "0 errors" ]};
  metadata_files := ∅;
  shadow_files := ∅;
  home_files := {[ ".jirafs_ignore" := "*.log";
                   ".jirafs_remote_ignore" := "# remote" +:+ Py.nl +:+ "*.log" +:+ Py.nl ]};
  oplog := [];
|}.

Definition fresh : Instance := {|
  ticket_number := "PROJ-123";
  attr_jira := false;
  attr_issue := None;
  attr_cached_issue := None;
|}.

Definition holding (i : Issue) : Instance := {|
  ticket_number := "PROJ-123";
  attr_jira := true;
  attr_issue := Some i;
  attr_cached_issue := None;
|}.

Definition world (comment : string) : World := {|
  disk := folder comment;
  repo := {| index := ∅; commits := []; jira_ref := []; outcome := git_ok |};
  tracker := tracker_serving issue_A;
  self := fresh;
  trace := [];
  console := [];
|}.

(** What a computation returned, or [fallback] if it raised. *)
Definition returned {A} (fallback : A) (x : result A * World) : A :=
  match fst x with
  | Ok a => a
  | Raise _ => fallback
  end.

Definition status_now : Status :=
  returned {| to_upload := []; local_differs := ∅; new_comment := "" |}
           (status env (world "looks good")).

(** The folder after a first read of [issue], then with the tracker
    serving another issue. *)
Definition after_first_read : World := snd (issue (world "")).

Definition remote_changed : World := facing (tracker_serving issue_B) after_first_read.

(** An instance that holds [issue_A], in a folder without stored issue,
    while the tracker serves [issue_B]. *)
Definition holding_A_serving_B : World := {|
  disk := folder "";
  repo := {| index := ∅; commits := []; jira_ref := []; outcome := git_ok |};
  tracker := tracker_serving issue_B;
  self := holding issue_A;
  trace := [];
  console := [];
|}.

(** The same folder, with the tracker serving [issue_C]. *)
Definition serving_C : World := facing (tracker_serving issue_C) (world "").

(** The same folder, with a tracker that is down and a git that fails. *)
Definition tracker_down : World :=
  facing {| served := None; respond := fun _ => Some "" |} (world "").

Definition git_down : World :=
  with_repo (fun r => {| index := index r; commits := commits r; jira_ref := jira_ref r;
                         outcome := fun _ _ => None |}) (world "").

End Demo.

(** * Proofs *)

Local Open Scope monad_scope.

(** ** The monad *)

Lemma bind_Ok {A B} (m : M A) (k : A -> M B) w a w1 :
  m w = (Ok a, w1) -> bind m k w = k a w1.
Proof. intros H. unfold bind. by rewrite H. Qed.

Lemma bind_Raise {A B} (m : M A) (k : A -> M B) w e w1 :
  m w = (Raise e, w1) -> bind m k w = (Raise e, w1).
Proof. intros H. unfold bind. by rewrite H. Qed.

Lemma bind_Ok_inv {A B} (m : M A) (k : A -> M B) w b w' :
  bind m k w = (Ok b, w') ->
  exists a w1, m w = (Ok a, w1) /\ k a w1 = (Ok b, w').
Proof.
  unfold bind. destruct (m w) as [[a|e] w1]; intros H.
  - by exists a, w1.
  - discriminate.
Qed.

Lemma bind_get {A} (k : World -> M A) w : bind get k w = k w w.
Proof. reflexivity. Qed.

Lemma bind_modify {A} f (k : unit -> M A) w : bind (modify f) k w = k tt (f w).
Proof. reflexivity. Qed.

Lemma bind_ret {A B} (a : A) (k : A -> M B) w : bind (ret a) k w = k a w.
Proof. reflexivity. Qed.

Lemma try_except_Ok {A} (m : M A) e (h : M A) w a w1 :
  m w = (Ok a, w1) -> try_except m e h w = (Ok a, w1).
Proof. intros H. unfold try_except. by rewrite H. Qed.

Lemma try_except_caught {A} (m : M A) e (h : M A) w w1 :
  m w = (Raise e, w1) -> try_except m e h w = h w1.
Proof. intros H. unfold try_except. rewrite H. by rewrite decide_True. Qed.

(** ** Relations every step keeps

    The combinators respect the preorders their parts respect. *)
Section Respects.

Context (R : relation World) `{!PreOrder R}.


Lemma respects_ret {A} (a : A) : respects R (ret a).
Proof. intros w. simpl. reflexivity. Qed.

Lemma respects_raise {A} e : respects R (raise (A := A) e).
Proof. intros w. simpl. reflexivity. Qed.

Lemma respects_get : respects R get.
Proof. intros w. simpl. reflexivity. Qed.

Lemma respects_lift_read {A} (f : World -> result A) : respects R (lift_read f).
Proof. intros w. simpl. reflexivity. Qed.

Lemma respects_modify f : (forall w, R w (f w)) -> respects R (modify f).
Proof. intros H w. apply H. Qed.

Lemma respects_bind {A B} (m : M A) (k : A -> M B) :
  respects R m -> (forall a, respects R (k a)) -> respects R (bind m k).
Proof.
  intros Hm Hk w. unfold bind. specialize (Hm w).
  destruct (m w) as [[a|e] w1]; simpl in *.
  - etrans; [exact Hm | apply Hk].
  - exact Hm.
Qed.

Lemma respects_try_except {A} (m : M A) e (h : M A) :
  respects R m -> respects R h -> respects R (try_except m e h).
Proof.
  intros Hm Hh w. unfold try_except. specialize (Hm w).
  destruct (m w) as [[a|e'] w1]; simpl in *; [exact Hm|].
  case_decide; simpl; [etrans; [exact Hm | apply Hh] | exact Hm].
Qed.

Lemma respects_for_each {A S} (l : list A) (body : S -> A -> M S) s :
  (forall s x, respects R (body s x)) -> respects R (for_each l body s).
Proof.
  intros Hbody. revert s. induction l as [|x l IH]; intros s; simpl.
  - apply respects_ret.
  - apply respects_bind; [apply Hbody | intros s'; apply IH].
Qed.

Lemma respects_when b (m : M unit) : respects R m -> respects R (when b m).
Proof. intros Hm. destruct b; simpl; [exact Hm | apply respects_ret]. Qed.

Lemma respects_bind_at {A B} (m : M A) (k : A -> M B) w :
  respects R m ->
  (forall a w1, m w = (Ok a, w1) -> R w1 (snd (k a w1))) ->
  R w (snd (bind m k w)).
Proof.
  intros Hm Hk. unfold bind. specialize (Hm w).
  destruct (m w) as [[a|e] w1] eqn:Hmw; simpl in *.
  - etrans; [exact Hm | by apply Hk].
  - exact Hm.
Qed.

Lemma respects_Ok {A} (m : M A) w a w' : respects R m -> m w = (Ok a, w') -> R w w'.
Proof. intros Hm H. specialize (Hm w). by rewrite H in Hm. Qed.

Lemma respects_result {A} (m : M A) w r w' : respects R m -> m w = (r, w') -> R w w'.
Proof. intros Hm H. specialize (Hm w). by rewrite H in Hm. Qed.

Lemma git_with_repo shadow cmd w : exists f, snd (git shadow cmd w) = with_repo f w.
Proof.
  assert (Hid : w = with_repo id w) by (by destruct w).
  unfold git. repeat case_match; simpl; eauto.
Qed.

Lemma respects_check_output shadow cmd :
  (forall f w, R w (with_repo f w)) -> respects R (check_output shadow cmd).
Proof.
  intros H w. unfold check_output.
  destruct (git_with_repo shadow cmd w) as [f Hf].
  destruct (git shadow cmd w) as [out w1]. simpl in *. subst w1. apply H.
Qed.

End Respects.

(** The methods, down to the steps that change the world. *)
Ltac unfold_methods :=
  unfold push, status, upload_file, get_locally_changed, get_remotely_changed,
    get_local_differing_fields, get_local_fields, get_original_values, git_merge_base,
    get_new_comment, get_ignore_globs, globs_of, split_output,
    get_remote_file_metadata, set_remote_file_metadata, store_cached_issue,
    run_git_command, log, issue, jira, request, request_issue,
    read_file, write_file, append_file;
  cbv zeta.

(** Breaks a computation down to the places where it changes the world;
    [base] has to show that each change is within the relation. *)
Ltac respects_with base :=
  repeat
    match goal with
    | |- PreOrder _ => apply _
    | |- respects _ (ret _) => apply respects_ret
    | |- respects _ (raise _) => apply respects_raise
    | |- respects _ get => apply respects_get
    | |- respects _ (lift_read _) => apply respects_lift_read
    | |- respects _ (bind _ _) => apply respects_bind; [| |intros ?]
    | |- respects _ (try_except _ _ _) => apply respects_try_except
    | |- respects _ (for_each _ _ _) => apply respects_for_each; [|intros ? ?]
    | |- respects _ (when false _) => apply respects_ret
    | |- respects _ (when _ _) => apply respects_when
    | |- respects _ (check_output _ _) => apply respects_check_output; intros ? ?; base
    | |- respects _ (modify _) => apply respects_modify; intros ?; base
    | |- respects _ (match ?x with _ => _ end) => destruct x
    | |- respects _ (fun w => let (_, _) := _ in _) => intros ?; simpl
    end.

(** ** The [issue] property *)

Lemma issue_memoized w i : attr_issue (self w) = Some i -> issue w = (Ok i, w).
Proof. intros H. unfold issue, bind, get. simpl. by rewrite H. Qed.

Lemma issue_Ok_memoizes w i w' : issue w = (Ok i, w') -> attr_issue (self w') = Some i.
Proof.
  unfold issue, jira, request, request_issue, bind, get, modify, ret, raise. simpl.
  destruct (attr_issue (self w)) as [j|] eqn:Hmemo.
  - intros [= <- <-]. exact Hmemo.
  - destruct (attr_jira (self w)); simpl.
    + destruct (served (tracker w)); simpl; intros [= <- <-]; reflexivity.
    + destruct (respond (tracker w) Connect); simpl; [|discriminate].
      destruct (served (tracker w)); simpl; intros [= <- <-]; reflexivity.
Qed.

Lemma issue_Ok_trace w i w' : issue w = (Ok i, w') -> trace w' = trace w ++ issue_requests w.
Proof.
  unfold issue, issue_requests, jira, request, request_issue, bind, get, modify, ret, raise.
  simpl. destruct (attr_issue (self w)) as [j|].
  - intros [= <- <-]. by rewrite app_nil_r.
  - destruct (attr_jira (self w)); simpl.
    + destruct (served (tracker w)); simpl; intros [= <- <-]; reflexivity.
    + destruct (respond (tracker w) Connect); simpl; [|discriminate].
      destruct (served (tracker w)); simpl; intros [= <- <-]; simpl.
      by rewrite <- app_assoc.
Qed.

(** [issue] neither reads nor writes the disk and the console. *)
Lemma issue_with_disk f w :
  issue (with_disk f w) = (fst (issue w), with_disk f (snd (issue w))).
Proof.
  unfold issue, jira, request, request_issue, bind, get, modify, ret, raise. simpl.
  destruct (attr_issue (self w)); simpl; [reflexivity|].
  destruct (attr_jira (self w)); simpl.
  - destruct (served (tracker w)); reflexivity.
  - destruct (respond (tracker w) Connect); simpl; [|reflexivity].
    destruct (served (tracker w)); reflexivity.
Qed.

(** C1, as the code has it.  The first read of [issue] on an instance asks
    the tracker and keeps the answer; from then on every read returns the
    issue kept, with no request and no other change to the world, whatever
    the tracker serves by then. *)
Theorem issue_fetched_once_then_memoized (w w1 : World) (i : Issue) :
  attr_issue (self w) = None ->
  issue w = (Ok i, w1) ->
  In (Net (GetIssue (ticket_number (self w)))) (issue_requests w)
  /\ trace w1 = trace w ++ issue_requests w
  /\ forall t : Tracker, issue (facing t w1) = (Ok i, facing t w1).
Proof.
  intros Hnone Hread. split; [|split].
  - unfold issue_requests. rewrite Hnone. apply in_or_app. right. by left.
  - exact (issue_Ok_trace _ _ _ Hread).
  - intros t. apply (issue_memoized (facing t w1) i). simpl. exact (issue_Ok_memoizes _ _ _ Hread).
Qed.

Lemma issue_fetched_once_then_memoized_witness :
  attr_issue (self (Demo.world "")) = None
  /\ issue (Demo.world "") = (Ok Demo.issue_A, Demo.after_first_read)
  /\ issue Demo.remote_changed = (Ok Demo.issue_A, Demo.remote_changed).
Proof.
  split; [reflexivity|]. split; [reflexivity|].
  apply (issue_fetched_once_then_memoized (Demo.world "") Demo.after_first_read Demo.issue_A);
    reflexivity.
Defined.

(** C1 as the spec states it fails: after a first read, with the tracker
    now serving another issue, a second read still returns the first issue
    and sends nothing. *)
Lemma issue_second_read_is_stale :
  served (tracker Demo.remote_changed) = Some Demo.issue_B
  /\ fst (issue Demo.remote_changed) = Ok Demo.issue_A
  /\ trace (snd (issue Demo.remote_changed)) = trace Demo.remote_changed
  /\ Demo.issue_A <> Demo.issue_B.
Proof.
  split; [reflexivity|]. split; [reflexivity|]. split; [reflexivity|].
  intros H. apply (f_equal attachment) in H. discriminate.
Qed.

(** ** What stays as it is *)


#[local] Instance same_disk_preorder : PreOrder same_disk.
Proof. split; [done | intros x y z Hxy Hyz; unfold same_disk in *; congruence]. Qed.

Lemma issue_same_disk : respects same_disk issue.
Proof.
  unfold issue, jira, request, request_issue.
  respects_with ltac:(reflexivity).
Qed.

Lemma log_Ok_unfold message args level w :
  Format.format_error message
    (match args with None => Format.NoArgs | Some values => Format.Tuple values end) = None ->
  log message args level w =
    let entry := {| level := level; message := message;
                    args := match args with
                            | None => Format.NoArgs
                            | Some values => Format.Tuple values
                            end |} in
    let w1 := with_disk (append_oplog entry) w in
    if level_number INFO <=? level_number level
    then bind issue (fun _ => modify (show entry)) w1
    else (Ok tt, w1).
Proof.
  intros Hfmt. unfold log. rewrite Hfmt. cbv zeta.
  destruct (level_number INFO <=? level_number level); reflexivity.
Qed.

(** ** The [cached_issue] property *)

(** C4, as the code has it.  When the stored issue cannot be read
    ([IOError]: there is no such file), [cached_issue] writes an error to
    the operation log and falls back on the [issue] property: it returns
    what [issue] returns and keeps it.  The tracker is asked only if the
    instance does not hold the issue yet. *)
Theorem cached_issue_falls_back_on_issue (E : Env) (w w1 : World) (i : Issue) :
  attr_cached_issue (self w) = None ->
  read_path (Metadata "issue.json") (disk w) = None ->
  issue w = (Ok i, w1) ->
  exists w',
    cached_issue E w = (Ok i, w')
    /\ oplog (disk w') = oplog (disk w) ++ [cached_issue_error]
    /\ attr_cached_issue (self w') = Some i
    /\ trace w' = trace w ++ issue_requests w.
Proof.
  intros Hnone Hread Hissue.
  pose proof (issue_Ok_memoizes _ _ _ Hissue) as Hmemo.
  pose proof (issue_Ok_trace _ _ _ Hissue) as Htrace.
  pose proof (respects_Ok same_disk _ _ _ _ issue_same_disk Hissue) as Hdisk.
  set (logged := show cached_issue_error (with_disk (append_oplog cached_issue_error) w1)).
  exists (with_self (set_cached_issue (Some i)) logged).
  split; [|split; [|split]].
  - unfold cached_issue. unfold bind at 1. simpl. rewrite Hnone.
    rewrite (try_except_caught _ _ _ w w).
    2:{ unfold read_file, bind, get. simpl. by rewrite Hread. }
    assert (Hlog : log "Error encountered while loading cached issue!" None ERROR w
                   = (Ok tt, logged)).
    { rewrite log_Ok_unfold by reflexivity. simpl.
      unfold bind. rewrite issue_with_disk, Hissue. reflexivity. }
    rewrite (bind_Ok _ _ _ _ _ Hlog).
    rewrite (bind_Ok _ _ _ i logged) by (apply issue_memoized; exact Hmemo).
    reflexivity.
  - simpl. unfold same_disk in Hdisk. by rewrite Hdisk.
  - reflexivity.
  - exact Htrace.
Qed.

Lemma cached_issue_falls_back_on_issue_witness :
  exists w',
    cached_issue Demo.env (Demo.world "") = (Ok Demo.issue_A, w')
    /\ oplog (disk w') = oplog (disk (Demo.world "")) ++ [cached_issue_error]
    /\ attr_cached_issue (self w') = Some Demo.issue_A
    /\ trace w' = trace (Demo.world "") ++ issue_requests (Demo.world "").
Proof.
  apply (cached_issue_falls_back_on_issue Demo.env (Demo.world "") Demo.after_first_read);
    reflexivity.
Defined.

(** C4 as the spec states it fails where the instance already holds the
    issue: the stored issue cannot be read, the tracker serves [issue_B],
    and [cached_issue] returns the [issue_A] the instance holds, without a
    request. *)
Lemma cached_issue_fallback_without_fetch :
  read_path (Metadata "issue.json") (disk Demo.holding_A_serving_B) = None
  /\ served (tracker Demo.holding_A_serving_B) = Some Demo.issue_B
  /\ fst (cached_issue Demo.env Demo.holding_A_serving_B) = Ok Demo.issue_A
  /\ trace (snd (cached_issue Demo.env Demo.holding_A_serving_B)) = []
  /\ Demo.issue_A <> Demo.issue_B.
Proof.
  split; [reflexivity|]. split; [reflexivity|]. split; [reflexivity|].
  split; [reflexivity|].
  intros H. apply (f_equal attachment) in H. discriminate.
Qed.

(** A stored issue that is read but does not load is not a read failure:
    the exception goes to the caller. *)
Lemma cached_issue_unloadable_raises (E : Env) (w : World) (text : string) :
  attr_cached_issue (self w) = None ->
  read_path (Metadata "issue.json") (disk w) = Some text ->
  json_loads_issue E text = None ->
  cached_issue E w = (Raise ValueError, w).
Proof.
  intros Hnone Hread Hload.
  unfold cached_issue, try_except, read_file, bind, get, raise, ret. simpl.
  rewrite Hnone, Hread. simpl. rewrite Hload. reflexivity.
Qed.

(** ** Taking a computation that returned apart *)

Tactic Notation "inv_bind" hyp(H) "as" ident(a) ident(w) ident(Hm) :=
  apply bind_Ok_inv in H as (a & w & Hm & H).

Lemma lift_read_Ok_inv {A} (f : World -> result A) w a w' :
  lift_read f w = (Ok a, w') -> f w = Ok a /\ w' = w.
Proof. unfold lift_read. intros [= H1 H2]. by split. Qed.

Lemma ret_Ok_inv {A} (a b : A) w w' : ret a w = (Ok b, w') -> b = a /\ w' = w.
Proof. unfold ret. intros [= H1 H2]. by split. Qed.

(** ** The field diff *)

Lemma differing_lookup (local_fields original_values : gmap string pyval) k :
  differing local_fields original_values !! k =
    match original_values !! k with
    | Some v =>
        if decide (dict_get local_fields k <> v)
        then Some (v, dict_get local_fields k)
        else None
    | None => None
    end.
Proof.
  unfold differing. rewrite map_lookup_imap.
  destruct (original_values !! k); reflexivity.
Qed.

Lemma get_local_differing_fields_Ok_inv E w d w' :
  get_local_differing_fields E w = (Ok d, w') ->
  exists local_fields original_values w1 revision,
    rst_fields_at_path E w = Ok local_fields
    /\ rst_fields_at_revision E revision w1 = Ok original_values
    /\ d = differing local_fields original_values.
Proof.
  unfold get_local_differing_fields, get_local_fields, get_original_values.
  intros H. inv_bind H as local_fields w1 Hlocal.
  inv_bind H as original_values w2 Horiginal.
  inv_bind Horiginal as revision w3 Hbase.
  apply lift_read_Ok_inv in Hlocal as [Hlocal ->].
  apply lift_read_Ok_inv in Horiginal as [Horiginal ->].
  apply ret_Ok_inv in H as [-> ->].
  by exists local_fields, original_values, w3, revision.
Qed.

(** C5.  [status()['local_differs']] is the diff of the fields read from
    the working tree against those read at the merge base: a field of the
    original snapshot with value [A] whose local value is [B], other than
    [A], is mapped to [(A, B)]; one whose local value is [A] is absent; and
    so is every field the original snapshot does not have. *)
Theorem local_differs_is_the_field_diff (E : Env) (w w' : World) (s : Status) :
  status E w = (Ok s, w') ->
  exists (local_fields original_values : gmap string pyval) w1 w2 revision,
    rst_fields_at_path E w1 = Ok local_fields
    /\ rst_fields_at_revision E revision w2 = Ok original_values
    /\ forall k : string,
        (forall A B, original_values !! k = Some A -> dict_get local_fields k = B ->
                     A <> B -> local_differs s !! k = Some (A, B))
        /\ (forall A, original_values !! k = Some A -> dict_get local_fields k = A ->
                      local_differs s !! k = None)
        /\ (original_values !! k = None -> local_differs s !! k = None).
Proof.
  unfold status. intros H. inv_bind H as locally_changed w1 Hchanged.
  inv_bind H as differs w2 Hdiffers. inv_bind H as comment w3 Hcomment.
  apply ret_Ok_inv in H as [-> ->]. simpl.
  apply get_local_differing_fields_Ok_inv in Hdiffers
    as (local_fields & original_values & w4 & revision & Hlocal & Horiginal & ->).
  exists local_fields, original_values, w1, w4, revision.
  split; [exact Hlocal|]. split; [exact Horiginal|].
  intros k. rewrite differing_lookup. split; [|split].
  - intros A B -> <- Hne. rewrite decide_True; [reflexivity | congruence].
  - intros A -> ->. by rewrite decide_False by (intros Hne; by apply Hne).
  - by intros ->.
Qed.

Lemma local_differs_is_the_field_diff_witness :
  exists (local_fields original_values : gmap string pyval) w1 w2 revision,
    rst_fields_at_path Demo.env w1 = Ok local_fields
    /\ rst_fields_at_revision Demo.env revision w2 = Ok original_values
    /\ forall k : string,
        (forall A B, original_values !! k = Some A -> dict_get local_fields k = B ->
                     A <> B -> local_differs Demo.status_now !! k = Some (A, B))
        /\ (forall A, original_values !! k = Some A -> dict_get local_fields k = A ->
                      local_differs Demo.status_now !! k = None)
        /\ (original_values !! k = None -> local_differs Demo.status_now !! k = None).
Proof.
  apply (local_differs_is_the_field_diff Demo.env (Demo.world "looks good")
           (snd (status Demo.env (Demo.world "looks good"))) Demo.status_now).
  vm_compute. reflexivity.
Defined.

(** ** Ignore globs *)

Lemma globs_of_spec p w : globs_of p w = (Ok (file_globs p w), w).
Proof.
  unfold globs_of, file_globs, try_except, read_file, bind, get, ret, raise. simpl.
  destruct (read_path p (disk w)); reflexivity.
Qed.

Lemma get_ignore_globs_spec E which w :
  get_ignore_globs E which w =
    (Ok ((builtin_globs E ++ file_globs (Local which) w) ++ file_globs (Home which) w), w).
Proof.
  unfold get_ignore_globs.
  rewrite (bind_Ok _ _ _ _ _ (globs_of_spec (Local which) w)).
  rewrite (bind_Ok _ _ _ _ _ (globs_of_spec (Home which) w)).
  reflexivity.
Qed.

Lemma ignored_by_elem_of E which w glob :
  ignored_by E which w glob ->
  glob ∈ (builtin_globs E ++ file_globs (Local which) w) ++ file_globs (Home which) w.
Proof. unfold ignored_by. rewrite !elem_of_app. tauto. Qed.

Lemma file_matches_globs_true E fname ignore_globs glob :
  glob ∈ ignore_globs -> fnmatch E fname glob = true ->
  file_matches_globs E fname ignore_globs = true.
Proof.
  intros Hin Hmatch. unfold file_matches_globs. apply existsb_exists.
  exists glob. split; [by apply list_elem_of_In | exact Hmatch].
Qed.

Lemma get_locally_changed_not_ignored E w l w' fname glob :
  get_locally_changed E w = (Ok l, w') ->
  ignored_by E (IGNORE_FILE E) w glob -> fnmatch E fname glob = true ->
  fname ∉ l.
Proof.
  unfold get_locally_changed. intros H Hglob Hmatch.
  rewrite (bind_Ok _ _ _ _ _ (get_ignore_globs_spec E (IGNORE_FILE E) w)) in H.
  inv_bind H as out1 w1 Hls1. inv_bind H as new_files w2 Hsplit1.
  inv_bind H as out2 w3 Hls2. inv_bind H as modified_files w4 Hsplit2.
  rewrite bind_get in H. apply ret_Ok_inv in H as [-> ->].
  rewrite list_elem_of_filter. intros [Hkept _].
  rewrite (file_matches_globs_true E fname _ glob) in Hkept;
    [discriminate | by apply ignored_by_elem_of | exact Hmatch].
Qed.

Lemma get_remotely_changed_not_ignored E w l w' fname glob :
  get_remotely_changed E w = (Ok l, w') ->
  ignored_by E (REMOTE_IGNORE_FILE E) w glob -> fnmatch E fname glob = true ->
  fname ∉ l.
Proof.
  unfold get_remotely_changed. intros H Hglob Hmatch.
  rewrite (bind_Ok _ _ _ _ _ (get_ignore_globs_spec E (REMOTE_IGNORE_FILE E) w)) in H.
  inv_bind H as metadata w1 Hmeta. inv_bind H as i w2 Hissue.
  apply ret_Ok_inv in H as [-> ->].
  rewrite list_elem_of_fmap. intros (a & -> & Hin).
  apply list_elem_of_filter in Hin as [Hkept _].
  rewrite (file_matches_globs_true E (filename a) _ glob) in Hkept;
    [simpl in Hkept; discriminate | by apply ignored_by_elem_of | exact Hmatch].
Qed.

(** C6.  A file name matching a glob from any of the three sources (the
    built-in globs, the ignore file in the folder, the ignore file in the
    user's home) is in neither list: not in [status()['to_upload']], for
    the ignore files named [IGNORE_FILE], and not among the attachments
    [get_remotely_changed] returns to [fetch], for the ignore files named
    [REMOTE_IGNORE_FILE]. *)
Theorem ignored_names_are_left_out (E : Env) (w : World) (fname glob : string) :
  fnmatch E fname glob = true ->
  (ignored_by E (IGNORE_FILE E) w glob ->
   forall s w', status E w = (Ok s, w') -> fname ∉ to_upload s)
  /\ (ignored_by E (REMOTE_IGNORE_FILE E) w glob ->
      forall l w', get_remotely_changed E w = (Ok l, w') -> fname ∉ l).
Proof.
  intros Hmatch. split.
  - intros Hglob s w' H. unfold status in H.
    inv_bind H as locally_changed w1 Hchanged.
    inv_bind H as differs w2 Hdiffers. inv_bind H as comment w3 Hcomment.
    apply ret_Ok_inv in H as [-> ->]. simpl.
    by eapply get_locally_changed_not_ignored.
  - intros Hglob l w' H. by eapply get_remotely_changed_not_ignored.
Qed.

Lemma ignored_names_are_left_out_witness :
  ("debug.log" ∉ to_upload Demo.status_now)
  /\ ("debug.log" ∉ Demo.returned [] (get_remotely_changed Demo.env (Demo.world "looks good"))).
Proof.
  destruct (ignored_names_are_left_out Demo.env (Demo.world "looks good") "debug.log" "*.log")
    as [Hlocal Hremote]; [reflexivity|].
  split.
  - apply (Hlocal ltac:(right; right; vm_compute; by left) Demo.status_now
             (snd (status Demo.env (Demo.world "looks good")))).
    vm_compute. reflexivity.
  - apply (Hremote ltac:(right; right; vm_compute; by left) _
             (snd (get_remotely_changed Demo.env (Demo.world "looks good")))).
    vm_compute. reflexivity.
Defined.

(** ** Fields that stay out of the details file *)

Lemma render_field_no_detail E field value :
  field ∈ NO_DETAIL_FIELDS E ->
  render_field E field value = LeftOut
  \/ exists text, field ∈ FILE_FIELDS E /\ render_field E field value = OwnFile text.
Proof.
  intros Hin. unfold render_field.
  destruct value as [|s|text]; simpl.
  - case_bool_decide; [right; eauto|]. rewrite bool_decide_eq_true_2 by done. by left.
  - case_bool_decide; [right; eauto|]. rewrite bool_decide_eq_true_2 by done. by left.
  - rewrite bool_decide_eq_true_2 by done. by left.
Qed.


#[local] Instance shadow_but_preorder kept : PreOrder (shadow_but kept).
Proof.
  split.
  - by intros w name _.
  - intros x y z Hxy Hyz name Hne. by rewrite Hyz, Hxy.
Qed.

Ltac shadow_but_base :=
  intros ? ?; simpl; rewrite ?lookup_insert_ne by congruence; reflexivity.

Lemma write_field_no_detail E field :
  field ∈ NO_DETAIL_FIELDS E ->
  respects (shadow_but (TICKET_FILE_FIELD_TEMPLATE E field)) (write_field E field).
Proof.
  intros Hin. unfold write_field.
  apply respects_bind; [apply _ | |].
  - unfold issue, jira, request, request_issue. respects_with shadow_but_base.
  - intros i. destruct (raw_fields i !! field) as [value|]; [|apply respects_raise; apply _].
    destruct (render_field_no_detail E field value Hin) as [-> | (text & _ & ->)].
    + apply respects_ret. apply _.
    + unfold write_file, append_file. respects_with shadow_but_base.
Qed.

(** C8.  For a field among [NO_DETAIL_FIELDS], whatever its value (a
    string, [None], anything else), the loop of [fetch] over the fields
    never takes the branch that writes a block to the details file: the
    field is left out, or (being a file field too) written to its own
    file, and no other file of the shadow tree changes. *)
Theorem no_detail_field_writes_no_block (E : Env) (field : string) :
  field ∈ NO_DETAIL_FIELDS E ->
  (forall value text, render_field E field value <> Details text)
  /\ (forall w r w', write_field E field w = (r, w') ->
        forall name, name <> TICKET_FILE_FIELD_TEMPLATE E field ->
          shadow_files (disk w') !! name = shadow_files (disk w) !! name).
Proof.
  intros Hin. split.
  - intros value text.
    destruct (render_field_no_detail E field value Hin) as [-> | (text' & _ & ->)];
      discriminate.
  - intros w r w' H.
    exact (respects_result _ _ _ _ _ (write_field_no_detail E field Hin) H).
Qed.

Lemma no_detail_field_writes_no_block_witness :
  (forall value text, render_field Demo.env "watches" value <> Details text)
  /\ (forall w r w', write_field Demo.env "watches" w = (r, w') ->
        forall name, name <> "watches.jira.rst" ->
          shadow_files (disk w') !! name = shadow_files (disk w) !! name).
Proof.
  apply (no_detail_field_writes_no_block Demo.env "watches").
  vm_compute. do 2 right. left.
Defined.

(** ** Migrations *)

Lemma version_pure w : version w = (stored_version w, w).
Proof.
  unfold stored_version, version, try_except, read_file, bind, get, ret, raise. simpl.
  destruct (read_path (Metadata "version") (disk w)) as [text|]; simpl; [|reflexivity].
  destruct (Py.parse_int (Py.strip text)); reflexivity.
Qed.

Lemma stored_version_metadata w w' :
  metadata_files (disk w') = metadata_files (disk w) ->
  stored_version w' = stored_version w.
Proof.
  intros H.
  unfold stored_version, version, try_except, read_file, bind, get, read_path, ret, raise.
  simpl. rewrite H.
  destruct (metadata_files (disk w) !! "version") as [text|]; simpl; [|reflexivity].
  destruct (Py.parse_int (Py.strip text)); reflexivity.
Qed.

Lemma migrations_called_app t1 t2 :
  migrations_called (t1 ++ t2) = migrations_called t1 ++ migrations_called t2.
Proof. apply omap_app. Qed.

Lemma migrations_called_issue_requests w : migrations_called (issue_requests w) = [].
Proof.
  unfold issue_requests. destruct (attr_issue (self w)); [reflexivity|].
  destruct (attr_jira (self w)); reflexivity.
Qed.

(** What a line logged at [level] leaves, when the line can be shown. *)
Lemma log_can_log message args level w :
  Format.format_error message
    (match args with None => Format.NoArgs | Some values => Format.Tuple values end) = None ->
  can_log level w ->
  exists w',
    log message args level w = (Ok tt, w')
    /\ metadata_files (disk w') = metadata_files (disk w)
    /\ migrations_called (trace w') = migrations_called (trace w)
    /\ (level_number INFO <= level_number level -> is_Some (attr_issue (self w'))).
Proof.
  intros Hfmt Hcan. rewrite log_Ok_unfold by exact Hfmt. cbv zeta.
  destruct (Z.leb_spec (level_number INFO) (level_number level)) as [Hle|Hlt].
  - destruct (Hcan Hle) as (i & w1 & Hissue).
    eexists. split.
    + unfold bind. rewrite issue_with_disk, Hissue. reflexivity.
    + simpl. split; [|split].
      * by rewrite (respects_Ok same_disk _ _ _ _ issue_same_disk Hissue).
      * rewrite (issue_Ok_trace _ _ _ Hissue), migrations_called_app.
        by rewrite migrations_called_issue_requests, app_nil_r.
      * intros _. rewrite (issue_Ok_memoizes _ _ _ Hissue). by eexists.
  - eexists. split; [reflexivity|]. simpl. split; [reflexivity|]. split; [reflexivity|].
    intros Hle. simpl in Hlt, Hle. lia.
Qed.

Lemma can_log_memoized level w : is_Some (attr_issue (self w)) -> can_log level w.
Proof. intros [i Hi] _. exists i, w. by apply issue_memoized. Qed.

Lemma can_log_kept level w w' :
  can_log level w ->
  (level_number INFO <= level_number level -> is_Some (attr_issue (self w'))) ->
  can_log level w'.
Proof. intros _ Hmemo Hle. exact (can_log_memoized level w' (Hmemo Hle) Hle). Qed.

(** One pass of the loop, from a folder at version [v] below the current
    one. *)
Lemma run_migrations_pass E loglevel w v :
  stored_version w = Ok v ->
  persists_its_version E (v + 1) ->
  can_log loglevel w ->
  exists w2,
    bind version (fun v' =>
      bind (get_migrator E (v' + 1)) (fun migrator =>
        migrate (v' + 1) migrator loglevel)) w = (Ok tt, w2)
    /\ stored_version w2 = Ok (v + 1)
    /\ migrations_called (trace w2) = migrations_called (trace w) ++ [v + 1]
    /\ can_log loglevel w2.
Proof.
  intros Hv (migrator & Hreg & Hrun) Hcan.
  destruct (log_can_log "%s: Migration started" (Some [PStr (migration_name (v + 1))])
              loglevel w eq_refl Hcan) as (wa & Hstart & _ & Hcalled_a & Hmemo_a).
  destruct (Hrun (emit (Migrate (v + 1)) wa)) as (wb & Hmig & Hvb & Hself & Hcalled_b).
  assert (Hcan_b : can_log loglevel wb).
  { apply (can_log_kept loglevel w); [exact Hcan|]. intros Hle. apply Hself.
    simpl. by apply Hmemo_a. }
  destruct (log_can_log "%s: Migration finished" (Some [PStr (migration_name (v + 1))])
              loglevel wb eq_refl Hcan_b) as (wc & Hfinish & Hmeta_c & Hcalled_c & Hmemo_c).
  exists wc. split; [|split; [|split]].
  - rewrite (bind_Ok _ _ _ v w) by (rewrite version_pure; by rewrite Hv).
    unfold get_migrator. rewrite Hreg, bind_ret. unfold migrate.
    rewrite (bind_Ok _ _ _ _ _ Hstart), bind_modify, (bind_Ok _ _ _ _ _ Hmig).
    exact Hfinish.
  - by rewrite (stored_version_metadata _ _ Hmeta_c).
  - rewrite Hcalled_c, Hcalled_b. simpl trace.
    rewrite migrations_called_app. by rewrite Hcalled_a.
  - by apply (can_log_kept loglevel wb).
Qed.

Lemma run_migrations_loop_done E fuel loglevel w v :
  stored_version w = Ok v -> CURRENT_REPO_VERSION E <= v ->
  run_migrations_loop E (S fuel) loglevel w = Some (Ok tt, w).
Proof.
  intros Hv Hle. simpl. rewrite version_pure, Hv.
  destruct (Z.ltb_spec v (CURRENT_REPO_VERSION E)); [lia | reflexivity].
Qed.

Lemma run_migrations_loop_reaches E loglevel (k : nat) :
  forall w v,
    stored_version w = Ok v ->
    v <= CURRENT_REPO_VERSION E ->
    Z.to_nat (CURRENT_REPO_VERSION E - v) = k ->
    (forall n, v < n <= CURRENT_REPO_VERSION E -> persists_its_version E n) ->
    can_log loglevel w ->
    exists w',
      (forall fuel, (k < fuel)%nat ->
                    run_migrations_loop E fuel loglevel w = Some (Ok tt, w'))
      /\ stored_version w' = Ok (CURRENT_REPO_VERSION E)
      /\ migrations_called (trace w')
         = migrations_called (trace w) ++ seqZ (v + 1) (CURRENT_REPO_VERSION E - v).
Proof.
  induction k as [|k IH]; intros w v Hv Hle Hk Hall Hcan.
  - assert (v = CURRENT_REPO_VERSION E) as -> by lia.
    exists w. split; [|split].
    + intros [|fuel] Hfuel; [lia|]. by eapply run_migrations_loop_done.
    + exact Hv.
    + rewrite seqZ_nil by lia. by rewrite app_nil_r.
  - assert (Hlt : v < CURRENT_REPO_VERSION E) by lia.
    destruct (run_migrations_pass E loglevel w v Hv (Hall (v + 1) ltac:(lia)) Hcan)
      as (w2 & Hpass & Hv2 & Hcalled2 & Hcan2).
    destruct (IH w2 (v + 1) Hv2 ltac:(lia) ltac:(lia)
                 (fun n Hn => Hall n ltac:(lia)) Hcan2)
      as (w' & Hloop & Hv' & Hcalled').
    exists w'. split; [|split].
    + intros [|fuel] Hfuel; [lia|]. simpl. rewrite version_pure, Hv.
      destruct (Z.ltb_spec v (CURRENT_REPO_VERSION E)); [|lia].
      rewrite Hpass. apply Hloop. lia.
    + exact Hv'.
    + rewrite Hcalled', Hcalled2, <- app_assoc. f_equal. simpl.
      rewrite (seqZ_cons (v + 1) (CURRENT_REPO_VERSION E - v)) by lia.
      do 2 f_equal; lia.
Qed.

(** C9.  From a folder at a stored version [v] below
    [CURRENT_REPO_VERSION], with every migration from [v + 1] to
    [CURRENT_REPO_VERSION] persisting its own version, [run_migrations]
    leaves its loop after finitely many passes (whatever more [fuel] it is
    given, the outcome is the same), has called exactly the migrations
    [v + 1], ..., [CURRENT_REPO_VERSION] in that order, and leaves
    [CURRENT_REPO_VERSION] stored; run again, it returns at once and
    changes nothing. *)
Theorem run_migrations_reaches_current (E : Env) (silent : bool) (w : World) (v : Z) :
  stored_version w = Ok v ->
  v < CURRENT_REPO_VERSION E ->
  (forall n, v < n <= CURRENT_REPO_VERSION E -> persists_its_version E n) ->
  can_log (if silent then DEBUG else INFO) w ->
  exists w',
    (forall fuel, (Z.to_nat (CURRENT_REPO_VERSION E - v) < fuel)%nat ->
                  run_migrations E fuel silent w = Some (Ok tt, w'))
    /\ stored_version w' = Ok (CURRENT_REPO_VERSION E)
    /\ migrations_called (trace w')
       = migrations_called (trace w) ++ seqZ (v + 1) (CURRENT_REPO_VERSION E - v)
    /\ (forall fuel, run_migrations E (S fuel) silent w' = Some (Ok tt, w')).
Proof.
  intros Hv Hlt Hall Hcan.
  destruct (run_migrations_loop_reaches E (if silent then DEBUG else INFO)
              (Z.to_nat (CURRENT_REPO_VERSION E - v)) w v Hv ltac:(lia) eq_refl Hall Hcan)
    as (w' & Hloop & Hv' & Hcalled).
  exists w'. split; [|split; [|split]].
  - intros fuel Hfuel. unfold run_migrations. by apply Hloop.
  - exact Hv'.
  - exact Hcalled.
  - intros fuel. unfold run_migrations. eapply run_migrations_loop_done; [exact Hv'|lia].
Qed.

Lemma demo_migration_persists n :
  1 < n <= 3 -> persists_its_version Demo.env n.
Proof.
  intros Hn. assert (n = 2 \/ n = 3) as [-> | ->] by lia.
  - exists (Demo.migration 2). split; [reflexivity|]. intros w. eexists.
    split; [reflexivity|]. split; [|split].
    + unfold stored_version, version, try_except, read_file, bind, get, read_path. simpl.
      rewrite lookup_insert_eq. reflexivity.
    + intros Hheld. exact Hheld.
    + simpl. rewrite migrations_called_app. apply app_nil_r.
  - exists (Demo.migration 3). split; [reflexivity|]. intros w. eexists.
    split; [reflexivity|]. split; [|split].
    + unfold stored_version, version, try_except, read_file, bind, get, read_path. simpl.
      rewrite lookup_insert_eq. reflexivity.
    + intros Hheld. exact Hheld.
    + simpl. rewrite migrations_called_app. apply app_nil_r.
Qed.

Lemma run_migrations_reaches_current_witness :
  exists w',
    (forall fuel, (Z.to_nat (3 - 1) < fuel)%nat ->
                  run_migrations Demo.env fuel false (Demo.world "") = Some (Ok tt, w'))
    /\ stored_version w' = Ok 3
    /\ migrations_called (trace w')
       = migrations_called (trace (Demo.world "")) ++ seqZ (1 + 1) (3 - 1)
    /\ (forall fuel, run_migrations Demo.env (S fuel) false w' = Some (Ok tt, w')).
Proof.
  apply (run_migrations_reaches_current Demo.env false (Demo.world "") 1).
  - reflexivity.
  - simpl. lia.
  - exact demo_migration_persists.
  - intros _. eexists _, _. reflexivity.
Defined.


(** ** push *)


#[local] Instance same_local_preorder : PreOrder same_local.
Proof. split; [done | intros x y z Hxy Hyz; unfold same_local in *; congruence]. Qed.

Lemma get_new_comment_clear E w text :
  read_path (Local (TICKET_NEW_COMMENT E)) (disk w) = Some text ->
  get_new_comment E true w =
    (Ok (Py.strip text),
     emit (Wrote (Local (TICKET_NEW_COMMENT E)))
          (with_disk (store_path (Local (TICKET_NEW_COMMENT E)) "") w)).
Proof.
  intros Hread. unfold get_new_comment, try_except, read_file, bind, get. simpl.
  by rewrite Hread.
Qed.

Lemma get_new_comment_absent E clear w :
  read_path (Local (TICKET_NEW_COMMENT E)) (disk w) = None ->
  get_new_comment E clear w = (Ok "", w).
Proof.
  intros Hread. unfold get_new_comment, try_except, read_file, bind, get. simpl.
  by rewrite Hread.
Qed.

Lemma status_same_local E : respects same_local (status E).
Proof. unfold_methods. respects_with ltac:(reflexivity). Qed.

Lemma get_remote_file_metadata_same_local E : respects same_local (get_remote_file_metadata E).
Proof. unfold_methods. respects_with ltac:(reflexivity). Qed.

Lemma upload_file_same_local file_meta fname :
  respects same_local (upload_file file_meta fname).
Proof. unfold_methods. respects_with ltac:(reflexivity). Qed.

(** C10.  Whatever the buffer file holds, when [push] returns it holds
    nothing: [get_new_comment(clear=True)] empties the file before [push]
    looks at the comment, so a buffer of white space only is emptied too,
    though no comment is sent for it. *)
Theorem push_empties_comment_buffer (E : Env) (w w' : World) (text : string) :
  read_path (Local (TICKET_NEW_COMMENT E)) (disk w) = Some text ->
  push E w = (Ok tt, w') ->
  read_path (Local (TICKET_NEW_COMMENT E)) (disk w') = Some "".
Proof.
  intros Hread H. unfold push in H.
  inv_bind H as st w1 Hstatus. inv_bind H as file_meta0 w2 Hmeta.
  inv_bind H as file_meta w3 Hupload. inv_bind H as comment w4 Hcomment.
  apply (respects_Ok same_local _ _ _ _ (status_same_local E)) in Hstatus.
  apply (respects_Ok same_local _ _ _ _ (get_remote_file_metadata_same_local E)) in Hmeta.
  apply (respects_Ok same_local) in Hupload;
    [|apply respects_for_each; [apply _ | intros; apply upload_file_same_local]].
  assert (Hread3 : read_path (Local (TICKET_NEW_COMMENT E)) (disk w3) = Some text).
  { unfold read_path, same_local in *. simpl in *. congruence. }
  rewrite (get_new_comment_clear E w3 text Hread3) in Hcomment.
  injection Hcomment as <- <-.
  apply (respects_Ok same_local) in H.
  - unfold read_path, same_local in *. simpl in *. rewrite H. apply lookup_insert_eq.
  - unfold_methods. respects_with ltac:(reflexivity).
Qed.

Lemma push_empties_comment_buffer_witness :
  read_path (Local (TICKET_NEW_COMMENT Demo.env))
            (disk (snd (push Demo.env (Demo.world "   ")))) = Some "".
Proof.
  apply (push_empties_comment_buffer Demo.env (Demo.world "   ")
           (snd (push Demo.env (Demo.world "   "))) "   ").
  - reflexivity.
  - vm_compute. reflexivity.
Defined.


#[local] Instance trace_grows_preorder : PreOrder trace_grows.
Proof.
  split.
  - intros w. unfold trace_grows. reflexivity.
  - intros x y z Hxy Hyz. unfold trace_grows in *. by etrans.
Qed.

Ltac trace_grows_base :=
  unfold trace_grows; simpl; first [reflexivity | by apply prefix_app_r].

Lemma git_trace shadow cmd w : trace (snd (git shadow cmd w)) = trace w.
Proof. destruct (git_with_repo shadow cmd w) as [f ->]. reflexivity. Qed.

Lemma run_git_command_Ok_trace args failure_ok shadow w r w' :
  run_git_command args failure_ok shadow w = (Ok r, w') ->
  trace w' = trace w ++ [Git shadow args].
Proof.
  unfold run_git_command.
  rewrite (bind_Ok _ _ _ tt _
             (log_Ok_unfold "Executing git command %s"
                (Some [PObj (String.concat " " ("git" :: args))]) DEBUG w eq_refl)).
  rewrite bind_modify. unfold bind, check_output.
  pose proof (git_trace shadow args
                (emit (Git shadow args)
                   (with_disk
                      (append_oplog
                         {| level := DEBUG; message := "Executing git command %s";
                            args := Format.Tuple [PObj (String.concat " " ("git" :: args))] |})
                      w))) as Htrace.
  destruct (git shadow args _) as [[out|] w1]; simpl in *.
  - intros [= _ <-]. exact Htrace.
  - destruct failure_ok; [|discriminate]. intros [= _ <-]. exact Htrace.
Qed.

Lemma set_remote_file_metadata_trace E data w :
  set_remote_file_metadata E data w =
    (Ok tt, snd (set_remote_file_metadata E data w))
  /\ trace (snd (set_remote_file_metadata E data w))
     = trace w ++ [Wrote (Shadow ".jirafs/remote_files.json")].
Proof. split; reflexivity. Qed.

(** C2, as the code has it.  When [push] returns, the last things it did
    are, in this order: stage and commit the working tree; [git fetch] in
    the shadow tree; [git merge master] in the working tree; write the
    remote-file metadata into the shadow tree; stage and commit the shadow
    tree; push the shadow tree to [origin jira]. *)
Theorem push_ends_with_its_epilogue (E : Env) (w w' : World) :
  push E w = (Ok tt, w') ->
  exists before : list Event, trace w' = trace w ++ before ++ push_epilogue.
Proof.
  intros H. unfold push in H. cbv zeta in H.
  inv_bind H as st w1 Hstatus. inv_bind H as file_meta0 w2 Hmeta.
  inv_bind H as file_meta w3 Hupload. inv_bind H as comment w4 Hcomment.
  inv_bind H as u5 w5 Hsend. inv_bind H as u6 w6 Hupdate.
  assert (Hgrows : trace_grows w w6).
  { etrans; [|etrans; [|etrans; [|etrans; [|etrans]]]].
    - eapply respects_Ok; [|exact Hstatus]. unfold_methods. respects_with trace_grows_base.
    - eapply respects_Ok; [|exact Hmeta]. unfold_methods. respects_with trace_grows_base.
    - eapply respects_Ok; [|exact Hupload]. unfold_methods. respects_with trace_grows_base.
    - eapply respects_Ok; [|exact Hcomment]. unfold_methods. respects_with trace_grows_base.
    - eapply respects_Ok; [|exact Hsend]. unfold_methods. respects_with trace_grows_base.
    - eapply respects_Ok; [|exact Hupdate]. unfold_methods. respects_with trace_grows_base. }
  destruct Hgrows as [before Hbefore]. exists before.
  inv_bind H as r1 w7 Hadd. inv_bind H as r2 w8 Hcommit.
  inv_bind H as r3 w9 Hfetch. inv_bind H as r4 w10 Hmerge.
  inv_bind H as u11 w11 Hwrite. inv_bind H as r5 w12 Hadd'.
  inv_bind H as r6 w13 Hcommit'. inv_bind H as r7 w14 Hpush.
  apply ret_Ok_inv in H as [_ ->].
  apply run_git_command_Ok_trace in Hadd, Hcommit, Hfetch, Hmerge, Hadd', Hcommit', Hpush.
  destruct (set_remote_file_metadata_trace E file_meta w10) as [Hw11 Htrace11].
  assert (w11 = snd (set_remote_file_metadata E file_meta w10)) as -> by congruence.
  rewrite Hpush, Hcommit', Hadd', Htrace11, Hmerge, Hfetch, Hcommit, Hadd, Hbefore.
  unfold push_epilogue. rewrite <- !app_assoc. reflexivity.
Qed.

Lemma push_ends_with_its_epilogue_witness :
  exists before : list Event,
    trace (snd (push Demo.env (Demo.world "looks good")))
    = trace (Demo.world "looks good") ++ before ++ push_epilogue.
Proof.
  apply (push_ends_with_its_epilogue Demo.env (Demo.world "looks good")).
  vm_compute. reflexivity.
Defined.

(** C2 as the spec states it fails: [push] returns, and the git commands
    it ran are these; the reference [jira] is never merged into the working
    tree, [master] is. *)
Lemma push_merges_master_not_jira :
  fst (push Demo.env (Demo.world "looks good")) = Ok tt
  /\ git_commands (trace (snd (push Demo.env (Demo.world "looks good")))) =
     [ (false, ["ls-files"; "-o"]);
       (false, ["ls-files"; "-m"]);
       (false, ["merge-base"; "master"; "jira"]);
       (false, ["add"; "-A"]);
       (false, ["commit"; "-m"; "Pushed local changes"]);
       (true, ["fetch"]);
       (false, ["merge"; "master"]);
       (true, ["add"; "-A"]);
       (true, ["commit"; "-m"; "Pulled remote changes"]);
       (true, ["push"; "origin"; "jira"]) ].
Proof. split; vm_compute; reflexivity. Qed.

(** C7 fails on the code for a comment with a per cent sign: the message
    for the log is built with [%] and then formatted with [%] once more, so
    [log] raises; by then the buffer is empty, and the comment is never
    sent. *)
Theorem push_loses_comment_with_percent :
  read_path (Local (TICKET_NEW_COMMENT Demo.env)) (disk (Demo.world "50%")) = Some "50%"
  /\ fst (push Demo.env (Demo.world "50%")) = Raise ValueError
  /\ comments_submitted (trace (snd (push Demo.env (Demo.world "50%")))) = []
  /\ read_path (Local (TICKET_NEW_COMMENT Demo.env))
               (disk (snd (push Demo.env (Demo.world "50%")))) = Some "".
Proof. repeat split; vm_compute; reflexivity. Qed.

(** ** Writes to the shadow tree *)

Lemma apply_writes_app ops1 ops2 t :
  apply_writes (ops1 ++ ops2) t = apply_writes ops2 (apply_writes ops1 t).
Proof. apply foldl_app. Qed.

Lemma written_app k ops1 ops2 x :
  written k (ops1 ++ ops2) x = written k ops2 (written k ops1 x).
Proof. apply foldl_app. Qed.

Lemma apply_write_lookup o t k : apply_write t o !! k = write_to k (t !! k) o.
Proof.
  destruct o as [name data|name data]; simpl; case_decide; subst;
    by rewrite ?lookup_insert_eq, ?lookup_insert_ne.
Qed.

Lemma apply_writes_lookup ops t k : apply_writes ops t !! k = written k ops (t !! k).
Proof.
  revert t. induction ops as [|o ops IH]; intros t; simpl; [reflexivity|].
  unfold apply_writes, written in *. simpl. by rewrite IH, apply_write_lookup.
Qed.

(** An anchored list of writes leaves [k] as it was, or leaves in [k] a
    text that does not depend on what [k] held. *)
Lemma anchored_written k ops :
  anchored k ops = true ->
  (forall x, written k ops x = x) \/ (forall x y, written k ops x = written k ops y).
Proof.
  unfold written.
  induction ops as [|[name data|name data] ops IH]; simpl; intros Hanchored.
  - by left.
  - destruct (decide (name = k)) as [->|Hne].
    + by right.
    + destruct (IH Hanchored) as [Hsame|Hfixed]; [left | right]; auto.
  - destruct (decide (name = k)) as [->|Hne]; [discriminate|].
    destruct (IH Hanchored) as [Hsame|Hfixed]; [left | right]; auto.
Qed.

Lemma anchored_app k ops1 ops2 :
  anchored k ops1 = true -> anchored k ops2 = true -> anchored k (ops1 ++ ops2) = true.
Proof.
  intros H1 H2. induction ops1 as [|[name data|name data] ops1 IH]; simpl in *;
    [exact H2 | |]; case_decide; auto.
Qed.

Lemma anchored_concat k (groups : list (list Write)) :
  Forall (fun ops => anchored k ops = true) groups -> anchored k (concat groups) = true.
Proof.
  induction 1 as [|ops groups Hops _ IH]; simpl; [reflexivity|]. by apply anchored_app.
Qed.

Lemma wrote_nil w : wrote [] w w.
Proof. by repeat split. Qed.

Lemma wrote_app ops1 ops2 w w1 w2 :
  wrote ops1 w w1 -> wrote ops2 w1 w2 -> wrote (ops1 ++ ops2) w w2.
Proof.
  intros (Hs1 & Hl1 & Hh1 & Hr1 & Ht1 & Hi1) (Hs2 & Hl2 & Hh2 & Hr2 & Ht2 & Hi2).
  repeat split; try congruence. by rewrite Hs2, Hs1, apply_writes_app.
Qed.

Lemma settled_wrote i t ops w w' : settled i t w -> wrote ops w w' -> settled i t w'.
Proof.
  intros [Hissue Htracker] (_ & _ & _ & _ & Ht & Hi). split; congruence.
Qed.

(** ** Computations from a settled world *)
Section Runs.

Context (i : Issue) (t : Tracker).

Lemma runs_ret {A} (a : A) : runs i t (ret a) (Some (a, [])).
Proof. intros w _. exists w. split; [reflexivity | apply wrote_nil]. Qed.

Lemma runs_raise {A} e : runs i t (raise (A := A) e) None.
Proof. intros w _. by exists e, w. Qed.

Lemma runs_bind {A B} (m : M A) (k : A -> M B) r1 r2 :
  runs i t m r1 -> (forall a, runs i t (k a) (r2 a)) ->
  runs i t (bind m k) (then_result r1 r2).
Proof.
  intros Hm Hk w Hw. specialize (Hm w Hw). destruct r1 as [[a ops1]|]; simpl.
  - destruct Hm as (w1 & Hmw & Hwrote1).
    specialize (Hk a w1 (settled_wrote _ _ _ _ _ Hw Hwrote1)).
    rewrite (bind_Ok _ _ _ _ _ Hmw).
    destruct (r2 a) as [[b ops2]|].
    + destruct Hk as (w2 & Hkw & Hwrote2). exists w2. split; [exact Hkw|].
      by eapply wrote_app.
    + exact Hk.
  - destruct Hm as (e & w1 & Hmw). exists e, w1. by apply bind_Raise.
Qed.

Lemma runs_for_each {A S} (l : list A) (body : S -> A -> M S) rb s :
  (forall s x, runs i t (body s x) (rb s x)) ->
  runs i t (for_each l body s) (loop_result rb l s).
Proof.
  intros Hbody. revert s. induction l as [|x l IH]; intros s; simpl.
  - apply runs_ret.
  - apply runs_bind; [apply Hbody | intros s'; apply IH].
Qed.

Lemma runs_Ok_inv {A} (m : M A) r w a w' :
  runs i t m r -> settled i t w -> m w = (Ok a, w') ->
  exists ops, r = Some (a, ops) /\ wrote ops w w'.
Proof.
  intros Hm Hw Hmw. specialize (Hm w Hw). destruct r as [[a' ops]|].
  - destruct Hm as (w1 & Hmw1 & Hwrote). rewrite Hmw in Hmw1. injection Hmw1 as <- <-.
    by exists ops.
  - destruct Hm as (e & w1 & Hmw1). rewrite Hmw in Hmw1. discriminate.
Qed.

Lemma runs_issue : runs i t issue (Some (i, [])).
Proof.
  intros w [Hissue _]. exists w. split; [by apply issue_memoized | apply wrote_nil].
Qed.

Lemma runs_bind_issue {B} (k : Issue -> M B) r :
  runs i t (k i) r -> runs i t (bind issue k) r.
Proof.
  intros Hk w Hw. rewrite (bind_Ok _ _ _ i w) by (apply issue_memoized; apply Hw).
  by apply Hk.
Qed.

Lemma runs_log message args level :
  Format.format_error message
    (match args with None => Format.NoArgs | Some values => Format.Tuple values end) = None ->
  runs i t (log message args level) (Some (tt, [])).
Proof.
  intros Hfmt w [Hissue _]. rewrite log_Ok_unfold by exact Hfmt. cbv zeta.
  destruct (level_number INFO <=? level_number level).
  - eexists. split.
    + unfold bind. rewrite issue_with_disk, (issue_memoized w i Hissue). reflexivity.
    + by repeat split.
  - eexists. split; [reflexivity|]. by repeat split.
Qed.

Lemma runs_write_shadow name data :
  runs i t (write_file (Shadow name) data) (Some (tt, [Put name data])).
Proof. intros w _. eexists. split; [reflexivity|]. by repeat split. Qed.

Lemma runs_append_shadow name data :
  runs i t (append_file (Shadow name) data) (Some (tt, [Add name data])).
Proof. intros w _. eexists. split; [reflexivity|]. by repeat split. Qed.

Lemma runs_write_metadata name data :
  runs i t (write_file (Metadata name) data) (Some (tt, [])).
Proof. intros w _. eexists. split; [reflexivity|]. by repeat split. Qed.

Lemma runs_request r :
  runs i t (request r)
       (match respond t r with Some answer => Some (answer, []) | None => None end).
Proof.
  intros w [_ Htracker]. unfold request. rewrite bind_modify, bind_get. simpl.
  rewrite Htracker. destruct (respond t r) as [answer|].
  - eexists. split; [reflexivity|]. by repeat split.
  - by eexists _, _.
Qed.

End Runs.

(** ** The steps of fetch *)

Lemma loop_result_total {A} (f : A -> list Write) (l : list A) :
  loop_result (fun (_ : unit) x => Some (tt, f x)) l tt = Some (tt, concat (f <$> l)).
Proof.
  induction l as [|x l IH]; simpl; [reflexivity|]. by rewrite IH.
Qed.

Lemma loop_result_ext {A S} (rb rb' : S -> A -> option (S * list Write)) l s :
  (forall s x, x ∈ l -> rb s x = rb' s x) ->
  loop_result rb l s = loop_result rb' l s.
Proof.
  revert s. induction l as [|x l IH]; intros s H; simpl; [reflexivity|].
  rewrite (H s x) by left. unfold then_result.
  destruct (rb' s x) as [[s' ops]|]; [|reflexivity].
  rewrite IH; [reflexivity|]. intros s'' y Hy. apply H. by right.
Qed.

Lemma sorted_elem_of x l : x ∈ Py.sorted l -> x ∈ l.
Proof.
  assert (Hins : forall y l', x ∈ Py.insert_sorted y l' -> x = y \/ x ∈ l').
  { intros y l'. induction l' as [|z l' IH]; simpl.
    - rewrite list_elem_of_singleton. by left.
    - destruct (String.leb y z).
      + rewrite elem_of_cons. tauto.
      + rewrite !elem_of_cons. intros [->|Hin]; [tauto|]. destruct (IH Hin); tauto. }
  induction l as [|y l IH]; simpl; [done|].
  intros Hin. apply Hins in Hin as [->|Hin]; [left | right; by apply IH].
Qed.

Lemma field_names_present i field : field ∈ field_names i -> is_Some (raw_fields i !! field).
Proof.
  unfold field_names. intros Hin. apply sorted_elem_of in Hin.
  apply list_elem_of_fmap in Hin as ([k v] & -> & Hin). simpl.
  apply elem_of_map_to_list in Hin. by eexists.
Qed.

Section FetchSteps.

Context (E : Env) (i : Issue) (t : Tracker).

Lemma runs_eq {A} (m : M A) r r' : runs i t m r -> r = r' -> runs i t m r'.
Proof. by intros H <-. Qed.

Lemma runs_write_block name header text :
  runs i t (write_block (Shadow name) header text)
       (Some (tt, block_writes name header text)).
Proof.
  unfold write_block. eapply runs_eq.
  - apply runs_bind; [apply runs_append_shadow | intros ?].
    apply runs_bind; [|intros ?; apply runs_append_shadow].
    apply runs_for_each
      with (rb := fun _ line => Some (tt, [Add name ("    " +:+ line +:+ Py.nl)])).
    intros ? line. apply runs_append_shadow.
  - simpl. rewrite loop_result_total. reflexivity.
Qed.

Lemma runs_write_field field : runs i t (write_field E field) (field_result E i field).
Proof.
  unfold write_field. apply runs_bind_issue. unfold field_result, field_writes.
  destruct (raw_fields i !! field) as [value|]; [|apply runs_raise].
  destruct (render_field E field value) as [|text|text].
  - apply runs_ret.
  - eapply runs_eq.
    + apply runs_bind; [apply runs_write_shadow | intros ?].
      apply runs_bind; [apply runs_append_shadow | intros ?; apply runs_append_shadow].
    + reflexivity.
  - apply runs_write_block.
Qed.

Lemma runs_write_fields :
  runs i t (for_each (field_names i) (fun _ field => write_field E field) tt)
       (Some (tt, concat (field_writes E i <$> field_names i))).
Proof.
  eapply runs_eq.
  - apply runs_for_each with (rb := fun _ field => field_result E i field).
    intros ? field. apply runs_write_field.
  - rewrite <- loop_result_total. apply loop_result_ext.
    intros u field Hin. destruct u. unfold field_result.
    by destruct (field_names_present i field Hin) as [value ->].
Qed.

Lemma runs_write_comments (l : list Comment) :
  runs i t (for_each l (fun _ c => write_comment E c) tt)
       (Some (tt, concat (comment_writes E <$> l))).
Proof.
  eapply runs_eq.
  - apply runs_for_each with (rb := fun _ c => Some (tt, comment_writes E c)).
    intros ? c. apply runs_write_block.
  - apply loop_result_total.
Qed.

Lemma runs_store_cached_issue : runs i t (store_cached_issue E) (Some (tt, [])).
Proof.
  unfold store_cached_issue. eapply runs_eq.
  - apply runs_bind; [apply runs_issue | intros ?].
    apply runs_bind; [apply runs_issue | intros i'; apply runs_write_metadata].
  - reflexivity.
Qed.

Lemma runs_download fname file_meta a :
  runs i t (download fname file_meta a) (download_result t fname file_meta a).
Proof.
  unfold download, download_result. case_decide; [|apply runs_ret].
  eapply runs_eq.
  - apply runs_bind; [apply runs_write_shadow | intros ?].
    apply runs_bind; [by apply runs_log | intros ?].
    apply runs_bind; [apply runs_request | intros data].
    apply runs_bind with (r2 := fun _ => Some (<[fname := created a]> file_meta, []));
      [apply runs_append_shadow | intros ?; apply runs_ret].
  - simpl. by destruct (respond t (Download a)).
Qed.

Lemma runs_downloads changed file_meta :
  runs i t (fetch_downloads changed file_meta) (downloads_result i t changed file_meta).
Proof.
  unfold fetch_downloads, downloads_result. apply runs_for_each. intros file_meta' fname.
  apply runs_bind_issue. apply runs_for_each. intros file_meta'' a. apply runs_download.
Qed.

Lemma runs_rendering file_meta :
  runs i t (fetch_rendering E file_meta) (Some (tt, rendering_writes E i file_meta)).
Proof.
  unfold fetch_rendering. eapply runs_eq.
  - apply runs_bind; [apply runs_write_shadow | intros ?].
    apply runs_bind; [apply runs_write_shadow | intros ?].
    apply runs_bind_issue.
    apply runs_bind; [apply runs_write_fields | intros ?].
    apply runs_bind; [apply runs_write_shadow | intros ?].
    apply runs_bind_issue.
    apply runs_bind; [apply runs_write_comments | intros ?].
    apply runs_store_cached_issue.
  - simpl. by rewrite app_nil_r.
Qed.

End FetchSteps.

(** ** What the downloads leave *)

Lemma written_untouched k ops x :
  Forall (fun o => write_name o <> k) ops -> written k ops x = x.
Proof.
  unfold written. intros H. revert x.
  induction H as [|[name data|name data] ops Hne _ IH]; intros x; simpl in *;
    [reflexivity | |]; rewrite decide_False by done; apply IH.
Qed.

Lemma anchored_untouched k ops :
  Forall (fun o => write_name o <> k) ops -> anchored k ops = true.
Proof.
  induction 1 as [|[name data|name data] ops Hne _ IH]; simpl in *;
    [reflexivity | |]; by rewrite decide_False.
Qed.

Lemma last_named_cons fname a l :
  last_named fname (a :: l) =
    if decide (filename a = fname)
    then match last_named fname l with Some b => Some b | None => Some a end
    else last_named fname l.
Proof.
  unfold last_named. case_decide.
  - rewrite filter_cons_True by done. apply last_cons.
  - by rewrite filter_cons_False.
Qed.

Section Downloads.

Context (t : Tracker).

Lemma inner_downloads fname l :
  forall file_meta file_meta' ops,
    loop_result (download_result t fname) l file_meta = Some (file_meta', ops) ->
    file_meta' = match last_named fname l with
                 | Some a => <[fname := created a]> file_meta
                 | None => file_meta
                 end
    /\ forall k x,
        written k ops x = match last_named fname l with
                          | Some a => if decide (k = fname) then respond t (Download a) else x
                          | None => x
                          end.
Proof.
  induction l as [|a l IH]; intros file_meta file_meta' ops; simpl.
  - intros [= <- <-]. by split.
  - rewrite last_named_cons. unfold download_result at 1. case_decide as Hname.
    + destruct (respond t (Download a)) as [data|] eqn:Hdata; [|discriminate]. simpl.
      destruct (loop_result _ l _) as [[fm ops']|] eqn:Hrest; [|discriminate].
      intros [= <- <-]. destruct (IH _ _ _ Hrest) as [-> Hwritten]. split.
      * destruct (last_named fname l); [by rewrite insert_insert_eq | reflexivity].
      * intros k x.
        change (written k ops'
                  (write_to k (write_to k x (Put fname "")) (Add fname data))
                = match match last_named fname l with
                        | Some b => Some b
                        | None => Some a
                        end with
                  | Some a0 => if decide (k = fname) then respond t (Download a0) else x
                  | None => x
                  end).
        rewrite Hwritten. simpl.
        destruct (last_named fname l) as [b|]; destruct (decide (k = fname)) as [->|Hne];
          rewrite ?decide_True, ?decide_False by done; simpl; rewrite ?Hdata; reflexivity.
    + simpl. destruct (loop_result _ l _) as [[fm ops']|] eqn:Hrest; [|discriminate].
      intros [= <- <-]. apply (IH _ _ _ Hrest).
Qed.

Lemma inner_downloads_needed fname l :
  forall file_meta,
    is_Some (loop_result (download_result t fname) l file_meta) <->
    forall a, a ∈ l -> filename a = fname -> is_Some (respond t (Download a)).
Proof.
  induction l as [|a l IH]; intros file_meta; simpl.
  - split; [intros _ a Ha; by apply elem_of_nil in Ha | by eexists].
  - unfold download_result at 1. case_decide as Hname.
    + destruct (respond t (Download a)) as [data|] eqn:Hdata; simpl.
      * specialize (IH (<[fname := created a]> file_meta)).
        destruct (loop_result _ l _) as [[fm ops']|]; split.
        -- intros _ b Hb Hbname. apply elem_of_cons in Hb as [->|Hb]; [by rewrite Hdata|].
           by apply IH.
        -- by eexists.
        -- intros [? [=]].
        -- intros Hall. apply IH. intros b Hb. apply Hall. by right.
      * split; [intros [? [=]]|]. intros Hall.
        specialize (Hall a ltac:(left) Hname). rewrite Hdata in Hall. by destruct Hall.
    + simpl. specialize (IH file_meta).
      destruct (loop_result _ l _) as [[fm ops']|]; split.
      * intros _ b Hb Hbname. apply elem_of_cons in Hb as [->|Hb]; [done|]. by apply IH.
      * by eexists.
      * intros [? [=]].
      * intros Hall. apply IH. intros b Hb. apply Hall. by right.
Qed.

End Downloads.

Lemma downloads_result_cons i t fname changed file_meta :
  downloads_result i t (fname :: changed) file_meta =
    then_result (loop_result (download_result t fname) (attachment i) file_meta)
                (downloads_result i t changed).
Proof. reflexivity. Qed.

Lemma downloads_needed i t changed :
  forall file_meta,
    is_Some (downloads_result i t changed file_meta) <->
    forall fname a, fname ∈ changed -> a ∈ attachment i -> filename a = fname ->
                    is_Some (respond t (Download a)).
Proof.
  induction changed as [|fname changed IH]; intros file_meta.
  - split; [intros _ fname a Hin; by apply elem_of_nil in Hin | by eexists].
  - rewrite downloads_result_cons.
    pose proof (inner_downloads_needed t fname (attachment i) file_meta) as Hinner.
    destruct (loop_result _ (attachment i) file_meta) as [[fm ops]|]; simpl.
    + specialize (IH fm). destruct (downloads_result i t changed fm) as [[fm' ops']|]; split.
      * intros _ fname' a Hin Ha Hname. apply elem_of_cons in Hin as [->|Hin].
        -- apply Hinner; [by eexists | done | done].
        -- by apply (proj1 IH ltac:(by eexists) fname' a).
      * by eexists.
      * intros [? [=]].
      * intros Hall. apply IH. intros fname' a Hin. apply Hall. by right.
    + split; [intros [? [=]]|]. intros Hall. apply Hinner.
      intros a Ha Hname. apply (Hall fname a); [left | done | done].
Qed.

Lemma downloads_spec i t changed :
  forall file_meta file_meta' ops,
    downloads_result i t changed file_meta = Some (file_meta', ops) ->
    forall k,
      file_meta' !! k = match downloaded changed (attachment i) k with
                        | Some a => Some (created a)
                        | None => file_meta !! k
                        end
      /\ forall x,
          written k ops x = match downloaded changed (attachment i) k with
                            | Some a => respond t (Download a)
                            | None => x
                            end.
Proof.
  induction changed as [|fname changed IH]; intros file_meta file_meta' ops.
  - intros [= <- <-] k. unfold downloaded. rewrite decide_False by apply not_elem_of_nil.
    by split.
  - rewrite downloads_result_cons.
    destruct (loop_result _ (attachment i) file_meta) as [[fm1 ops1]|] eqn:Hinner;
      [|discriminate]. simpl.
    destruct (downloads_result i t changed fm1) as [[fm2 ops2]|] eqn:Hrest; [|discriminate].
    intros [= <- <-] k.
    destruct (inner_downloads t fname (attachment i) _ _ _ Hinner) as [-> Hwritten1].
    destruct (IH _ _ _ Hrest k) as [Hmeta2 Hwritten2].
    assert (Hdownloaded :
              downloaded (fname :: changed) (attachment i) k =
                match downloaded changed (attachment i) k with
                | Some a => Some a
                | None => if decide (k = fname) then last_named fname (attachment i) else None
                end).
    { unfold downloaded. destruct (decide (k ∈ changed)) as [Hin|Hnotin].
      - rewrite decide_True by (by right).
        destruct (last_named k (attachment i)) eqn:Hlast; [reflexivity|].
        case_decide; [by subst|reflexivity].
      - destruct (decide (k = fname)) as [->|Hne].
        + by rewrite decide_True by left.
        + rewrite decide_False; [reflexivity|]. rewrite elem_of_cons. tauto. }
    rewrite Hdownloaded, Hmeta2. split.
    + destruct (downloaded changed (attachment i) k); [reflexivity|].
      destruct (decide (k = fname)) as [->|Hne].
      * destruct (last_named fname (attachment i)); [by rewrite lookup_insert_eq | reflexivity].
      * destruct (last_named fname (attachment i)); [by rewrite lookup_insert_ne | reflexivity].
    + intros x. rewrite written_app, Hwritten2, Hwritten1.
      destruct (downloaded changed (attachment i) k); [reflexivity|].
      destruct (decide (k = fname)) as [->|Hne];
        destruct (last_named fname (attachment i)); reflexivity.
Qed.

Lemma changed_names_elem E ignore_globs metadata i k :
  k ∈ changed_names E ignore_globs metadata i <->
  exists a, a ∈ attachment i /\ filename a = k
            /\ file_matches_globs E k ignore_globs = false
            /\ metadata !! k <> Some (created a).
Proof.
  unfold changed_names. rewrite list_elem_of_fmap. split.
  - intros (a & -> & Hin). apply list_elem_of_filter in Hin as [Hkept Hin].
    apply andb_true_iff in Hkept as [Hglobs Hchanged].
    apply negb_true_iff in Hglobs. apply bool_decide_eq_true in Hchanged.
    by exists a.
  - intros (a & Hin & <- & Hglobs & Hchanged). exists a. split; [reflexivity|].
    apply list_elem_of_filter. split; [|exact Hin].
    apply andb_true_iff. split; [by apply negb_true_iff | by apply bool_decide_eq_true].
Qed.

(** Once the changed attachments are downloaded and recorded, only names
    that were downloaded can still count as changed. *)
Lemma changed_names_again E ignore_globs i metadata metadata1 :
  (forall k, metadata1 !! k
             = match downloaded (changed_names E ignore_globs metadata i) (attachment i) k with
               | Some a => Some (created a)
               | None => metadata !! k
               end) ->
  forall k, k ∈ changed_names E ignore_globs metadata1 i ->
            k ∈ changed_names E ignore_globs metadata i.
Proof.
  intros Hmeta1 k Hin.
  destruct (decide (k ∈ changed_names E ignore_globs metadata i)) as [|Hnotin]; [done|].
  exfalso. apply changed_names_elem in Hin as (a & Ha & Hname & Hglobs & Hchanged).
  apply Hchanged. rewrite Hmeta1. unfold downloaded. rewrite decide_False by done.
  destruct (decide (metadata !! k = Some (created a))) as [|Hne]; [done|].
  exfalso. apply Hnotin. apply changed_names_elem. by exists a.
Qed.

Lemma metadata_again E ignore_globs i metadata metadata1 metadata2 :
  (forall k, metadata1 !! k
             = match downloaded (changed_names E ignore_globs metadata i) (attachment i) k with
               | Some a => Some (created a)
               | None => metadata !! k
               end) ->
  (forall k, metadata2 !! k
             = match downloaded (changed_names E ignore_globs metadata1 i) (attachment i) k with
               | Some a => Some (created a)
               | None => metadata1 !! k
               end) ->
  metadata2 = metadata1.
Proof.
  intros Hmeta1 Hmeta2. apply map_eq. intros k. rewrite Hmeta2. unfold downloaded.
  destruct (decide (k ∈ changed_names E ignore_globs metadata1 i)) as [Hin|]; [|reflexivity].
  destruct (last_named k (attachment i)) as [a|] eqn:Hlast; [|reflexivity].
  rewrite Hmeta1. unfold downloaded.
  rewrite decide_True by (by eapply changed_names_again). by rewrite Hlast.
Qed.

(** ** What the rendering leaves *)

Lemma block_writes_names name header text :
  Forall (fun o => write_name o = name) (block_writes name header text).
Proof.
  unfold block_writes. apply Forall_app_2; [by repeat constructor|].
  apply Forall_app_2; [|by repeat constructor].
  induction (Py.split_lines (Py.replace_crlf text)) as [|line lines IH]; simpl;
    [constructor | by constructor].
Qed.

Lemma block_writes_untouched k name header text :
  name <> k -> Forall (fun o => write_name o <> k) (block_writes name header text).
Proof.
  intros Hne. eapply Forall_impl; [apply block_writes_names|].
  intros o Ho. simpl in Ho. congruence.
Qed.

Lemma field_writes_anchored E i field k :
  TICKET_DETAILS E <> k -> anchored k (field_writes E i field) = true.
Proof.
  intros Hne. unfold field_writes.
  destruct (raw_fields i !! field) as [value|]; [|reflexivity].
  destruct (render_field E field value) as [|text|text]; [reflexivity| |].
  - simpl. by repeat case_decide.
  - apply anchored_untouched. by apply block_writes_untouched.
Qed.

Lemma rendering_writes_anchored E i file_meta k :
  anchored k (rendering_writes E i file_meta) = true.
Proof.
  unfold rendering_writes. simpl.
  destruct (decide (".jirafs/remote_files.json" = k)) as [|_]; [reflexivity|].
  destruct (decide (TICKET_DETAILS E = k)) as [|Hdetails]; [reflexivity|].
  apply anchored_app.
  - apply anchored_concat. apply Forall_fmap, Forall_forall. intros field _.
    by apply field_writes_anchored.
  - simpl. destruct (decide (TICKET_COMMENTS E = k)) as [|Hcomments]; [reflexivity|].
    apply anchored_concat. apply Forall_fmap, Forall_forall. intros c _.
    apply anchored_untouched. by apply block_writes_untouched.
Qed.

Lemma field_writes_apart E i field :
  metadata_file_apart E ->
  Forall (fun o => write_name o <> ".jirafs/remote_files.json") (field_writes E i field).
Proof.
  intros (Hdetails & _ & Hfields). unfold field_writes.
  destruct (raw_fields i !! field) as [value|]; [|constructor].
  destruct (render_field E field value) as [|text|text]; [constructor| |].
  - repeat constructor; apply Hfields.
  - by apply block_writes_untouched.
Qed.

(** The metadata [fetch] writes can be read back when it is done. *)
Lemma rendering_writes_metadata E i file_meta x :
  metadata_file_apart E ->
  written ".jirafs/remote_files.json" (rendering_writes E i file_meta) x
  = Some (json_dumps_files E file_meta).
Proof.
  intros Hapart. unfold rendering_writes. rewrite written_app.
  rewrite written_untouched;
    [unfold written; simpl; try rewrite decide_True by done; reflexivity|].
  destruct Hapart as (Hdetails & Hcomments & Hfields).
  apply Forall_app_2; [by repeat constructor|].
  apply Forall_app_2.
  - apply Forall_concat, Forall_fmap, Forall_forall. intros field _.
    by apply field_writes_apart.
  - apply Forall_app_2; [by repeat constructor|].
    apply Forall_concat, Forall_fmap, Forall_forall. intros c _.
    by apply block_writes_untouched.
Qed.

(** ** The git commands at the end of fetch *)

#[local] Arguments run_git_command : simpl never.

Lemma run_git_command_unfold args failure_ok shadow w :
  run_git_command args failure_ok shadow w =
    let entry := {| level := DEBUG; message := "Executing git command %s";
                    args := Format.Tuple [PObj (String.concat " " ("git" :: args))] |} in
    let w0 := emit (Git shadow args) (with_disk (append_oplog entry) w) in
    match git shadow args w0 with
    | (Some out, w1) => (Ok (Some (Py.strip out)), w1)
    | (None, w1) => if failure_ok then (Ok None, w1) else (Raise CalledProcessError, w1)
    end.
Proof.
  unfold run_git_command.
  rewrite (bind_Ok _ _ _ tt _
             (log_Ok_unfold "Executing git command %s"
                (Some [PObj (String.concat " " ("git" :: args))]) DEBUG w eq_refl)).
  rewrite bind_modify. unfold bind, check_output. cbv zeta.
  destruct (git shadow args _) as [[out|] w1]; [reflexivity|].
  by destruct failure_ok.
Qed.

Lemma shadow_commit_spec w :
  match shadow_commit (shadow_files (disk w)) (repo w) with
  | Some r' => exists w', fetch_commit w = (Ok tt, w') /\ repo_step r' w w'
  | None => exists e w', fetch_commit w = (Raise e, w')
  end.
Proof.
  unfold fetch_commit, shadow_commit, bind. rewrite run_git_command_unfold. cbv zeta.
  unfold git. simpl.
  destruct (outcome (repo w) true ["add"; "-A"]) as [out1|]; simpl;
    [|eexists _, _; reflexivity].
  rewrite run_git_command_unfold. cbv zeta. unfold git. simpl.
  destruct (outcome (repo w) true ["commit"; "-m"; "Pulled remote changes"]) as [out2|]; simpl.
  - destruct (decide (shadow_files (disk w)
                      = head_tree (stage (shadow_files (disk w)) (repo w))))
      as [Hsame|Hdiffers]; simpl.
    + rewrite run_git_command_unfold. cbv zeta. unfold git. simpl.
      destruct (outcome (repo w) true ["push"; "origin"; "jira"]) as [out3|]; simpl;
        [|eexists _, _; reflexivity].
      eexists. split; [reflexivity|]. by repeat split.
    + rewrite run_git_command_unfold. cbv zeta. unfold git. simpl.
      destruct (outcome (repo w) true ["push"; "origin"; "jira"]) as [out3|]; simpl;
        [|eexists _, _; reflexivity].
      eexists. split; [reflexivity|]. by repeat split.
  - rewrite run_git_command_unfold. cbv zeta. unfold git. simpl.
    destruct (outcome (repo w) true ["push"; "origin"; "jira"]) as [out3|]; simpl;
      [|eexists _, _; reflexivity].
    eexists. split; [reflexivity|]. by repeat split.
Qed.

(** Committing the same tree again adds no commit. *)
Lemma shadow_commit_again tree r r1 :
  shadow_commit tree r = Some r1 ->
  exists r2, shadow_commit tree r1 = Some r2 /\ commits r2 = commits r1.
Proof.
  unfold shadow_commit.
  destruct (outcome r true ["add"; "-A"]) as [out1|] eqn:Hadd; [|discriminate].
  destruct (outcome r true ["push"; "origin"; "jira"]) as [out3|] eqn:Hpush; [|discriminate].
  intros [= <-].
  destruct (outcome r true ["commit"; "-m"; "Pulled remote changes"]) as [out2|] eqn:Hcommit.
  - destruct (decide (tree = head_tree (stage tree r))) as [Hsame|Hdiffers];
      simpl; rewrite Hadd, Hpush, Hcommit; simpl.
    + eexists. split; [reflexivity|]. simpl.
      unfold head_tree in *. simpl in *. by rewrite decide_True.
    + eexists. split; [reflexivity|]. simpl. by rewrite decide_True.
  - simpl. rewrite Hadd, Hpush, Hcommit. eexists. split; reflexivity.
Qed.

(** ** fetch, stretch by stretch *)

Lemma bind_assoc {A B C} (m : M A) (k : A -> M B) (h : B -> M C) w :
  bind (bind m k) h w = bind m (fun a => bind (k a) h) w.
Proof. unfold bind. by destruct (m w) as [[a|e] w1]. Qed.

Lemma bind_ext {A B} (m : M A) (k k' : A -> M B) w :
  (forall a w', k a w' = k' a w') -> bind m k w = bind m k' w.
Proof. intros H. unfold bind. destruct (m w) as [[a|e] w1]; [apply H | reflexivity]. Qed.

Lemma fetch_stretches E w :
  fetch E w =
    bind (get_remote_file_metadata E) (fun file_meta =>
    bind (get_remotely_changed E) (fun changed =>
    bind (fetch_downloads changed file_meta) (fun file_meta' =>
    bind (fetch_rendering E file_meta') (fun _ =>
    fetch_commit)))) w.
Proof.
  unfold fetch, fetch_downloads.
  apply bind_ext. intros file_meta w1. apply bind_ext. intros changed w2.
  apply bind_ext. intros file_meta' w3. unfold fetch_rendering, fetch_commit.
  repeat (rewrite bind_assoc; apply bind_ext; intros ? ?).
  reflexivity.
Qed.

Lemma get_remote_file_metadata_pure E w :
  get_remote_file_metadata E w = (read_metadata E (shadow_files (disk w)), w).
Proof.
  unfold get_remote_file_metadata, read_metadata, try_except, read_file, bind, get, ret, raise,
    read_path. simpl.
  destruct (shadow_files (disk w) !! ".jirafs/remote_files.json") as [text|]; simpl;
    [|reflexivity].
  destruct (json_loads_files E text); reflexivity.
Qed.

Lemma get_remotely_changed_unfold E w :
  get_remotely_changed E w =
    match read_metadata E (shadow_files (disk w)) with
    | Ok metadata =>
        bind issue (fun i =>
          ret (changed_names E (ignore_globs_in E (REMOTE_IGNORE_FILE E) w) metadata i)) w
    | Raise e => (Raise e, w)
    end.
Proof.
  unfold get_remotely_changed.
  rewrite (bind_Ok _ _ _ _ _ (get_ignore_globs_spec E (REMOTE_IGNORE_FILE E) w)).
  unfold bind at 1. rewrite get_remote_file_metadata_pure.
  destruct (read_metadata E (shadow_files (disk w))); reflexivity.
Qed.

#[local] Instance instance_only_preorder : PreOrder instance_only.
Proof.
  split.
  - by intros w.
  - intros x y z (H1 & H2 & H3) (H4 & H5 & H6). unfold instance_only. repeat split; congruence.
Qed.

Lemma issue_instance_only : respects instance_only issue.
Proof.
  unfold issue, jira, request, request_issue.
  respects_with ltac:(by repeat split).
Qed.

Lemma ignore_globs_in_files E which w w' :
  local_files (disk w') = local_files (disk w) ->
  home_files (disk w') = home_files (disk w) ->
  ignore_globs_in E which w' = ignore_globs_in E which w.
Proof.
  intros Hlocal Hhome. unfold ignore_globs_in, file_globs, read_path. simpl.
  by rewrite Hlocal, Hhome.
Qed.

(** A fetch that returned, taken apart: the issue [i] it worked on, the
    metadata and the names it started from, what it wrote and what it
    left. *)
Lemma fetch_Ok_inv E w w1 :
  fetch E w = (Ok tt, w1) ->
  exists i metadata metadata1 ops1 r1,
    read_metadata E (shadow_files (disk w)) = Ok metadata
    /\ downloads_result i (tracker w)
         (changed_names E (ignore_globs_in E (REMOTE_IGNORE_FILE E) w) metadata i) metadata
       = Some (metadata1, ops1)
    /\ shadow_files (disk w1)
       = apply_writes (ops1 ++ rendering_writes E i metadata1) (shadow_files (disk w))
    /\ shadow_commit (shadow_files (disk w1)) (repo w) = Some r1
    /\ repo w1 = r1
    /\ settled i (tracker w) w1
    /\ local_files (disk w1) = local_files (disk w)
    /\ home_files (disk w1) = home_files (disk w).
Proof.
  rewrite fetch_stretches. intros H.
  inv_bind H as metadata wa Hmeta. rewrite get_remote_file_metadata_pure in Hmeta.
  injection Hmeta as Hmeta <-.
  inv_bind H as changed wb0 Hchanged. rewrite get_remotely_changed_unfold, Hmeta in Hchanged.
  inv_bind Hchanged as i wb Hissue. apply ret_Ok_inv in Hchanged as [-> ->].
  destruct (respects_Ok instance_only _ _ _ _ issue_instance_only Hissue)
    as (Hdisk_b & Hrepo_b & Htracker_b).
  assert (Hsettled_b : settled i (tracker w) wb).
  { split; [by eapply issue_Ok_memoizes | exact Htracker_b]. }
  inv_bind H as metadata1 wc Hdownloads.
  destruct (runs_Ok_inv i (tracker w) _ _ _ _ _ (runs_downloads i (tracker w) _ _)
              Hsettled_b Hdownloads) as (ops1 & Hresult & Hwrote_c).
  pose proof (settled_wrote _ _ _ _ _ Hsettled_b Hwrote_c) as Hsettled_c.
  inv_bind H as u wd Hrendering.
  destruct (runs_Ok_inv i (tracker w) _ _ _ _ _ (runs_rendering E i (tracker w) metadata1)
              Hsettled_c Hrendering) as (ops & Hops & Hwrote_d).
  assert (ops = rendering_writes E i metadata1) as -> by congruence.
  pose proof (settled_wrote _ _ _ _ _ Hsettled_c Hwrote_d) as [Hissue_d Htracker_d].
  pose proof (wrote_app _ _ _ _ _ Hwrote_c Hwrote_d) as (Hshadow & Hlocal & Hhome & Hrepo & _).
  rewrite Hdisk_b in Hshadow, Hlocal, Hhome.
  pose proof (shadow_commit_spec wd) as Hcommit.
  destruct (shadow_commit (shadow_files (disk wd)) (repo wd)) as [r1|] eqn:Hr1.
  - destruct Hcommit as (w' & Hw' & Hr & Hs & Hl & Hh & Ht & Hi).
    rewrite H in Hw'. injection Hw' as <-.
    exists i, metadata, metadata1, ops1, r1. rewrite Hs.
    split; [exact Hmeta|]. split; [exact Hresult|]. split; [exact Hshadow|].
    split; [by rewrite <- Hrepo_b, <- Hrepo|]. split; [exact Hr|].
    split; [split; congruence|]. split; congruence.
  - destruct Hcommit as (e & w' & Hw'). rewrite H in Hw'. discriminate.
Qed.

(** A fetch from a settled world returns when its downloads and its git
    commands go through. *)
Lemma fetch_settled E i t w metadata metadata' ops r' :
  settled i t w ->
  read_metadata E (shadow_files (disk w)) = Ok metadata ->
  downloads_result i t
    (changed_names E (ignore_globs_in E (REMOTE_IGNORE_FILE E) w) metadata i) metadata
  = Some (metadata', ops) ->
  shadow_commit
    (apply_writes (ops ++ rendering_writes E i metadata') (shadow_files (disk w))) (repo w)
  = Some r' ->
  exists w',
    fetch E w = (Ok tt, w')
    /\ shadow_files (disk w')
       = apply_writes (ops ++ rendering_writes E i metadata') (shadow_files (disk w))
    /\ repo w' = r'.
Proof.
  intros Hsettled Hmeta Hresult Hcommit. rewrite fetch_stretches.
  rewrite (bind_Ok _ _ _ metadata w) by (by rewrite get_remote_file_metadata_pure, Hmeta).
  rewrite (bind_Ok _ _ _
             (changed_names E (ignore_globs_in E (REMOTE_IGNORE_FILE E) w) metadata i) w).
  2:{ rewrite get_remotely_changed_unfold, Hmeta.
      by rewrite (bind_Ok _ _ _ i w) by (apply issue_memoized; apply Hsettled). }
  pose proof (runs_downloads i t
                (changed_names E (ignore_globs_in E (REMOTE_IGNORE_FILE E) w) metadata i)
                metadata w Hsettled) as Hdownloads.
  rewrite Hresult in Hdownloads. destruct Hdownloads as (wc & Hwc & Hwrote_c).
  rewrite (bind_Ok _ _ _ _ _ Hwc).
  pose proof (settled_wrote _ _ _ _ _ Hsettled Hwrote_c) as Hsettled_c.
  destruct (runs_rendering E i t metadata' wc Hsettled_c) as (wd & Hwd & Hwrote_d).
  rewrite (bind_Ok _ _ _ _ _ Hwd).
  pose proof (wrote_app _ _ _ _ _ Hwrote_c Hwrote_d) as (Hshadow & _ & _ & Hrepo & _).
  pose proof (shadow_commit_spec wd) as Hspec.
  rewrite Hshadow, Hrepo, Hcommit in Hspec.
  destruct Hspec as (w' & Hw' & Hr & Hs & _). exists w'.
  split; [exact Hw'|]. split; [by rewrite Hs | exact Hr].
Qed.

(** C3.  After a fetch that returned, a second fetch on the same instance,
    from a tracker that has not changed, returns as well, adds no commit
    to the shadow repository (its commit finds nothing to commit, which is
    let pass), and leaves the remote-file metadata, and the whole shadow
    tree, as the first fetch left them.  This holds for a [json] that
    reads back what it wrote and a metadata file that is none of the files
    the issue is rendered into. *)
Theorem fetch_twice_commits_once (E : Env) (w w1 : World) :
  (forall data, json_loads_files E (json_dumps_files E data) = Some data) ->
  metadata_file_apart E ->
  fetch E w = (Ok tt, w1) ->
  exists w2 data,
    fetch E w1 = (Ok tt, w2)
    /\ commits (repo w2) = commits (repo w1)
    /\ fst (get_remote_file_metadata E w1) = Ok data
    /\ fst (get_remote_file_metadata E w2) = Ok data
    /\ shadow_files (disk w2) = shadow_files (disk w1).
Proof.
  intros Hjson Hapart H.
  destruct (fetch_Ok_inv E w w1 H)
    as (i & metadata & metadata1 & ops1 & r1
        & Hmeta & Hresult1 & Hshadow1 & Hcommit1 & Hrepo1 & Hsettled1 & Hlocal & Hhome).
  pose proof (downloads_spec _ _ _ _ _ _ Hresult1) as Hspec1.
  assert (Hmeta1 : read_metadata E (shadow_files (disk w1)) = Ok metadata1).
  { unfold read_metadata.
    rewrite Hshadow1, apply_writes_lookup, written_app, rendering_writes_metadata by done.
    by rewrite Hjson. }
  pose proof (ignore_globs_in_files E (REMOTE_IGNORE_FILE E) w w1 Hlocal Hhome) as Hglobs.
  assert (Hsome : is_Some
            (downloads_result i (tracker w)
               (changed_names E (ignore_globs_in E (REMOTE_IGNORE_FILE E) w1) metadata1 i)
               metadata1)).
  { apply downloads_needed. intros fname a Hin. rewrite Hglobs in Hin.
    apply (proj1 (downloads_needed i (tracker w) _ metadata) ltac:(by eexists) fname a).
    eapply changed_names_again; [|exact Hin]. intros k. apply Hspec1. }
  destruct Hsome as [[metadata2 ops2] Hresult2].
  pose proof (downloads_spec _ _ _ _ _ _ Hresult2) as Hspec2.
  rewrite Hglobs in Hspec2.
  assert (metadata2 = metadata1) as ->.
  { eapply metadata_again; intros k; [apply Hspec1 | apply Hspec2]. }
  assert (Hsame : apply_writes (ops2 ++ rendering_writes E i metadata1) (shadow_files (disk w1))
                  = shadow_files (disk w1)).
  { apply map_eq. intros k. rewrite apply_writes_lookup, Hshadow1, apply_writes_lookup.
    rewrite !written_app.
    destruct (anchored_written k _ (rendering_writes_anchored E i metadata1 k))
      as [Hkept|Hfixed]; [|apply Hfixed].
    rewrite !Hkept. rewrite (proj2 (Hspec2 k)).
    destruct (downloaded _ (attachment i) k) as [a|] eqn:Hdownloaded; [|reflexivity].
    rewrite (proj2 (Hspec1 k)). unfold downloaded in *.
    destruct (decide (k ∈ changed_names E _ metadata1 i)) as [Hin|]; [|discriminate].
    rewrite decide_True; [by rewrite Hdownloaded|].
    eapply changed_names_again; [|exact Hin]. intros k'. apply Hspec1. }
  destruct (shadow_commit_again _ _ _ Hcommit1) as (r2 & Hcommit2 & Hcommits).
  destruct (fetch_settled E i (tracker w) w1 metadata1 metadata1 ops2 r2 Hsettled1 Hmeta1
              Hresult2) as (w2 & Hfetch2 & Hshadow2 & Hrepo2).
  { by rewrite Hsame, Hrepo1. }
  exists w2, metadata1. rewrite Hshadow2, Hsame, Hrepo2, Hrepo1.
  split; [exact Hfetch2|]. split; [exact Hcommits|].
  rewrite !get_remote_file_metadata_pure. simpl. rewrite Hshadow2, Hsame.
  by repeat split.
Qed.

Lemma demo_of_bits p : Demo.of_bits (Demo.bits_of p) = Some p.
Proof. induction p as [p IH|p IH|]; simpl; by rewrite ?IH. Qed.

Lemma demo_json_reads_back data : Demo.loads_files (Demo.dumps_files data) = Some data.
Proof.
  unfold Demo.loads_files, Demo.dumps_files. rewrite demo_of_bits. simpl.
  rewrite decode_encode. simpl. by rewrite list_to_map_to_list.
Qed.

Lemma demo_metadata_file_apart : metadata_file_apart Demo.env.
Proof.
  split; [discriminate|]. split; [discriminate|].
  intros field H. simpl in H.
  do 25 (destruct field as [|? field]; simpl in H; [discriminate H | injection H as _ H]).
  destruct field; discriminate H.
Qed.

Lemma fetch_twice_commits_once_witness :
  exists w2 data,
    fetch Demo.env (snd (fetch Demo.env (Demo.world ""))) = (Ok tt, w2)
    /\ commits (repo w2) = commits (repo (snd (fetch Demo.env (Demo.world ""))))
    /\ fst (get_remote_file_metadata Demo.env (snd (fetch Demo.env (Demo.world "")))) = Ok data
    /\ fst (get_remote_file_metadata Demo.env w2) = Ok data
    /\ shadow_files (disk w2) = shadow_files (disk (snd (fetch Demo.env (Demo.world "")))).
Proof.
  apply (fetch_twice_commits_once Demo.env (Demo.world "")).
  - exact demo_json_reads_back.
  - exact demo_metadata_file_apart.
  - vm_compute. reflexivity.
Defined.


(** ** push and the pending comment *)

#[local] Instance same_comments_preorder : PreOrder same_comments.
Proof. split; [done | intros x y z Hxy Hyz; unfold same_comments in *; congruence]. Qed.

Lemma comments_submitted_app t1 t2 :
  comments_submitted (t1 ++ t2) = comments_submitted t1 ++ comments_submitted t2.
Proof. apply omap_app. Qed.

Ltac same_comments_base :=
  unfold same_comments; simpl; rewrite ?comments_submitted_app; simpl;
  rewrite ?app_nil_r; reflexivity.

Lemma status_same_comments E : respects same_comments (status E).
Proof. unfold_methods. respects_with same_comments_base. Qed.

Lemma get_remote_file_metadata_same_comments E :
  respects same_comments (get_remote_file_metadata E).
Proof. unfold_methods. respects_with same_comments_base. Qed.

Lemma upload_file_same_comments file_meta fname :
  respects same_comments (upload_file file_meta fname).
Proof. unfold_methods. respects_with same_comments_base. Qed.

Lemma log_same_comments message args level : respects same_comments (log message args level).
Proof. unfold_methods. respects_with same_comments_base. Qed.

Lemma jira_same_comments : respects same_comments jira.
Proof. unfold_methods. respects_with same_comments_base. Qed.

Lemma request_Ok_trace r w answer w' :
  request r w = (Ok answer, w') -> trace w' = trace w ++ [Net r].
Proof.
  unfold request. rewrite bind_modify, bind_get. simpl.
  destruct (respond (tracker w) r); [|discriminate]. by intros [= _ <-].
Qed.

(** What [push] does after it has read and emptied the buffer and dealt
    with the comment sends no comment. *)
Lemma push_after_comment_same_comments E (st : Status) (file_meta : gmap string string) :
  respects same_comments
    (bind (when (negb (bool_decide ((snd <$> local_differs st : gmap string pyval) = ∅)))
             (bind (log ("Updating fields " +:+ Py.quote +:+ "%s" +:+ Py.quote)
                        (Some [PObj "collected_updates"]) INFO) (fun _ =>
              bind issue (fun _ =>
              bind (request (Update (snd <$> local_differs st))) (fun _ => ret tt)))))
          (fun _ =>
     bind (run_git_command ["add"; "-A"] true false) (fun _ =>
     bind (run_git_command ["commit"; "-m"; "Pushed local changes"] true false) (fun _ =>
     bind (run_git_command ["fetch"] false true) (fun _ =>
     bind (run_git_command ["merge"; "master"] false false) (fun _ =>
     bind (set_remote_file_metadata E file_meta) (fun _ =>
     bind (run_git_command ["add"; "-A"] false true) (fun _ =>
     bind (run_git_command ["commit"; "-m"; "Pulled remote changes"] true true) (fun _ =>
     bind (run_git_command ["push"; "origin"; "jira"] false true) (fun _ =>
     ret tt)))))))))).
Proof. unfold_methods. respects_with same_comments_base. Qed.

(** When [push] returns, it has sent the stripped text of the buffer as
    one comment, or none if that text is empty. *)
Lemma push_submits_the_stripped_comment (E : Env) (w w' : World) (text : string) :
  read_path (Local (TICKET_NEW_COMMENT E)) (disk w) = Some text ->
  push E w = (Ok tt, w') ->
  comments_submitted (trace w')
  = comments_submitted (trace w)
      ++ (if Py.is_empty (Py.strip text) then [] else [Py.strip text]).
Proof.
  intros Hread H. unfold push in H. cbv zeta in H.
  inv_bind H as st w1 Hstatus. inv_bind H as file_meta0 w2 Hmeta.
  inv_bind H as file_meta w3 Hupload. inv_bind H as comment w4 Hcomment.
  inv_bind H as u5 w5 Hsend.
  pose proof (respects_Ok same_local _ _ _ _ (status_same_local E) Hstatus) as Hl1.
  pose proof (respects_Ok same_local _ _ _ _ (get_remote_file_metadata_same_local E) Hmeta)
    as Hl2.
  assert (Hl3 : same_local w2 w3).
  { eapply respects_Ok; [|exact Hupload].
    apply respects_for_each; [apply _ | intros; apply upload_file_same_local]. }
  pose proof (respects_Ok same_comments _ _ _ _ (status_same_comments E) Hstatus) as Hc1.
  pose proof (respects_Ok same_comments _ _ _ _ (get_remote_file_metadata_same_comments E)
                Hmeta) as Hc2.
  assert (Hc3 : same_comments w2 w3).
  { eapply respects_Ok; [|exact Hupload].
    apply respects_for_each; [apply _ | intros; apply upload_file_same_comments]. }
  assert (Hread3 : read_path (Local (TICKET_NEW_COMMENT E)) (disk w3) = Some text).
  { unfold read_path, same_local in *. simpl in *. congruence. }
  rewrite (get_new_comment_clear E w3 text Hread3) in Hcomment.
  injection Hcomment as <- <-.
  apply (respects_Ok same_comments _ _ _ _ (push_after_comment_same_comments E st file_meta))
    in H.
  unfold same_comments in *. rewrite H.
  assert (Hsent : comments_submitted (trace w5)
                  = comments_submitted (trace w3)
                      ++ (if Py.is_empty (Py.strip text) then [] else [Py.strip text])).
  { destruct (Py.is_empty (Py.strip text)); simpl in Hsend.
    - apply ret_Ok_inv in Hsend as [_ ->]. simpl.
      rewrite comments_submitted_app. simpl. by rewrite !app_nil_r.
    - inv_bind Hsend as u6 w6 Hlog. inv_bind Hsend as u7 w7 Hjira.
      rewrite bind_get in Hsend. inv_bind Hsend as answer w8 Hrequest.
      apply ret_Ok_inv in Hsend as [_ ->].
      apply (respects_Ok same_comments _ _ _ _ (log_same_comments _ _ _)) in Hlog.
      apply (respects_Ok same_comments _ _ _ _ jira_same_comments) in Hjira.
      apply request_Ok_trace in Hrequest.
      unfold same_comments in *. rewrite Hrequest, comments_submitted_app, Hjira, Hlog.
      simpl. rewrite comments_submitted_app. simpl. by rewrite app_nil_r. }
  rewrite Hsent. congruence.
Qed.

(** Whether it returns or raises, [push] sends no comment for a buffer
    that is empty once stripped. *)
Lemma push_sends_nothing_for_blank_buffer (E : Env) (w : World) (text : string) :
  read_path (Local (TICKET_NEW_COMMENT E)) (disk w) = Some text ->
  Py.strip text = "" ->
  comments_submitted (trace (snd (push E w))) = comments_submitted (trace w).
Proof.
  intros Hread Hblank. change (same_comments w (snd (push E w))).
  unfold push. cbv zeta.
  apply respects_bind_at; [apply _ | apply status_same_comments|].
  intros st w1 Hstatus.
  apply respects_bind_at; [apply _ | apply get_remote_file_metadata_same_comments|].
  intros file_meta0 w2 Hmeta.
  apply respects_bind_at;
    [apply _
    |apply respects_for_each; [apply _ | intros; apply upload_file_same_comments]|].
  intros file_meta w3 Hupload.
  pose proof (respects_Ok same_local _ _ _ _ (status_same_local E) Hstatus) as Hl1.
  pose proof (respects_Ok same_local _ _ _ _ (get_remote_file_metadata_same_local E) Hmeta)
    as Hl2.
  assert (Hl3 : same_local w2 w3).
  { eapply respects_Ok; [|exact Hupload].
    apply respects_for_each; [apply _ | intros; apply upload_file_same_local]. }
  assert (Hread3 : read_path (Local (TICKET_NEW_COMMENT E)) (disk w3) = Some text).
  { unfold read_path, same_local in *. simpl in *. congruence. }
  rewrite (bind_Ok _ _ _ _ _ (get_new_comment_clear E w3 text Hread3)), Hblank.
  simpl (negb _). unfold when at 1. rewrite bind_ret.
  etrans; [|apply (push_after_comment_same_comments E st file_meta)].
  same_comments_base.
Qed.

(** ** The ticket number of a folder *)

Lemma matches_plus_cons a rest c s :
  Re.matches (Re.Plus a :: rest) (String c s)
  = Re.takes a c && (Re.matches (Re.Plus a :: rest) s || Re.matches rest s).
Proof. reflexivity. Qed.

Lemma matches_plus a rest s :
  Re.matches (Re.Plus a :: rest) s = true <->
  exists s1 s2, s = s1 +:+ s2 /\ s1 <> ""
                /\ Py.all_chars (Re.takes a) s1 = true /\ Re.matches rest s2 = true.
Proof.
  induction s as [|c s IH].
  - split; [discriminate|]. intros (s1 & s2 & Hs & Hne & _). by destruct s1.
  - rewrite matches_plus_cons, andb_true_iff, orb_true_iff, IH. split.
    + intros [Hc [(s1 & s2 & -> & Hne & Hall & Hrest)|Hrest]].
      * exists (String c s1), s2. simpl. rewrite Hc, Hall. by repeat split.
      * exists (String c ""), s. simpl. rewrite Hc. by repeat split.
    + intros (s1 & s2 & Hs & Hne & Hall & Hrest).
      destruct s1 as [|c' s1]; [done|]. simpl in Hs, Hall. injection Hs as <- ->.
      apply andb_true_iff in Hall as [Hc Hall]. split; [exact Hc|].
      destruct s1 as [|c'' s1]; [by right|]. left. by exists (String c'' s1), s2.
Qed.

Lemma at_end_spec s : Re.at_end s = true <-> s = "" \/ s = Py.nl.
Proof.
  destruct s as [|c [|d s]]; simpl.
  - split; [by left | done].
  - unfold Py.ascii_eqb. rewrite Ascii.eqb_eq. split.
    + intros ->. by right.
    + intros [|[= ->]]; done.
  - split; [discriminate | by intros [|]].
Qed.

Lemma ticket_number_pattern_spec t :
  Re.matches ticket_number_pattern t = true <-> ticket_number_shape t.
Proof.
  unfold ticket_number_pattern, ticket_number_shape. rewrite matches_plus. split.
  - intros (key & s2 & -> & Hkey & Hword & Hrest).
    destruct s2 as [|c s3]; [discriminate|].
    change (Py.ascii_eqb c "-" && Re.matches [Re.Plus Re.Digit; Re.Dollar] s3 = true) in Hrest.
    apply andb_true_iff in Hrest as [Hc Hrest]. apply Ascii.eqb_eq in Hc as ->.
    apply matches_plus in Hrest as (number & tail & -> & Hnumber & Hdigits & Hend).
    simpl in Hend. rewrite andb_true_r in Hend. apply at_end_spec in Hend.
    by exists key, number, tail.
  - intros (key & number & tail & -> & Hkey & Hword & Hnumber & Hdigits & Htail).
    exists key, ("-" +:+ number +:+ tail). split; [reflexivity|]. split; [exact Hkey|].
    split; [exact Hword|].
    change (Py.ascii_eqb "-" "-"
            && Re.matches [Re.Plus Re.Digit; Re.Dollar] (number +:+ tail) = true).
    apply andb_true_iff. split; [reflexivity|]. apply matches_plus.
    exists number, tail. split; [reflexivity|]. split; [exact Hnumber|].
    split; [exact Hdigits|]. simpl. rewrite andb_true_r. by apply at_end_spec.
Qed.

Lemma infer_ticket_number_Some (path t : string) :
  infer_ticket_number path = Some t <->
  t = Py.upper (List.last (Py.split "/" path) "") /\ ticket_number_shape t.
Proof.
  unfold infer_ticket_number. cbv zeta. rewrite <- ticket_number_pattern_spec.
  destruct (Re.matches ticket_number_pattern (Py.upper (List.last (Py.split "/" path) "")))
    eqn:Hmatch.
  - split.
    + intros [= <-]. by split.
    + by intros [-> _].
  - split; [discriminate|]. intros [-> Hshape]. congruence.
Qed.

(** X1.  [infer_ticket_number] accepts a folder exactly when the last
    component of its path, in upper case, is a key of word characters, a
    hyphen and a number of digits, with at most a newline after it (which
    [$] lets through); the ticket number is that upper-case name.  Any
    other name is refused with [CannotInferTicketNumberFromFolderName]. *)
Theorem infer_ticket_number_spec (path : string) :
  (forall t, infer_ticket_number path = Some t <->
             t = Py.upper (List.last (Py.split "/" path) "") /\ ticket_number_shape t)
  /\ (infer_ticket_number path = None <->
      ~ ticket_number_shape (Py.upper (List.last (Py.split "/" path) ""))).
Proof.
  split; [intros t; apply infer_ticket_number_Some|].
  destruct (infer_ticket_number path) as [t|] eqn:Hinfer.
  - apply infer_ticket_number_Some in Hinfer as [-> Hshape]. split; [discriminate | done].
  - split; [|done]. intros _ Hshape.
    assert (Hsome : infer_ticket_number path
                    = Some (Py.upper (List.last (Py.split "/" path) "")))
      by (by apply infer_ticket_number_Some).
    congruence.
Qed.

Lemma all_chars_app p s1 s2 :
  Py.all_chars p (s1 +:+ s2) = Py.all_chars p s1 && Py.all_chars p s2.
Proof. induction s1 as [|c s1 IH]; simpl; [reflexivity|]. by rewrite IH, andb_assoc. Qed.

Lemma all_chars_impl (p q : ascii -> bool) s :
  (forall c, p c = true -> q c = true) -> Py.all_chars p s = true -> Py.all_chars q s = true.
Proof.
  intros Hpq. induction s as [|c s IH]; simpl; [done|].
  rewrite !andb_true_iff. intros [Hc Hs]. split; [by apply Hpq | by apply IH].
Qed.

Lemma char_in_no_slash s : Py.char_in "/" s = false -> Py.all_chars no_slash s = true.
Proof.
  induction s as [|c s IH]; [done|].
  change (Py.ascii_eqb "/" c || Py.char_in "/" s = false
          -> no_slash c && Py.all_chars no_slash s = true).
  rewrite orb_false_iff. intros [Hc Hs]. apply andb_true_iff. split; [|by apply IH].
  unfold no_slash, Py.ascii_eqb in *. rewrite Ascii.eqb_sym. by rewrite Hc.
Qed.

Lemma split_nonempty sep s : Py.split sep s <> [].
Proof.
  destruct s as [|c s]; simpl; [done|].
  destruct (Py.ascii_eqb c sep); [done|]. by destruct (Py.split sep s).
Qed.

Lemma split_whole s : Py.all_chars no_slash s = true -> Py.split "/" s = [s].
Proof.
  induction s as [|c s IH]; simpl; [done|].
  rewrite andb_true_iff. intros [Hc Hs]. unfold no_slash in Hc.
  apply negb_true_iff in Hc. rewrite Hc, (IH Hs). reflexivity.
Qed.

Lemma split_app sep a b :
  Py.split sep (a +:+ String sep b) = Py.split sep a ++ Py.split sep b.
Proof.
  induction a as [|c a IH]; simpl.
  - unfold Py.ascii_eqb. by rewrite Ascii.eqb_refl.
  - destruct (Py.ascii_eqb c sep); [by rewrite IH|]. rewrite IH.
    pose proof (split_nonempty sep a) as Hne. by destruct (Py.split sep a).
Qed.

Lemma last_component dir name :
  Py.all_chars no_slash name = true ->
  List.last (Py.split "/" (dir +:+ "/" +:+ name)) "" = name.
Proof.
  intros Hname. change (dir +:+ "/" +:+ name) with (dir +:+ String "/" name).
  rewrite split_app, (split_whole name Hname). apply last_last.
Qed.

Lemma upper_char_idemp c : Py.upper_char (Py.upper_char c) = Py.upper_char c.
Proof. by destruct c as [[] [] [] [] [] [] [] []]. Qed.

Lemma upper_idemp s : Py.upper (Py.upper s) = Py.upper s.
Proof. induction s as [|c s IH]; simpl; [done|]. by rewrite IH, upper_char_idemp. Qed.

Lemma upper_no_slash s :
  Py.all_chars no_slash s = true -> Py.all_chars no_slash (Py.upper s) = true.
Proof.
  induction s as [|c s IH]; simpl; [done|].
  rewrite !andb_true_iff. intros [Hc Hs]. split; [|by apply IH].
  revert Hc. by destruct c as [[] [] [] [] [] [] [] []].
Qed.

Lemma ticket_number_shape_no_slash t :
  ticket_number_shape t -> Py.all_chars no_slash t = true.
Proof.
  intros (key & number & tail & -> & _ & Hword & _ & Hdigits & Htail).
  rewrite !all_chars_app, !andb_true_iff. split; [|split; [done|split]].
  - eapply all_chars_impl; [|exact Hword]. intros c. by destruct c as [[] [] [] [] [] [] [] []].
  - eapply all_chars_impl; [|exact Hdigits]. intros c. by destruct c as [[] [] [] [] [] [] [] []].
  - by destruct Htail as [-> | ->].
Qed.

(** X2.  Of the path only the last component counts, and of that not the
    case of its letters; and the ticket number inferred is itself a folder
    name from which the same number is inferred. *)
Theorem infer_ticket_number_of_folder_name (dir name : string) :
  Py.char_in "/" name = false ->
  infer_ticket_number (dir +:+ "/" +:+ name) = infer_ticket_number (Py.upper name)
  /\ forall t, infer_ticket_number (dir +:+ "/" +:+ name) = Some t ->
               infer_ticket_number t = Some t.
Proof.
  intros Hname. apply char_in_no_slash in Hname.
  assert (Hwhole : forall s, Py.all_chars no_slash s = true ->
                             List.last (Py.split "/" s) "" = s).
  { intros s Hs. by rewrite (split_whole s Hs). }
  assert (Hdir : infer_ticket_number (dir +:+ "/" +:+ name)
                 = infer_ticket_number (Py.upper name)).
  { unfold infer_ticket_number. cbv zeta.
    rewrite (last_component dir name Hname), (Hwhole _ (upper_no_slash _ Hname)).
    by rewrite upper_idemp. }
  split; [exact Hdir|].
  intros t Ht. apply infer_ticket_number_Some in Ht as [Ht Hshape].
  rewrite (last_component dir name Hname) in Ht.
  apply infer_ticket_number_Some. split; [|exact Hshape].
  rewrite (Hwhole t (ticket_number_shape_no_slash t Hshape)). subst t.
  by rewrite upper_idemp.
Qed.

Lemma infer_ticket_number_of_folder_name_witness :
  infer_ticket_number ("/home/me" +:+ "/" +:+ "proj-123") = infer_ticket_number (Py.upper "proj-123")
  /\ forall t, infer_ticket_number ("/home/me" +:+ "/" +:+ "proj-123") = Some t ->
               infer_ticket_number t = Some t.
Proof. apply (infer_ticket_number_of_folder_name "/home/me" "proj-123"). reflexivity. Defined.

(** ** Construction *)

(** X3.  When the construction of a [TicketFolder] goes through, the path
    names a folder with a metadata directory and a name a ticket number is
    inferred from, and the folder has a comment buffer.  With
    [migrate=False], the instance carries the inferred number, a buffer
    that was there keeps its text, a missing one is created empty, and
    every other file of the working tree is as it was. *)
Theorem constructed_folder_has_comment_buffer (E : Env) (fuel : nat) (path : string)
        (is_metadata_dir migrate : bool) (w w' : World) :
  __init__ E fuel path is_metadata_dir migrate w = Some (Constructed, w') ->
  is_metadata_dir = true
  /\ is_Some (infer_ticket_number path)
  /\ is_Some (read_path (Local (TICKET_NEW_COMMENT E)) (disk w'))
  /\ (migrate = false ->
      infer_ticket_number path = Some (ticket_number (self w'))
      /\ read_path (Local (TICKET_NEW_COMMENT E)) (disk w')
         = Some (default "" (read_path (Local (TICKET_NEW_COMMENT E)) (disk w)))
      /\ forall name, name <> TICKET_NEW_COMMENT E ->
                      local_files (disk w') !! name = local_files (disk w) !! name).
Proof.
  unfold __init__. destruct is_metadata_dir; simpl; [|discriminate].
  destruct (infer_ticket_number path) as [number|]; [|discriminate].
  intros H. split; [reflexivity|]. split; [by eexists|].
  destruct migrate.
  - destruct (run_migrations E fuel false _) as [[[u|e] w1]|]; [|discriminate..].
    destruct (read_path (Local (TICKET_NEW_COMMENT E)) (disk w1)) as [text|] eqn:Hread;
      injection H as <-.
    + split; [by eexists | discriminate].
    + split; [|discriminate]. unfold read_path. simpl. rewrite lookup_insert_eq. by eexists.
  - destruct (read_path (Local (TICKET_NEW_COMMENT E)) (disk w)) as [text|] eqn:Hread;
      simpl in H; rewrite Hread in H; injection H as <-.
    + split; [by eexists|]. intros _. by repeat split.
    + split; [unfold read_path; simpl; rewrite lookup_insert_eq; by eexists|].
      intros _. split; [reflexivity|]. split.
      * unfold read_path. simpl. by rewrite lookup_insert_eq.
      * intros name Hne. simpl. by rewrite lookup_insert_ne.
Qed.

Lemma constructed_folder_has_comment_buffer_witness :
  exists w',
    __init__ Demo.env 3 "/home/me/proj-123" true true (Demo.world "") = Some (Constructed, w')
    /\ is_Some (read_path (Local (TICKET_NEW_COMMENT Demo.env)) (disk w')).
Proof.
  eexists. split; [vm_compute; reflexivity|].
  eapply (constructed_folder_has_comment_buffer Demo.env 3 "/home/me/proj-123" true true
            (Demo.world "")).
  vm_compute. reflexivity.
Defined.

(** ** merge, pull and sync *)

Lemma git_commands_app t1 t2 : git_commands (t1 ++ t2) = git_commands t1 ++ git_commands t2.
Proof. apply omap_app. Qed.

Lemma tracker_writes_app t1 t2 :
  tracker_writes (t1 ++ t2) = tracker_writes t1 ++ tracker_writes t2.
Proof. apply omap_app. Qed.

(** A command in the working tree: the world it leaves is the one with
    the command logged and recorded. *)
Lemma run_git_command_working args failure_ok w :
  run_git_command args failure_ok false w =
    let w0 := emit (Git false args) (with_disk (append_oplog (git_log_entry args)) w) in
    match outcome (repo w) false args with
    | Some out => (Ok (Some (Py.strip out)), w0)
    | None => if failure_ok then (Ok None, w0) else (Raise CalledProcessError, w0)
    end.
Proof.
  rewrite run_git_command_unfold. cbv zeta. unfold git. simpl.
  by destruct (outcome (repo w) false args).
Qed.

(** X4.  [merge] lets both [git stash] commands fail, but not
    [git merge jira]: when that one exits non-zero, [merge] raises
    [CalledProcessError] and [git stash pop] is not run, so what was
    stashed stays in the stash; otherwise it runs the three commands in
    order and returns. *)
Theorem merge_stops_at_a_failed_git_merge (w : World) :
  match outcome (repo w) false ["merge"; "jira"] with
  | Some _ =>
      fst (merge w) = Ok tt
      /\ git_commands (trace (snd (merge w)))
         = git_commands (trace w)
             ++ [(false, ["stash"; "--include-untracked"]); (false, ["merge"; "jira"]);
                 (false, ["stash"; "pop"])]
  | None =>
      fst (merge w) = Raise CalledProcessError
      /\ git_commands (trace (snd (merge w)))
         = git_commands (trace w)
             ++ [(false, ["stash"; "--include-untracked"]); (false, ["merge"; "jira"])]
  end.
Proof.
  unfold merge, bind. rewrite run_git_command_working. cbv zeta.
  set (w1 := emit _ (with_disk _ w)).
  assert (Hstash : exists r, match outcome (repo w) false ["stash"; "--include-untracked"] with
                             | Some out => (Ok (Some (Py.strip out)), w1)
                             | None => (Ok None, w1)
                             end = (Ok r, w1))
    by (destruct (outcome (repo w) false ["stash"; "--include-untracked"]); by eexists).
  destruct Hstash as [r ->]. rewrite run_git_command_working. cbv zeta.
  change (repo w1) with (repo w).
  destruct (outcome (repo w) false ["merge"; "jira"]) as [out|].
  - rewrite run_git_command_working. cbv zeta.
    destruct (outcome (repo _) false ["stash"; "pop"]); simpl;
      (split; [reflexivity|]); rewrite !git_commands_app, <- !app_assoc; reflexivity.
  - simpl. split; [reflexivity|]. rewrite !git_commands_app, <- !app_assoc. reflexivity.
Qed.

#[local] Instance same_tracker_writes_preorder : PreOrder same_tracker_writes.
Proof.
  split; [done | intros x y z Hxy Hyz; unfold same_tracker_writes in *; congruence].
Qed.

Ltac same_tracker_writes_base :=
  unfold same_tracker_writes; simpl; rewrite ?tracker_writes_app; simpl;
  rewrite ?app_nil_r; reflexivity.

(** The methods [fetch] is made of, down to the steps that change the
    world. *)
Ltac unfold_fetch :=
  unfold pull, merge, fetch, write_field, write_comment, write_block, download;
  unfold_methods.

Lemma pull_same_tracker_writes E : respects same_tracker_writes (pull E).
Proof. unfold_fetch. respects_with same_tracker_writes_base. Qed.

Lemma fetch_trace_grows E : respects trace_grows (fetch E).
Proof. unfold_fetch. respects_with trace_grows_base. Qed.

Lemma push_trace_grows E : respects trace_grows (push E).
Proof. unfold_methods. respects_with trace_grows_base. Qed.

Lemma fetch_Ok_trace E w w1 :
  fetch E w = (Ok tt, w1) ->
  exists before, trace w1 = trace w ++ before ++ [Git true ["push"; "origin"; "jira"]].
Proof.
  rewrite fetch_stretches. intros H.
  assert (Hgrows : forall {A} (m : M A) w a w', respects trace_grows m -> m w = (Ok a, w') ->
                                               trace_grows w w').
  { intros A m wa a wb Hm Hma. by eapply respects_Ok. }
  inv_bind H as metadata wa Hmeta. inv_bind H as changed wb Hchanged.
  inv_bind H as metadata1 wc Hdownloads. inv_bind H as u wd Hrendering.
  unfold fetch_commit in H.
  inv_bind H as r1 we Hadd. inv_bind H as r2 wf Hcommit. inv_bind H as r3 wg Hpush.
  apply ret_Ok_inv in H as [_ ->].
  apply run_git_command_Ok_trace in Hpush.
  assert (Hpre : trace_grows w wf).
  { etrans; [|etrans; [|etrans; [|etrans; [|etrans]]]].
    - eapply Hgrows; [|exact Hmeta]. unfold_methods. respects_with trace_grows_base.
    - eapply Hgrows; [|exact Hchanged]. unfold_methods. respects_with trace_grows_base.
    - eapply Hgrows; [|exact Hdownloads]. unfold fetch_downloads. unfold_fetch.
      respects_with trace_grows_base.
    - eapply Hgrows; [|exact Hrendering]. unfold fetch_rendering. unfold_fetch.
      respects_with trace_grows_base.
    - unfold trace_grows. rewrite (run_git_command_Ok_trace _ _ _ _ _ _ Hadd).
      by apply prefix_app_r.
    - unfold trace_grows. rewrite (run_git_command_Ok_trace _ _ _ _ _ _ Hcommit).
      by apply prefix_app_r. }
  destruct Hpre as [before Hbefore]. exists before. by rewrite Hpush, Hbefore, <- app_assoc.
Qed.

Lemma merge_Ok_trace w w1 :
  merge w = (Ok tt, w1) ->
  trace w1 = trace w ++ [Git false ["stash"; "--include-untracked"];
                         Git false ["merge"; "jira"]; Git false ["stash"; "pop"]].
Proof.
  unfold merge. intros H.
  inv_bind H as r1 wa Hstash. inv_bind H as r2 wb Hmerge. inv_bind H as r3 wc Hpop.
  apply ret_Ok_inv in H as [_ ->].
  apply run_git_command_Ok_trace in Hstash, Hmerge, Hpop.
  rewrite Hpop, Hmerge, Hstash, <- !app_assoc. reflexivity.
Qed.

(** X5.  In [sync], whatever is written to the tracker (an attachment
    deleted or added, a comment, an update of fields) comes after the
    fetch has been pushed to the shadow repository and after
    [git merge jira] has run in the working tree: [pull] writes nothing to
    the tracker, and [push] starts only when [pull] has returned. *)
Theorem sync_writes_to_the_tracker_after_the_merge (E : Env) (w : World)
        (before after : list Event) (r : Request) :
  trace (snd (sync E w)) = trace w ++ before ++ Net r :: after ->
  is_tracker_write r = true ->
  Git true ["push"; "origin"; "jira"] ∈ before /\ Git false ["merge"; "jira"] ∈ before.
Proof.
  intros Htrace Hwrite. unfold sync, bind in Htrace.
  pose proof (pull_same_tracker_writes E w) as Hpull.
  destruct (pull E w) as [[[]|e] w1] eqn:Hw1; simpl in Hpull.
  - unfold pull in Hw1. inv_bind Hw1 as u wf Hfetch. destruct u.
    apply fetch_Ok_trace in Hfetch as [pre Hpre]. apply merge_Ok_trace in Hw1.
    destruct (push_trace_grows E w1) as [post Hpost]. rewrite Hpost in Htrace.
    unfold same_tracker_writes in Hpull.
    rewrite Hw1, Hpre, <- !app_assoc in Htrace, Hpull.
    apply app_inv_head in Htrace.
    rewrite !tracker_writes_app in Hpull. simpl in Hpull. rewrite app_nil_r in Hpull.
    assert (Hnone : tracker_writes pre = []).
    { apply (f_equal length) in Hpull. rewrite length_app in Hpull.
      destruct (tracker_writes pre); [done | simpl in Hpull; lia]. }
    assert (Hpulled : exists mid,
               before = pre ++ [Git true ["push"; "origin"; "jira"];
                                Git false ["stash"; "--include-untracked"];
                                Git false ["merge"; "jira"]; Git false ["stash"; "pop"]] ++ mid).
    { set (done := [Git true ["push"; "origin"; "jira"];
                    Git false ["stash"; "--include-untracked"];
                    Git false ["merge"; "jira"]; Git false ["stash"; "pop"]]) in *.
      rewrite <- ?app_assoc in Htrace.
      change (pre ++ done ++ post = before ++ Net r :: after) in Htrace.
      rewrite app_assoc in Htrace.
      apply app_eq_inv in Htrace as [(k & Hk1 & Hk2)|(k & Hk1 & Hk2)].
      - destruct k as [|e k].
        + exists []. by rewrite app_nil_r in *.
        + exfalso. injection Hk2 as <- _.
          apply (f_equal tracker_writes) in Hk1.
          rewrite !tracker_writes_app, Hnone in Hk1. simpl in Hk1. rewrite Hwrite in Hk1.
          destruct (tracker_writes before); discriminate.
      - exists k. by rewrite Hk1, <- app_assoc. }
    destruct Hpulled as [mid ->]. rewrite !elem_of_app, !elem_of_cons. tauto.
  - exfalso. simpl in Htrace. unfold same_tracker_writes in Hpull. rewrite Htrace in Hpull.
    rewrite !tracker_writes_app in Hpull. simpl in Hpull. rewrite Hwrite in Hpull.
    apply (f_equal length) in Hpull. rewrite !length_app in Hpull. simpl in Hpull. lia.
Qed.

Lemma sync_writes_to_the_tracker_after_the_merge_witness :
  Git true ["push"; "origin"; "jira"]
    ∈ take 18 (trace (snd (sync Demo.env (Demo.world "looks good"))))
  /\ Git false ["merge"; "jira"]
       ∈ take 18 (trace (snd (sync Demo.env (Demo.world "looks good")))).
Proof.
  apply (sync_writes_to_the_tracker_after_the_merge Demo.env (Demo.world "looks good")
           (take 18 (trace (snd (sync Demo.env (Demo.world "looks good")))))
           (drop 19 (trace (snd (sync Demo.env (Demo.world "looks good")))))
           (AddAttachment "PROJ-123" "notes.txt" "my notes")).
  - vm_compute. reflexivity.
  - reflexivity.
Defined.

(** ** What is stored is read back *)

(** X6.  The remote-file metadata that [set_remote_file_metadata] stores
    is what [get_remote_file_metadata] returns afterwards, given that
    [json] loads back what it dumped; storing it changes no other file of
    the shadow tree; and in a folder where it was never stored it reads as
    the empty dict. *)
Theorem remote_file_metadata_reads_back (E : Env) (data : gmap string string) (w : World) :
  json_loads_files E (json_dumps_files E data) = Some data ->
  get_remote_file_metadata E (snd (set_remote_file_metadata E data w))
  = (Ok data, snd (set_remote_file_metadata E data w))
  /\ (forall name, name <> ".jirafs/remote_files.json" ->
        shadow_files (disk (snd (set_remote_file_metadata E data w))) !! name
        = shadow_files (disk w) !! name)
  /\ (shadow_files (disk w) !! ".jirafs/remote_files.json" = None ->
      get_remote_file_metadata E w = (Ok ∅, w)).
Proof.
  intros Hjson. split; [|split].
  - rewrite get_remote_file_metadata_pure. unfold read_metadata. simpl.
    by rewrite lookup_insert_eq, Hjson.
  - intros name Hne. simpl. by rewrite lookup_insert_ne.
  - intros Hnone. rewrite get_remote_file_metadata_pure. unfold read_metadata.
    by rewrite Hnone.
Qed.

Lemma remote_file_metadata_reads_back_witness :
  get_remote_file_metadata Demo.env
    (snd (set_remote_file_metadata Demo.env {[ "spec.pdf" := "T1" ]} (Demo.world "")))
  = (Ok {[ "spec.pdf" := "T1" ]},
     snd (set_remote_file_metadata Demo.env {[ "spec.pdf" := "T1" ]} (Demo.world ""))).
Proof.
  apply (remote_file_metadata_reads_back Demo.env {[ "spec.pdf" := "T1" ]} (Demo.world "")).
  apply demo_json_reads_back.
Defined.

(** X7.  The issue that [store_cached_issue] stores is the one
    [cached_issue] returns on an instance that has not read it yet, in any
    world with that file, given that [json] loads back what it dumped for
    that issue: it is read from the file, kept on the instance, and
    nothing is asked of the tracker. *)
Theorem stored_issue_reads_back (E : Env) (w w1 : World) (i : Issue) :
  json_loads_issue E (json_dumps_issue E i) = Some i ->
  store_cached_issue E w = (Ok tt, w1) ->
  attr_issue (self w1) = Some i ->
  forall w2,
    metadata_files (disk w2) !! "issue.json" = metadata_files (disk w1) !! "issue.json" ->
    attr_cached_issue (self w2) = None ->
    cached_issue E w2 = (Ok i, with_self (set_cached_issue (Some i)) w2).
Proof.
  intros Hjson Hstore Hheld w2 Hfile Hnone. unfold store_cached_issue in Hstore.
  inv_bind Hstore as i0 wa Hissue0. inv_bind Hstore as i1 wb Hissue1.
  apply issue_Ok_memoizes in Hissue1.
  unfold write_file, modify in Hstore. injection Hstore as <-.
  simpl in Hheld, Hfile. rewrite lookup_insert_eq in Hfile.
  assert (i1 = i) as -> by congruence.
  unfold cached_issue, try_except, read_file, bind, get, read_path. simpl.
  rewrite Hnone, Hfile. simpl. by rewrite Hjson.
Qed.

Lemma stored_issue_reads_back_witness :
  cached_issue Demo.env
    (with_self (fun _ => Demo.fresh) (snd (store_cached_issue Demo.env (Demo.world ""))))
  = (Ok Demo.issue_A,
     with_self (set_cached_issue (Some Demo.issue_A))
       (with_self (fun _ => Demo.fresh) (snd (store_cached_issue Demo.env (Demo.world ""))))).
Proof.
  apply (stored_issue_reads_back Demo.env (Demo.world "")
           (snd (store_cached_issue Demo.env (Demo.world ""))) Demo.issue_A); reflexivity.
Defined.

(** ** What status reports *)

Lemma file_matches_globs_false E fname ignore_globs :
  file_matches_globs E fname ignore_globs = false <->
  forall glob, glob ∈ ignore_globs -> fnmatch E fname glob = false.
Proof.
  unfold file_matches_globs. split.
  - intros Hnone glob Hin. destruct (fnmatch E fname glob) eqn:Hmatch; [|reflexivity].
    rewrite <- Hnone. symmetry. apply existsb_exists. exists glob.
    split; [by apply list_elem_of_In | exact Hmatch].
  - intros Hall. destruct (existsb (fnmatch E fname) ignore_globs) eqn:Hsome; [|reflexivity].
    apply existsb_exists in Hsome as (glob & Hin & Hmatch).
    apply list_elem_of_In in Hin. by rewrite (Hall glob Hin) in Hmatch.
Qed.

Lemma ignored_by_iff E which w glob :
  ignored_by E which w glob <-> glob ∈ ignore_globs_in E which w.
Proof. unfold ignored_by, ignore_globs_in. rewrite !elem_of_app. tauto. Qed.

(** [get_locally_changed], with git listing [new] and [modified]. *)
Lemma get_locally_changed_lists E w new modified :
  outcome (repo w) false ["ls-files"; "-o"] = Some new ->
  outcome (repo w) false ["ls-files"; "-m"] = Some modified ->
  exists w',
    get_locally_changed E w =
      (Ok (filter
             (fun filename =>
                negb (file_matches_globs E filename (ignore_globs_in E (IGNORE_FILE E) w))
                && bool_decide (is_Some (local_files (disk w) !! filename))
                && negb (Py.startswith "." filename) = true)
             (filter (fun filename => negb (Py.is_empty filename) = true)
                     (Py.split_lines (Py.strip new) ++ Py.split_lines (Py.strip modified)))),
       w').
Proof.
  intros Hnew Hmodified. unfold get_locally_changed.
  rewrite (bind_Ok _ _ _ _ _ (get_ignore_globs_spec E (IGNORE_FILE E) w)).
  unfold bind at 1. rewrite run_git_command_working. cbv zeta. rewrite Hnew.
  unfold split_output at 1. rewrite bind_ret.
  unfold bind at 1. rewrite run_git_command_working. cbv zeta.
  simpl (repo _). rewrite Hmodified.
  unfold split_output. rewrite bind_ret, bind_get. eexists. reflexivity.
Qed.

(** X8.  With git listing the untracked and the modified files,
    [get_locally_changed] returns (and so [status] reports as
    [to_upload]) exactly the listed names that are not empty, name a file
    of the working tree, do not start with a dot and match no ignore
    glob. *)
Theorem locally_changed_is_what_git_lists (E : Env) (w : World) (new modified : string) :
  outcome (repo w) false ["ls-files"; "-o"] = Some new ->
  outcome (repo w) false ["ls-files"; "-m"] = Some modified ->
  exists l w',
    get_locally_changed E w = (Ok l, w')
    /\ forall name,
        name ∈ l <->
        (name ∈ Py.split_lines (Py.strip new) \/ name ∈ Py.split_lines (Py.strip modified))
        /\ name <> ""
        /\ is_Some (local_files (disk w) !! name)
        /\ Py.startswith "." name = false
        /\ forall glob, ignored_by E (IGNORE_FILE E) w glob -> fnmatch E name glob = false.
Proof.
  intros Hnew Hmodified.
  destruct (get_locally_changed_lists E w new modified Hnew Hmodified) as [w' Hw'].
  eexists _, w'. split; [exact Hw'|]. intros name.
  rewrite !list_elem_of_filter, elem_of_app, !andb_true_iff, !negb_true_iff,
    bool_decide_eq_true, file_matches_globs_false.
  assert (Hempty : Py.is_empty name = false <-> name <> "") by (by destruct name).
  rewrite Hempty. setoid_rewrite ignored_by_iff. tauto.
Qed.

Lemma locally_changed_is_what_git_lists_witness :
  exists l w',
    get_locally_changed Demo.env (Demo.world "") = (Ok l, w')
    /\ forall name,
        name ∈ l <->
        (name ∈ Py.split_lines (Py.strip ("notes.txt" +:+ Py.nl +:+ "debug.log" +:+ Py.nl))
         \/ name ∈ Py.split_lines (Py.strip ""))
        /\ name <> ""
        /\ is_Some (local_files (disk (Demo.world "")) !! name)
        /\ Py.startswith "." name = false
        /\ forall glob, ignored_by Demo.env (IGNORE_FILE Demo.env) (Demo.world "") glob ->
                        fnmatch Demo.env name glob = false.
Proof.
  apply (locally_changed_is_what_git_lists Demo.env (Demo.world "")); reflexivity.
Defined.

(** X9.  [get_locally_changed] runs [git ls-files] with [failure_ok], and
    then splits what it returned: when either listing exits non-zero there
    is nothing to split, and [get_locally_changed], [status] and [push]
    raise [AttributeError]. *)
Theorem status_fails_when_git_cannot_list (E : Env) (w : World) :
  outcome (repo w) false ["ls-files"; "-o"] = None
  \/ outcome (repo w) false ["ls-files"; "-m"] = None ->
  fst (get_locally_changed E w) = Raise AttributeError
  /\ fst (status E w) = Raise AttributeError
  /\ fst (push E w) = Raise AttributeError.
Proof.
  intros Hfails.
  assert (Hchanged : exists w', get_locally_changed E w = (Raise AttributeError, w')).
  { unfold get_locally_changed.
    rewrite (bind_Ok _ _ _ _ _ (get_ignore_globs_spec E (IGNORE_FILE E) w)).
    unfold bind at 1. rewrite run_git_command_working. cbv zeta.
    destruct (outcome (repo w) false ["ls-files"; "-o"]) as [new|] eqn:Hnew.
    - destruct Hfails as [|Hmodified]; [done|].
      unfold split_output at 1. rewrite bind_ret.
      unfold bind at 1. rewrite run_git_command_working. cbv zeta.
      simpl (repo _). rewrite Hmodified. eexists. reflexivity.
    - eexists. reflexivity. }
  destruct Hchanged as [w' Hchanged].
  assert (Hstatus : status E w = (Raise AttributeError, w')).
  { unfold status. by rewrite (bind_Raise _ _ _ _ _ Hchanged). }
  split; [by rewrite Hchanged|]. split; [by rewrite Hstatus|].
  unfold push. by rewrite (bind_Raise _ _ _ _ _ Hstatus).
Qed.

Lemma status_fails_when_git_cannot_list_witness :
  fst (get_locally_changed Demo.env Demo.git_down)
  = Raise AttributeError
  /\ fst (status Demo.env Demo.git_down)
     = Raise AttributeError
  /\ fst (push Demo.env Demo.git_down)
     = Raise AttributeError.
Proof.
  apply (status_fails_when_git_cannot_list Demo.env Demo.git_down).
  left. reflexivity.
Defined.

(** X10.  When [get_remotely_changed] returns, the names it returns are
    exactly those of the attachments of the issue that match no remote
    ignore glob and whose [created] token is not the one the remote-file
    metadata records under their name (none recorded counts as another
    token). *)
Theorem remotely_changed_is_what_differs (E : Env) (w w' : World) (l : list string) :
  get_remotely_changed E w = (Ok l, w') ->
  exists i metadata,
    attr_issue (self w') = Some i
    /\ fst (get_remote_file_metadata E w) = Ok metadata
    /\ forall name,
        name ∈ l <->
        exists a, a ∈ attachment i /\ filename a = name
                  /\ (forall glob, ignored_by E (REMOTE_IGNORE_FILE E) w glob ->
                                   fnmatch E name glob = false)
                  /\ metadata !! name <> Some (created a).
Proof.
  rewrite get_remotely_changed_unfold, get_remote_file_metadata_pure. simpl.
  destruct (read_metadata E (shadow_files (disk w))) as [metadata|e]; [|discriminate].
  intros H. inv_bind H as i w1 Hissue. apply ret_Ok_inv in H as [-> ->].
  exists i, metadata. split; [by eapply issue_Ok_memoizes|]. split; [reflexivity|].
  intros name. rewrite changed_names_elem.
  setoid_rewrite file_matches_globs_false. setoid_rewrite ignored_by_iff. reflexivity.
Qed.

Lemma remotely_changed_is_what_differs_witness :
  exists i metadata,
    attr_issue (self (snd (get_remotely_changed Demo.env (Demo.world "")))) = Some i
    /\ fst (get_remote_file_metadata Demo.env (Demo.world "")) = Ok metadata
    /\ forall name,
        name ∈ ["spec.pdf"] <->
        exists a, a ∈ attachment i /\ filename a = name
                  /\ (forall glob,
                         ignored_by Demo.env (REMOTE_IGNORE_FILE Demo.env) (Demo.world "") glob ->
                         fnmatch Demo.env name glob = false)
                  /\ metadata !! name <> Some (created a).
Proof.
  apply (remotely_changed_is_what_differs Demo.env (Demo.world "")).
  vm_compute. reflexivity.
Defined.

#[local] Instance only_ran_git_preorder : PreOrder only_ran_git.
Proof.
  split.
  - intros w. repeat split; try reflexivity.
    + exists []. by rewrite app_nil_r.
    + exists []. by rewrite app_nil_r.
  - intros x y z (Hl1 & Hm1 & Hs1 & Hh1 & Hr1 & Ht1 & Hi1 & Hc1 & (t1 & Ht1' & Hg1)
                  & (o1 & Ho1 & Hd1))
                 (Hl2 & Hm2 & Hs2 & Hh2 & Hr2 & Ht2 & Hi2 & Hc2 & (t2 & Ht2' & Hg2)
                  & (o2 & Ho2 & Hd2)).
    repeat split; try congruence.
    + exists (t1 ++ t2). split; [by rewrite Ht2', Ht1', app_assoc | by apply Forall_app_2].
    + exists (o1 ++ o2). split; [by rewrite Ho2, Ho1, app_assoc | by apply Forall_app_2].
Qed.

Lemma run_git_command_only_ran_git args failure_ok :
  respects only_ran_git (run_git_command args failure_ok false).
Proof.
  intros w. rewrite run_git_command_working. cbv zeta.
  assert (Hstep : only_ran_git w
                    (emit (Git false args) (with_disk (append_oplog (git_log_entry args)) w))).
  { repeat split; simpl.
    - exists [Git false args]. split; [reflexivity | by repeat constructor].
    - exists [git_log_entry args]. split; [reflexivity | by repeat constructor]. }
  destruct (outcome (repo w) false args); [exact Hstep|]. by destruct failure_ok.
Qed.

Lemma status_only_ran_git E : respects only_ran_git (status E).
Proof.
  unfold status, get_locally_changed, get_local_differing_fields, get_local_fields,
    get_original_values, git_merge_base, get_new_comment, get_ignore_globs, globs_of,
    split_output, read_file.
  repeat first
    [ apply run_git_command_only_ran_git
    | progress respects_with ltac:(fail) ].
Qed.

(** X11.  [status] only looks: whether it returns or raises, it has run
    git commands in the working tree and logged them, and nothing else.
    No file of the working tree, the metadata or the shadow tree has
    changed (the comment buffer is not emptied), nothing was asked of the
    tracker, nothing was printed, and the instance is as it was. *)
Theorem status_changes_nothing (E : Env) (w : World) : only_ran_git w (snd (status E w)).
Proof. apply status_only_ran_git. Qed.

(** ** Logging and git commands *)

(** X12.  A message that formats is always written to the operation log.
    Below [INFO] that is all [log] does.  From [INFO] on it then reads the
    [issue] property to print the line: it returns once the line is
    printed, and when the issue cannot be read (the tracker is down and
    the instance holds no issue) it raises what [issue] raises, with the
    line in the operation log and nothing printed. *)
Theorem log_prints_with_the_issue (message : string) (arguments : option (list pyval))
        (level : Level) (w : World) :
  Format.format_error message (args (log_entry message arguments level)) = None ->
  (level_number level < level_number INFO ->
   log message arguments level w
   = (Ok tt, with_disk (append_oplog (log_entry message arguments level)) w))
  /\ (level_number INFO <= level_number level ->
      match issue w with
      | (Ok _, w1) =>
          log message arguments level w
          = (Ok tt, show (log_entry message arguments level)
                      (with_disk (append_oplog (log_entry message arguments level)) w1))
      | (Raise e, w1) =>
          log message arguments level w
          = (Raise e, with_disk (append_oplog (log_entry message arguments level)) w1)
      end).
Proof.
  intros Hfmt. rewrite log_Ok_unfold by exact Hfmt. cbv zeta.
  fold (log_entry message arguments level). split.
  - intros Hlt. by rewrite (proj2 (Z.leb_gt _ _) Hlt).
  - intros Hle. rewrite (proj2 (Z.leb_le _ _) Hle). unfold bind.
    rewrite issue_with_disk. by destruct (issue w) as [[i|e] w1].
Qed.

Lemma log_prints_with_the_issue_witness :
  (level_number INFO < level_number INFO ->
   log "Ticket folder ready" None INFO
     Demo.tracker_down
   = (Ok tt, with_disk (append_oplog (log_entry "Ticket folder ready" None INFO))
               Demo.tracker_down))
  /\ (level_number INFO <= level_number INFO ->
      match issue Demo.tracker_down with
      | (Ok _, w1) =>
          log "Ticket folder ready" None INFO
            Demo.tracker_down
          = (Ok tt, show (log_entry "Ticket folder ready" None INFO)
                      (with_disk (append_oplog (log_entry "Ticket folder ready" None INFO)) w1))
      | (Raise e, w1) =>
          log "Ticket folder ready" None INFO
            Demo.tracker_down
          = (Raise e, with_disk (append_oplog (log_entry "Ticket folder ready" None INFO)) w1)
      end).
Proof.
  apply (log_prints_with_the_issue "Ticket folder ready" None INFO
           Demo.tracker_down).
  reflexivity.
Defined.

(** X13.  [run_git_command] writes the command to the operation log, at
    [DEBUG], before it runs it, and asks nothing of the tracker.  With
    [failure_ok] it never raises, and returns [None] for a command that
    exits non-zero; without, it raises [CalledProcessError] for such a
    command, and nothing else.  So [get_local_file_at_revision], which
    runs [git show] with [failure_ok] unless told otherwise, returns the
    file's text stripped, or [None] where git cannot show it. *)
Theorem run_git_command_raises_unless_failure_ok (args : list string)
        (failure_ok shadow : bool) (w : World) :
  oplog (disk (snd (run_git_command args failure_ok shadow w)))
  = oplog (disk w) ++ [git_log_entry args]
  /\ trace (snd (run_git_command args failure_ok shadow w)) = trace w ++ [Git shadow args]
  /\ match fst (run_git_command args failure_ok shadow w) with
     | Ok (Some _) => is_Some (outcome (repo w) shadow args)
     | Ok None => failure_ok = true
     | Raise e => e = CalledProcessError /\ failure_ok = false
     end
  /\ forall path revision,
      fst (get_local_file_at_revision path revision true w)
      = Ok (Py.strip <$> outcome (repo w) false ["show"; revision +:+ ":" +:+ path]).
Proof.
  assert (Hshow : forall path revision,
             fst (get_local_file_at_revision path revision true w)
             = Ok (Py.strip <$> outcome (repo w) false ["show"; revision +:+ ":" +:+ path])).
  { intros path revision. unfold get_local_file_at_revision.
    rewrite run_git_command_working. cbv zeta.
    by destruct (outcome (repo w) false ["show"; revision +:+ ":" +:+ path]). }
  rewrite run_git_command_unfold. cbv zeta. fold (git_log_entry args).
  set (w0 := emit (Git shadow args) (with_disk (append_oplog (git_log_entry args)) w)).
  destruct (git_with_repo shadow args w0) as [f Hf].
  assert (Hout : is_Some (fst (git shadow args w0)) -> is_Some (outcome (repo w) shadow args)).
  { unfold git. change (repo w0) with (repo w).
    destruct (outcome (repo w) shadow args); [by eexists | by intros [? [=]]]. }
  destruct (git shadow args w0) as [[out|] w1]; simpl in Hf, Hout; subst w1.
  - repeat split; [by apply Hout | apply Hshow].
  - destruct failure_ok; repeat split; apply Hshow.
Qed.

(** ** What fetch leaves *)

#[local] Instance reads_tracker_only_preorder : PreOrder reads_tracker_only.
Proof.
  split; [done|].
  intros x y z (H1 & H2 & H3) (H4 & H5 & H6). unfold reads_tracker_only. repeat split; congruence.
Qed.

Ltac reads_tracker_only_base :=
  unfold reads_tracker_only; simpl; rewrite ?tracker_writes_app; simpl;
  rewrite ?app_nil_r; done.

Lemma fetch_reads_tracker_only E : respects reads_tracker_only (fetch E).
Proof. unfold_fetch. respects_with reads_tracker_only_base. Qed.

(** X14.  [fetch] only reads from the tracker: whether it returns or
    raises, it has deleted or added no attachment, sent no comment and
    updated no field; and it has changed no file of the working tree and
    none of the user's home. *)
Theorem fetch_only_reads_from_the_tracker (E : Env) (w : World) :
  tracker_writes (trace (snd (fetch E w))) = tracker_writes (trace w)
  /\ local_files (disk (snd (fetch E w))) = local_files (disk w)
  /\ home_files (disk (snd (fetch E w))) = home_files (disk w).
Proof. apply fetch_reads_tracker_only. Qed.

(** A fetch that returned: the metadata it read, the metadata it left, and
    how the two differ. *)
Lemma fetch_Ok_records E w w1 :
  (forall data, json_loads_files E (json_dumps_files E data) = Some data) ->
  metadata_file_apart E ->
  fetch E w = (Ok tt, w1) ->
  exists i metadata metadata1,
    attr_issue (self w1) = Some i
    /\ read_metadata E (shadow_files (disk w)) = Ok metadata
    /\ read_metadata E (shadow_files (disk w1)) = Ok metadata1
    /\ ignore_globs_in E (REMOTE_IGNORE_FILE E) w1 = ignore_globs_in E (REMOTE_IGNORE_FILE E) w
    /\ forall k,
        metadata1 !! k
        = match downloaded
                  (changed_names E (ignore_globs_in E (REMOTE_IGNORE_FILE E) w) metadata i)
                  (attachment i) k with
          | Some a => Some (created a)
          | None => metadata !! k
          end.
Proof.
  intros Hjson Hapart H.
  destruct (fetch_Ok_inv E w w1 H)
    as (i & metadata & metadata1 & ops1 & r1
        & Hmeta & Hresult1 & Hshadow1 & Hcommit1 & Hrepo1 & Hsettled1 & Hlocal & Hhome).
  exists i, metadata, metadata1. split; [apply Hsettled1|]. split; [exact Hmeta|].
  split; [|split].
  - unfold read_metadata.
    rewrite Hshadow1, apply_writes_lookup, written_app, rendering_writes_metadata by done.
    by rewrite Hjson.
  - by apply ignore_globs_in_files.
  - intros k. apply (downloads_spec _ _ _ _ _ _ Hresult1).
Qed.

Lemma last_named_Some fname l a :
  last_named fname l = Some a -> a ∈ l /\ filename a = fname.
Proof.
  unfold last_named. intros H. apply last_Some_elem_of in H.
  by apply list_elem_of_filter in H as [Hname Hin].
Qed.

Lemma last_named_is_Some fname l a :
  a ∈ l -> filename a = fname -> is_Some (last_named fname l).
Proof.
  intros Hin Hname. unfold last_named.
  destruct (last (filter (fun a => filename a = fname) l)) as [b|] eqn:Hlast; [by eexists|].
  apply last_None in Hlast. exfalso.
  eapply (filter_nil_not_elem_of _ _ a Hlast); [exact Hname | exact Hin].
Qed.

(** X15.  After a fetch that returned, the remote-file metadata records,
    for every attachment name that matches no remote ignore glob, the
    [created] token of the last attachment of that name, given that [json]
    loads back what it dumped and that the metadata file is none of the
    files the issue is rendered into. *)
Theorem fetch_records_the_last_token (E : Env) (w w1 : World) (i : Issue)
        (name : string) (a : Attachment) :
  (forall data, json_loads_files E (json_dumps_files E data) = Some data) ->
  metadata_file_apart E ->
  fetch E w = (Ok tt, w1) ->
  attr_issue (self w1) = Some i ->
  last_named name (attachment i) = Some a ->
  (forall glob, ignored_by E (REMOTE_IGNORE_FILE E) w glob -> fnmatch E name glob = false) ->
  exists metadata1,
    get_remote_file_metadata E w1 = (Ok metadata1, w1)
    /\ metadata1 !! name = Some (created a).
Proof.
  intros Hjson Hapart H Hheld Hlast Hglobs.
  destruct (fetch_Ok_records E w w1 Hjson Hapart H)
    as (i' & metadata & metadata1 & Hi & Hmeta & Hmeta1 & _ & Hspec).
  assert (i' = i) as -> by congruence.
  exists metadata1. split; [by rewrite get_remote_file_metadata_pure, Hmeta1|].
  rewrite Hspec. unfold downloaded. case_decide as Hchanged; [by rewrite Hlast|].
  destruct (decide (metadata !! name = Some (created a))) as [|Hne]; [done|].
  exfalso. apply Hchanged. apply changed_names_elem. exists a.
  destruct (last_named_Some _ _ _ Hlast) as [Hin Hname].
  split; [exact Hin|]. split; [exact Hname|]. split; [|exact Hne].
  apply file_matches_globs_false. intros glob Hglob. apply Hglobs. by apply ignored_by_iff.
Qed.

Lemma fetch_records_the_last_token_witness :
  exists metadata1,
    get_remote_file_metadata Demo.env (snd (fetch Demo.env (Demo.world "")))
    = (Ok metadata1, snd (fetch Demo.env (Demo.world "")))
    /\ metadata1 !! "spec.pdf" = Some (created Demo.spec_pdf).
Proof.
  apply (fetch_records_the_last_token Demo.env (Demo.world "")
           (snd (fetch Demo.env (Demo.world ""))) Demo.issue_A "spec.pdf" Demo.spec_pdf).
  - exact demo_json_reads_back.
  - exact demo_metadata_file_apart.
  - vm_compute. reflexivity.
  - vm_compute. reflexivity.
  - vm_compute. reflexivity.
  - intros glob [Hglob|[Hglob|Hglob]]; vm_compute in Hglob;
      repeat (apply elem_of_cons in Hglob as [->|Hglob]; [reflexivity|]);
      by apply elem_of_nil in Hglob.
Defined.

(** X16.  After a fetch that returned, on an issue where attachments of
    the same name carry the same [created] token, nothing counts as
    remotely changed: [get_remotely_changed] returns the empty list, so
    the next fetch downloads nothing. *)
Theorem fetch_leaves_nothing_to_download (E : Env) (w w1 : World) (i : Issue) :
  (forall data, json_loads_files E (json_dumps_files E data) = Some data) ->
  metadata_file_apart E ->
  fetch E w = (Ok tt, w1) ->
  attr_issue (self w1) = Some i ->
  (forall a b, a ∈ attachment i -> b ∈ attachment i ->
               filename a = filename b -> created a = created b) ->
  get_remotely_changed E w1 = (Ok [], w1).
Proof.
  intros Hjson Hapart H Hheld Hsame.
  destruct (fetch_Ok_records E w w1 Hjson Hapart H)
    as (i' & metadata & metadata1 & Hi & Hmeta & Hmeta1 & Hglobs & Hspec).
  assert (i' = i) as -> by congruence.
  rewrite get_remotely_changed_unfold, Hmeta1, (bind_Ok _ _ _ i w1)
    by (by apply issue_memoized).
  rewrite Hglobs. unfold ret. f_equal. f_equal. apply elem_of_nil_inv. intros k Hin.
  pose proof (changed_names_again E (ignore_globs_in E (REMOTE_IGNORE_FILE E) w) i
                metadata metadata1 Hspec k Hin) as Hbefore.
  apply changed_names_elem in Hin as (a & Ha & Hname & _ & Hchanged).
  apply Hchanged. rewrite Hspec. unfold downloaded. rewrite decide_True by done.
  destruct (last_named_is_Some k (attachment i) a Ha Hname) as [b Hb]. rewrite Hb.
  destruct (last_named_Some _ _ _ Hb) as [Hbin Hbname].
  f_equal. apply Hsame; congruence.
Qed.

Lemma demo_same_token a b :
  a ∈ attachment Demo.issue_A -> b ∈ attachment Demo.issue_A ->
  filename a = filename b -> created a = created b.
Proof.
  simpl. rewrite !elem_of_cons, !elem_of_nil.
  intros [->|[->|[]]] [->|[->|[]]]; simpl; done.
Qed.

Lemma fetch_leaves_nothing_to_download_witness :
  get_remotely_changed Demo.env (snd (fetch Demo.env (Demo.world "")))
  = (Ok [], snd (fetch Demo.env (Demo.world ""))).
Proof.
  apply (fetch_leaves_nothing_to_download Demo.env (Demo.world "")
           (snd (fetch Demo.env (Demo.world ""))) Demo.issue_A).
  - exact demo_json_reads_back.
  - exact demo_metadata_file_apart.
  - vm_compute. reflexivity.
  - vm_compute. reflexivity.
  - exact demo_same_token.
Defined.

(** X17.  Two attachments of the same name with different [created]
    tokens never settle: the metadata keeps one token per name, so after
    every fetch that returned, that name (when no remote ignore glob
    matches it) is still among the remotely changed ones, and the next
    fetch downloads it again. *)
Theorem fetch_never_settles_same_named_attachments (E : Env) (w w1 : World) (i : Issue)
        (a b : Attachment) :
  (forall data, json_loads_files E (json_dumps_files E data) = Some data) ->
  metadata_file_apart E ->
  fetch E w = (Ok tt, w1) ->
  attr_issue (self w1) = Some i ->
  a ∈ attachment i -> b ∈ attachment i ->
  filename a = filename b -> created a <> created b ->
  (forall glob, ignored_by E (REMOTE_IGNORE_FILE E) w glob ->
                fnmatch E (filename a) glob = false) ->
  exists l, get_remotely_changed E w1 = (Ok l, w1) /\ filename a ∈ l.
Proof.
  intros Hjson Hapart H Hheld Ha Hb Hname Htokens Hnot_ignored.
  destruct (fetch_Ok_records E w w1 Hjson Hapart H)
    as (i' & metadata & metadata1 & Hi & Hmeta & Hmeta1 & Hglobs & Hspec).
  assert (i' = i) as -> by congruence.
  rewrite get_remotely_changed_unfold, Hmeta1, (bind_Ok _ _ _ i w1)
    by (by apply issue_memoized).
  rewrite Hglobs. eexists. split; [reflexivity|].
  assert (Hfree : file_matches_globs E (filename a)
                    (ignore_globs_in E (REMOTE_IGNORE_FILE E) w) = false).
  { apply file_matches_globs_false. intros glob Hglob. apply Hnot_ignored.
    by apply ignored_by_iff. }
  destruct (decide (metadata1 !! filename a = Some (created a))) as [Hrecorded|Hother].
  - apply changed_names_elem. exists b. split; [exact Hb|]. split; [by symmetry|].
    split; [exact Hfree|]. congruence.
  - apply changed_names_elem. by exists a.
Qed.

Lemma fetch_never_settles_same_named_attachments_witness :
  exists l,
    get_remotely_changed Demo.env (snd (fetch Demo.env Demo.serving_C))
    = (Ok l, snd (fetch Demo.env Demo.serving_C))
    /\ "a.txt" ∈ l.
Proof.
  apply (fetch_never_settles_same_named_attachments Demo.env Demo.serving_C
           (snd (fetch Demo.env Demo.serving_C)) Demo.issue_C
           {| filename := "a.txt"; created := "T1" |}
           {| filename := "a.txt"; created := "T2" |}).
  - exact demo_json_reads_back.
  - exact demo_metadata_file_apart.
  - vm_compute. reflexivity.
  - vm_compute. reflexivity.
  - left.
  - right. left.
  - reflexivity.
  - discriminate.
  - intros glob [Hglob|[Hglob|Hglob]]; vm_compute in Hglob;
      repeat (apply elem_of_cons in Hglob as [->|Hglob]; [reflexivity|]);
      by apply elem_of_nil in Hglob.
Defined.

(** *** The files the issue is rendered into *)

Lemma append_assoc (s1 s2 s3 : string) : (s1 +:+ s2) +:+ s3 = s1 +:+ s2 +:+ s3.
Proof.
  induction s1 as [|c s1 IH]; [reflexivity|].
  change (String c ((s1 +:+ s2) +:+ s3) = String c (s1 +:+ s2 +:+ s3)). by rewrite IH.
Qed.

Lemma append_nil_r (s : string) : s +:+ "" = s.
Proof.
  induction s as [|c s IH]; [reflexivity|].
  change (String c (s +:+ "") = String c s). by rewrite IH.
Qed.

Lemma join_app l1 l2 : join (l1 ++ l2) = join l1 +:+ join l2.
Proof.
  induction l1 as [|x l1 IH]; simpl; [reflexivity|]. by rewrite IH, append_assoc.
Qed.

Lemma written_cons k o ops x : written k (o :: ops) x = written k ops (write_to k x o).
Proof. reflexivity. Qed.

Lemma write_to_Add k s data : write_to k (Some s) (Add k data) = Some (s +:+ data).
Proof. simpl. by rewrite decide_True. Qed.

Lemma write_to_Put k x data : write_to k x (Put k data) = Some data.
Proof. simpl. by rewrite decide_True. Qed.

Lemma written_lines k (g : string -> string) lines s :
  written k (concat ((fun line => [Add k (g line)]) <$> lines)) (Some s)
  = Some (s +:+ join (g <$> lines)).
Proof.
  revert s. induction lines as [|line lines IH]; intros s; simpl.
  - by rewrite append_nil_r.
  - change (written k (Add k (g line) :: concat ((fun line => [Add k (g line)]) <$> lines))
                    (Some s)
            = Some (s +:+ g line +:+ join (g <$> lines))).
    by rewrite written_cons, write_to_Add, IH, append_assoc.
Qed.

Lemma written_block k header text s :
  written k (block_writes k header text) (Some s) = Some (s +:+ block_text header text).
Proof.
  unfold block_writes, block_text. rewrite !written_app.
  change (written k [Add k (header +:+ "::" +:+ Py.nl +:+ Py.nl)] (Some s))
    with (write_to k (Some s) (Add k (header +:+ "::" +:+ Py.nl +:+ Py.nl))).
  rewrite write_to_Add, (written_lines k (fun line => "    " +:+ line +:+ Py.nl)).
  change (written k [Add k Py.nl] ?x) with (write_to k x (Add k Py.nl)).
  rewrite write_to_Add. f_equal. rewrite !append_assoc. reflexivity.
Qed.

Lemma render_field_OwnFile E field value text :
  render_field E field value = OwnFile text -> field ∈ FILE_FIELDS E.
Proof.
  unfold render_field. destruct value as [|s|obj]; simpl; repeat case_bool_decide; done.
Qed.

Lemma written_field E i field s :
  (forall f, f ∈ FILE_FIELDS E -> TICKET_FILE_FIELD_TEMPLATE E f <> TICKET_DETAILS E) ->
  written (TICKET_DETAILS E) (field_writes E i field) (Some s)
  = Some (s +:+ field_text E i field).
Proof.
  intros Hfiles. unfold field_writes, field_text.
  destruct (raw_fields i !! field) as [value|]; [|by rewrite append_nil_r].
  destruct (render_field E field value) as [|text|text] eqn:Hrender.
  - by rewrite append_nil_r.
  - rewrite written_untouched, append_nil_r; [reflexivity|].
    pose proof (Hfiles field (render_field_OwnFile _ _ _ _ Hrender)).
    by repeat constructor.
  - apply written_block.
Qed.

Lemma written_fields E i fields s :
  (forall f, f ∈ FILE_FIELDS E -> TICKET_FILE_FIELD_TEMPLATE E f <> TICKET_DETAILS E) ->
  written (TICKET_DETAILS E) (concat (field_writes E i <$> fields)) (Some s)
  = Some (s +:+ join (field_text E i <$> fields)).
Proof.
  intros Hfiles. revert s. induction fields as [|field fields IH]; intros s; simpl.
  - by rewrite append_nil_r.
  - by rewrite written_app, written_field, IH, append_assoc.
Qed.

Lemma written_comments E (l : list Comment) s :
  written (TICKET_COMMENTS E) (concat (comment_writes E <$> l)) (Some s)
  = Some (s +:+ join ((fun c => block_text (comment_created c +:+ ": " +:+ author c) (body c))
                        <$> l)).
Proof.
  revert s. induction l as [|c l IH]; intros s.
  - simpl. by rewrite append_nil_r.
  - change (written (TICKET_COMMENTS E)
              (comment_writes E c ++ concat (comment_writes E <$> l)) (Some s)
            = Some (s +:+ block_text (comment_created c +:+ ": " +:+ author c) (body c)
                      +:+ join ((fun c => block_text (comment_created c +:+ ": " +:+ author c)
                                                     (body c)) <$> l))).
    rewrite written_app.
    change (comment_writes E c)
      with (block_writes (TICKET_COMMENTS E) (comment_created c +:+ ": " +:+ author c) (body c)).
    by rewrite written_block, IH, append_assoc.
Qed.

(** X18.  After a fetch that returned, the comments file of the shadow
    tree holds one block for each comment of the issue, in the order the
    tracker gave them; and the details file holds one block for each field
    of the issue that goes there, in the sorted order of the field names
    (this when the details file is neither the comments file nor the file
    of a file field).  A block is the header followed by [::], a blank
    line, the lines of the text indented by four spaces, and a blank
    line. *)
Theorem fetch_renders_the_issue (E : Env) (w w1 : World) (i : Issue) :
  fetch E w = (Ok tt, w1) ->
  attr_issue (self w1) = Some i ->
  shadow_files (disk w1) !! TICKET_COMMENTS E = Some (comments_text i)
  /\ (TICKET_COMMENTS E <> TICKET_DETAILS E ->
      (forall f, f ∈ FILE_FIELDS E -> TICKET_FILE_FIELD_TEMPLATE E f <> TICKET_DETAILS E) ->
      shadow_files (disk w1) !! TICKET_DETAILS E = Some (details_text E i)).
Proof.
  intros H Hheld.
  destruct (fetch_Ok_inv E w w1 H)
    as (i' & metadata & metadata1 & ops1 & r1
        & Hmeta & Hresult1 & Hshadow1 & Hcommit1 & Hrepo1 & Hsettled1 & Hlocal & Hhome).
  assert (i' = i) as -> by (destruct Hsettled1; congruence).
  rewrite Hshadow1. split.
  - rewrite apply_writes_lookup. unfold rendering_writes. rewrite !app_assoc.
    rewrite (written_app _ _ (concat _)), (written_app _ _ [Put (TICKET_COMMENTS E) ""]).
    change (written ?k [Put ?k ""] ?x) with (write_to k x (Put k "")).
    rewrite write_to_Put, written_comments. reflexivity.
  - intros Hcomments Hfiles. rewrite apply_writes_lookup. unfold rendering_writes.
    rewrite written_app, (written_app _ [Put ".jirafs/remote_files.json" _]),
      (written_app _ [Put (TICKET_DETAILS E) ""]).
    change (written ?k [Put ?k ""] ?x) with (write_to k x (Put k "")).
    rewrite write_to_Put, written_app, written_fields by exact Hfiles.
    rewrite written_untouched; [reflexivity|].
    apply Forall_app_2; [by repeat constructor|].
    apply Forall_concat, Forall_fmap, Forall_forall. intros c _.
    by apply block_writes_untouched.
Qed.

Lemma fetch_renders_the_issue_witness :
  shadow_files (disk (snd (fetch Demo.env (Demo.world "")))) !! TICKET_COMMENTS Demo.env
  = Some (comments_text Demo.issue_A)
  /\ (TICKET_COMMENTS Demo.env <> TICKET_DETAILS Demo.env ->
      (forall f, f ∈ FILE_FIELDS Demo.env ->
                 TICKET_FILE_FIELD_TEMPLATE Demo.env f <> TICKET_DETAILS Demo.env) ->
      shadow_files (disk (snd (fetch Demo.env (Demo.world "")))) !! TICKET_DETAILS Demo.env
      = Some (details_text Demo.env Demo.issue_A)).
Proof.
  apply (fetch_renders_the_issue Demo.env (Demo.world "")); vm_compute; reflexivity.
Defined.

Lemma store_cached_issue_Ok E w w1 :
  store_cached_issue E w = (Ok tt, w1) ->
  exists i, attr_issue (self w1) = Some i
            /\ metadata_files (disk w1) !! "issue.json" = Some (json_dumps_issue E i).
Proof.
  unfold store_cached_issue. intros H.
  inv_bind H as i0 wa Hissue0. inv_bind H as i wb Hissue.
  apply issue_Ok_memoizes in Hissue. unfold write_file, modify in H. injection H as <-.
  exists i. split; [exact Hissue|]. simpl. by rewrite lookup_insert_eq.
Qed.

Lemma run_git_command_keeps_metadata args failure_ok shadow w :
  metadata_files (disk (snd (run_git_command args failure_ok shadow w)))
  = metadata_files (disk w)
  /\ self (snd (run_git_command args failure_ok shadow w)) = self w.
Proof.
  rewrite run_git_command_unfold. cbv zeta.
  set (w0 := emit (Git shadow args) (with_disk _ w)).
  destruct (git_with_repo shadow args w0) as [f Hf].
  destruct (git shadow args w0) as [[out|] w1]; simpl in Hf; subst w1.
  - by split.
  - by destruct failure_ok.
Qed.

(** X19.  After a fetch that returned, the folder holds the issue fetched
    as its stored snapshot: [issue.json] is [json.dumps] of it.  So, with
    a [json] that loads back what it dumped for that issue, an instance on
    that folder that has not read [cached_issue] yet gets the same issue
    from it, without a request to the tracker. *)
Theorem fetch_stores_the_issue (E : Env) (w w1 : World) (i : Issue) :
  fetch E w = (Ok tt, w1) ->
  attr_issue (self w1) = Some i ->
  metadata_files (disk w1) !! "issue.json" = Some (json_dumps_issue E i)
  /\ (json_loads_issue E (json_dumps_issue E i) = Some i ->
      forall w2, disk w2 = disk w1 -> attr_cached_issue (self w2) = None ->
                 cached_issue E w2 = (Ok i, with_self (set_cached_issue (Some i)) w2)).
Proof.
  intros H Hheld.
  assert (Hfile : metadata_files (disk w1) !! "issue.json" = Some (json_dumps_issue E i)).
  { rewrite fetch_stretches in H.
    inv_bind H as metadata wa Hmeta. inv_bind H as changed wb Hchanged.
    inv_bind H as metadata1 wc Hdownloads. inv_bind H as u wd Hrendering.
    unfold fetch_rendering in Hrendering.
    inv_bind Hrendering as u1 w1' H1. inv_bind Hrendering as u2 w2' H2.
    inv_bind Hrendering as i3 w3' H3. inv_bind Hrendering as u4 w4' H4.
    inv_bind Hrendering as u5 w5' H5. inv_bind Hrendering as i6 w6' H6.
    inv_bind Hrendering as u7 w7' H7. destruct u.
    apply store_cached_issue_Ok in Hrendering as (i' & Hi' & Hstored).
    unfold fetch_commit in H.
    inv_bind H as r1 we Hadd. inv_bind H as r2 wf Hcommit. inv_bind H as r3 wg Hpush.
    apply ret_Ok_inv in H as [_ ->].
    pose proof (run_git_command_keeps_metadata ["add"; "-A"] false true wd) as [Hm1 Hs1].
    pose proof (run_git_command_keeps_metadata ["commit"; "-m"; "Pulled remote changes"]
                  true true we) as [Hm2 Hs2].
    pose proof (run_git_command_keeps_metadata ["push"; "origin"; "jira"] false true wf)
      as [Hm3 Hs3].
    rewrite Hadd in Hm1, Hs1. rewrite Hcommit in Hm2, Hs2. rewrite Hpush in Hm3, Hs3.
    simpl in *. assert (i' = i) as -> by congruence. congruence. }
  split; [exact Hfile|]. intros Hjson w2 Hdisk Hnone.
  unfold cached_issue, try_except, read_file, bind, get, read_path. simpl.
  rewrite Hnone, Hdisk, Hfile. simpl. by rewrite Hjson.
Qed.

Lemma fetch_stores_the_issue_witness :
  metadata_files (disk (snd (fetch Demo.env (Demo.world "")))) !! "issue.json"
  = Some (json_dumps_issue Demo.env Demo.issue_A)
  /\ (json_loads_issue Demo.env (json_dumps_issue Demo.env Demo.issue_A) = Some Demo.issue_A ->
      forall w2, disk w2 = disk (snd (fetch Demo.env (Demo.world ""))) ->
                 attr_cached_issue (self w2) = None ->
                 cached_issue Demo.env w2
                 = (Ok Demo.issue_A, with_self (set_cached_issue (Some Demo.issue_A)) w2)).
Proof.
  apply (fetch_stores_the_issue Demo.env (Demo.world "")); vm_compute; reflexivity.
Defined.

(** ** What push changes *)

#[local] Instance touches_only_preorder E : PreOrder (touches_only E).
Proof.
  split.
  - intros w. repeat split. by left.
  - intros x y z (Hl1 & Hs1 & Hm1 & Hh1) (Hl2 & Hs2 & Hm2 & Hh2).
    split; [|split; [|split]].
    + destruct Hl1 as [Hl1|Hl1], Hl2 as [Hl2|Hl2]; rewrite Hl2, Hl1;
        [by left | by right | by right | right; apply insert_insert_eq].
    + intros name Hne. by rewrite Hs2, Hs1.
    + congruence.
    + congruence.
Qed.

Ltac touches_only_base :=
  unfold touches_only; simpl;
  split; [first [by left | by right]|];
  split; [intros ? ?; rewrite ?lookup_insert_ne by congruence; reflexivity|];
  split; reflexivity.

Lemma push_touches_only E : respects (touches_only E) (push E).
Proof. unfold_methods. respects_with touches_only_base. Qed.

(** X20.  Whether it returns or raises, [push] changes at most two files:
    the comment buffer in the working tree, which it leaves empty if it
    touches it, and the remote-file metadata in the shadow tree.  Every
    other file of the working tree and of the shadow tree, the files kept
    in the metadata directory (the stored issue, the version) and the
    user's home are as they were. *)
Theorem push_touches_two_files (E : Env) (w : World) : touches_only E w (snd (push E w)).
Proof. apply push_touches_only. Qed.

#[local] Instance same_updates_preorder : PreOrder same_updates.
Proof. split; [done | intros x y z Hxy Hyz; unfold same_updates in *; congruence]. Qed.

Lemma updates_sent_app t1 t2 : updates_sent (t1 ++ t2) = updates_sent t1 ++ updates_sent t2.
Proof. apply omap_app. Qed.

Ltac same_updates_base :=
  unfold same_updates; simpl; rewrite ?updates_sent_app; simpl;
  rewrite ?app_nil_r; reflexivity.

Lemma run_git_command_same_updates args failure_ok shadow w r w' :
  run_git_command args failure_ok shadow w = (Ok r, w') -> same_updates w w'.
Proof.
  intros H. apply run_git_command_Ok_trace in H. unfold same_updates.
  rewrite H, updates_sent_app. simpl. by rewrite app_nil_r.
Qed.

(** X21.  A push that returned has sent the tracker at most one update of
    fields: none when [status] found no differing field, and otherwise
    one, which gives every differing field its local value. *)
Theorem push_sends_one_update (E : Env) (w w' : World) :
  push E w = (Ok tt, w') ->
  exists st w1,
    status E w = (Ok st, w1)
    /\ updates_sent (trace w')
       = updates_sent (trace w)
           ++ (if decide ((snd <$> local_differs st : gmap string pyval) = ∅)
               then [] else [snd <$> local_differs st]).
Proof.
  intros H. unfold push in H. cbv zeta in H.
  inv_bind H as st w1 Hstatus. exists st, w1. split; [exact Hstatus|].
  inv_bind H as file_meta0 w2 Hmeta.
  inv_bind H as file_meta w3 Hupload. inv_bind H as comment w4 Hcomment.
  inv_bind H as u5 w5 Hsend. inv_bind H as u6 w6 Hupdate.
  inv_bind H as r1 w7 Hadd. inv_bind H as r2 w8 Hcommit.
  inv_bind H as r3 w9 Hfetch. inv_bind H as r4 w10 Hmerge.
  inv_bind H as u11 w11 Hwrite. inv_bind H as r5 w12 Hadd'.
  inv_bind H as r6 w13 Hcommit'. inv_bind H as r7 w14 Hpush.
  apply ret_Ok_inv in H as [_ ->].
  assert (Hbefore : same_updates w w5).
  { etrans; [|etrans; [|etrans; [|etrans]]].
    - eapply respects_Ok; [|exact Hstatus]. unfold_methods. respects_with same_updates_base.
    - eapply respects_Ok; [|exact Hmeta]. unfold_methods. respects_with same_updates_base.
    - eapply respects_Ok; [|exact Hupload]. unfold_methods. respects_with same_updates_base.
    - eapply respects_Ok; [|exact Hcomment]. unfold_methods. respects_with same_updates_base.
    - eapply respects_Ok; [|exact Hsend]. unfold_methods. respects_with same_updates_base. }
  assert (Hafter : same_updates w6 w14).
  { etrans; [|etrans; [|etrans; [|etrans; [|etrans; [|etrans; [|etrans]]]]]].
    - exact (run_git_command_same_updates _ _ _ _ _ _ Hadd).
    - exact (run_git_command_same_updates _ _ _ _ _ _ Hcommit).
    - exact (run_git_command_same_updates _ _ _ _ _ _ Hfetch).
    - exact (run_git_command_same_updates _ _ _ _ _ _ Hmerge).
    - eapply respects_Ok; [|exact Hwrite]. unfold_methods. respects_with same_updates_base.
    - exact (run_git_command_same_updates _ _ _ _ _ _ Hadd').
    - exact (run_git_command_same_updates _ _ _ _ _ _ Hcommit').
    - exact (run_git_command_same_updates _ _ _ _ _ _ Hpush). }
  unfold same_updates in Hbefore, Hafter. rewrite Hafter, <- Hbefore.
  case_decide as Hnone.
  - rewrite bool_decide_eq_true_2 in Hupdate by exact Hnone. simpl in Hupdate.
    apply ret_Ok_inv in Hupdate as [_ ->]. by rewrite app_nil_r.
  - rewrite bool_decide_eq_false_2 in Hupdate by exact Hnone. simpl in Hupdate.
    inv_bind Hupdate as u7 w7' Hlog. inv_bind Hupdate as i w8' Hissue.
    inv_bind Hupdate as answer w9' Hrequest. apply ret_Ok_inv in Hupdate as [_ ->].
    apply request_Ok_trace in Hrequest. rewrite Hrequest, updates_sent_app. f_equal.
    transitivity (updates_sent (trace w7')).
    + eapply (respects_Ok same_updates); [|exact Hissue].
      unfold_methods. respects_with same_updates_base.
    + eapply (respects_Ok same_updates); [|exact Hlog].
      unfold_methods. respects_with same_updates_base.
Qed.

Lemma push_sends_one_update_witness :
  exists st w1,
    status Demo.env (Demo.world "looks good") = (Ok st, w1)
    /\ updates_sent (trace (snd (push Demo.env (Demo.world "looks good"))))
       = updates_sent (trace (Demo.world "looks good"))
           ++ (if decide ((snd <$> local_differs st : gmap string pyval) = ∅)
               then [] else [snd <$> local_differs st]).
Proof.
  apply (push_sends_one_update Demo.env (Demo.world "looks good")).
  vm_compute. reflexivity.
Defined.

#[local] Instance same_folder_preorder : PreOrder same_folder.
Proof.
  split; [done|].
  intros x y z (H1 & H2 & H3 & H4) (H5 & H6 & H7 & H8). unfold same_folder.
  repeat split; congruence.
Qed.

Ltac same_folder_base := by repeat split.

Lemma request_Ok_inv r w answer w' :
  request r w = (Ok answer, w') -> w' = emit (Net r) w /\ respond (tracker w) r = Some answer.
Proof.
  unfold request. rewrite bind_modify, bind_get. simpl.
  destruct (respond (tracker w) r); [|discriminate]. by intros [= <- <-].
Qed.

Lemma upload_token_same_folder w w' name :
  same_folder w w' -> upload_token w' name = upload_token w name.
Proof. intros (Ht & Hn & Hl & _). unfold upload_token. by rewrite Ht, Hn, Hl. Qed.

Lemma upload_file_Ok_inv file_meta fname w file_meta' w' :
  upload_file file_meta fname w = (Ok file_meta', w') ->
  same_folder w w'
  /\ exists token, upload_token w fname = Some token
                   /\ file_meta' = <[fname := token]> file_meta.
Proof.
  intros H. split.
  - eapply respects_Ok; [|exact H]. unfold_methods. respects_with same_folder_base.
  - unfold upload_file in H. inv_bind H as upload wa Hread.
    unfold read_file in Hread. rewrite bind_get in Hread.
    destruct (read_path (Local fname) (disk w)) as [data|] eqn:Hdata; [|discriminate].
    apply ret_Ok_inv in Hread as [-> ->].
    inv_bind H as u1 wb Hlog. inv_bind H as i wc Hissue. inv_bind H as u2 wd Hdeletes.
    inv_bind H as u3 we Hjira. rewrite bind_get in H. inv_bind H as token wf Hrequest.
    apply ret_Ok_inv in H as [-> ->].
    apply request_Ok_inv in Hrequest as [_ Htoken].
    assert (Hsame : same_folder w we).
    { etrans; [|etrans; [|etrans]].
      - eapply respects_Ok; [|exact Hlog]. unfold_methods. respects_with same_folder_base.
      - eapply respects_Ok; [|exact Hissue]. unfold_methods. respects_with same_folder_base.
      - eapply respects_Ok; [|exact Hdeletes]. unfold_methods.
        respects_with same_folder_base.
      - eapply respects_Ok; [|exact Hjira]. unfold_methods. respects_with same_folder_base. }
    destruct Hsame as (Ht & Hn & _). exists token. split; [|reflexivity].
    unfold upload_token. unfold read_path in Hdata. simpl in Hdata.
    rewrite Hdata. simpl. by rewrite <- Ht, <- Hn.
Qed.

Lemma uploads_Ok_inv l :
  forall file_meta w file_meta' w',
    for_each l upload_file file_meta w = (Ok file_meta', w') ->
    same_folder w w'
    /\ forall name, file_meta' !! name
                    = if decide (name ∈ l) then upload_token w name else file_meta !! name.
Proof.
  induction l as [|fname l IH]; intros file_meta w file_meta' w' H; simpl in H.
  - apply ret_Ok_inv in H as [-> ->]. split; [reflexivity|]. intros name.
    by rewrite decide_False by apply not_elem_of_nil.
  - inv_bind H as file_meta1 w1 Hfirst.
    apply upload_file_Ok_inv in Hfirst as (Hsame1 & token & Htoken & ->).
    apply IH in H as (Hsame & Hrest). split; [by etrans|]. intros name.
    rewrite Hrest, (upload_token_same_folder _ _ _ Hsame1).
    destruct (decide (name ∈ l)) as [Hin|Hnotin].
    + by rewrite decide_True by (by right).
    + destruct (decide (name = fname)) as [->|Hne].
      * rewrite decide_True by left. by rewrite lookup_insert_eq.
      * rewrite decide_False by (rewrite elem_of_cons; tauto).
        by rewrite lookup_insert_ne.
Qed.

Lemma run_git_command_keeps_shadow args failure_ok shadow w :
  shadow_files (disk (snd (run_git_command args failure_ok shadow w)))
  = shadow_files (disk w).
Proof.
  rewrite run_git_command_unfold. cbv zeta.
  set (w0 := emit (Git shadow args) (with_disk _ w)).
  destruct (git_with_repo shadow args w0) as [f Hf].
  destruct (git shadow args w0) as [[out|] w1]; simpl in Hf; subst w1.
  - reflexivity.
  - by destruct failure_ok.
Qed.

(** X22.  A push that returned leaves, as the remote-file metadata, the
    one it read with, under the name of every file it uploaded, the token
    the tracker gave for that upload, given that [json] loads back what it
    dumped: the names under [to_upload] are recorded, every other name
    keeps what was recorded for it. *)
Theorem push_records_the_upload_tokens (E : Env) (w w' : World) :
  (forall data, json_loads_files E (json_dumps_files E data) = Some data) ->
  push E w = (Ok tt, w') ->
  exists st w1 metadata metadata',
    status E w = (Ok st, w1)
    /\ get_remote_file_metadata E w = (Ok metadata, w)
    /\ get_remote_file_metadata E w' = (Ok metadata', w')
    /\ forall name,
        metadata' !! name
        = if decide (name ∈ to_upload st) then upload_token w name else metadata !! name.
Proof.
  intros Hjson H. unfold push in H. cbv zeta in H.
  inv_bind H as st w1 Hstatus. inv_bind H as file_meta0 w2 Hmeta.
  inv_bind H as file_meta w3 Hupload. inv_bind H as comment w4 Hcomment.
  inv_bind H as u5 w5 Hsend. inv_bind H as u6 w6 Hupdate.
  inv_bind H as r1 w7 Hadd. inv_bind H as r2 w8 Hcommit.
  inv_bind H as r3 w9 Hfetch. inv_bind H as r4 w10 Hmerge.
  inv_bind H as u11 w11 Hwrite. inv_bind H as r5 w12 Hadd'.
  inv_bind H as r6 w13 Hcommit'. inv_bind H as r7 w14 Hpush.
  apply ret_Ok_inv in H as [_ ->].
  destruct (status_only_ran_git E w) as (Hl1 & _ & Hs1 & _ & _ & Ht1 & Hi1 & _).
  rewrite Hstatus in Hl1, Hs1, Ht1, Hi1. simpl in Hl1, Hs1, Ht1, Hi1.
  rewrite get_remote_file_metadata_pure in Hmeta. injection Hmeta as Hmeta <-.
  rewrite Hs1 in Hmeta.
  apply uploads_Ok_inv in Hupload as [_ Hrecorded].
  exists st, w1, file_meta0, file_meta.
  split; [exact Hstatus|]. split; [by rewrite get_remote_file_metadata_pure, Hmeta|].
  split.
  - rewrite get_remote_file_metadata_pure.
    pose proof (run_git_command_keeps_shadow ["add"; "-A"] false true w11) as Hk1.
    pose proof (run_git_command_keeps_shadow ["commit"; "-m"; "Pulled remote changes"]
                  true true w12) as Hk2.
    pose proof (run_git_command_keeps_shadow ["push"; "origin"; "jira"] false true w13)
      as Hk3.
    rewrite Hadd' in Hk1. rewrite Hcommit' in Hk2. rewrite Hpush in Hk3. simpl in Hk1, Hk2, Hk3.
    destruct u11. unfold set_remote_file_metadata, write_file, modify in Hwrite.
    injection Hwrite as <-.
    assert (Hstored : shadow_files (disk w14) !! ".jirafs/remote_files.json"
                      = Some (json_dumps_files E file_meta))
      by (rewrite Hk3, Hk2, Hk1; apply lookup_insert_eq).
    unfold read_metadata. by rewrite Hstored, Hjson.
  - intros name. rewrite Hrecorded.
    destruct (decide (name ∈ to_upload st)) as [Hin|Hnotin]; [|reflexivity].
    apply upload_token_same_folder. repeat split; assumption || by rewrite Hi1.
Qed.

Lemma push_records_the_upload_tokens_witness :
  exists st w1 metadata metadata',
    status Demo.env (Demo.world "looks good") = (Ok st, w1)
    /\ get_remote_file_metadata Demo.env (Demo.world "looks good")
       = (Ok metadata, Demo.world "looks good")
    /\ get_remote_file_metadata Demo.env (snd (push Demo.env (Demo.world "looks good")))
       = (Ok metadata', snd (push Demo.env (Demo.world "looks good")))
    /\ forall name,
        metadata' !! name
        = if decide (name ∈ to_upload st)
          then upload_token (Demo.world "looks good") name else metadata !! name.
Proof.
  apply (push_records_the_upload_tokens Demo.env (Demo.world "looks good")).
  - exact demo_json_reads_back.
  - vm_compute. reflexivity.
Defined.

Lemma deletions_trace fname (l : list Attachment) :
  forall w w',
    for_each l (fun (_ : unit) a =>
                  if decide (filename a = fname)
                  then bind (request (Delete a)) (fun _ => ret tt) else ret tt) tt w
    = (Ok tt, w') ->
    trace w' = trace w ++ ((fun a => Net (Delete a)) <$> filter (fun a => filename a = fname) l)
    /\ self w' = self w.
Proof.
  induction l as [|a l IH]; intros w w' H; simpl in H.
  - apply ret_Ok_inv in H as [_ ->]. by rewrite app_nil_r.
  - inv_bind H as u w1 Hfirst. destruct u. apply IH in H as [Htrace Hself].
    destruct (decide (filename a = fname)) as [Hname|Hname].
    + rewrite filter_cons_True by done. inv_bind Hfirst as answer w2 Hrequest.
      apply ret_Ok_inv in Hfirst as [_ ->]. apply request_Ok_inv in Hrequest as [-> _].
      rewrite Htrace, Hself. simpl. by rewrite <- app_assoc.
    + rewrite filter_cons_False by done. apply ret_Ok_inv in Hfirst as [_ ->]. by split.
Qed.

(** X23.  To upload a file, [push] first deletes every attachment of the
    issue that has the file's name, in the order the issue lists them, and
    only then adds the file as a new attachment; the token it records for
    the name is the one the tracker gives for the new attachment.  (On an
    instance that holds the issue and its connection; the issue is the one
    held, so attachments added since it was read are not deleted.) *)
Theorem upload_replaces_the_attachments_of_that_name (file_meta file_meta' : gmap string string)
        (fname : string) (w w' : World) (i : Issue) :
  attr_issue (self w) = Some i ->
  attr_jira (self w) = true ->
  upload_file file_meta fname w = (Ok file_meta', w') ->
  exists data token,
    local_files (disk w) !! fname = Some data
    /\ trace w'
       = trace w ++ deletions i fname
           ++ [Net (AddAttachment (ticket_number (self w)) fname data)]
    /\ respond (tracker w) (AddAttachment (ticket_number (self w)) fname data) = Some token
    /\ file_meta' = <[fname := token]> file_meta.
Proof.
  intros Hissue Hjira H.
  destruct (upload_file_Ok_inv _ _ _ _ _ H) as (_ & token & Htoken & ->).
  unfold upload_token in Htoken.
  destruct (local_files (disk w) !! fname) as [data|] eqn:Hdata; [|discriminate].
  simpl in Htoken. exists data, token. split; [reflexivity|].
  split; [|by split].
  unfold upload_file in H.
  rewrite (bind_Ok _ _ _ data w) in H
    by (unfold read_file, read_path; rewrite bind_get; simpl; by rewrite Hdata).
  inv_bind H as u1 wb Hlog.
  rewrite log_Ok_unfold in Hlog by reflexivity. cbv zeta in Hlog.
  change (level_number INFO <=? level_number INFO) with true in Hlog. cbv iota in Hlog.
  inv_bind Hlog as i1 wb1 Hissue1.
  rewrite (issue_memoized _ i) in Hissue1 by exact Hissue. injection Hissue1 as <- <-.
  destruct u1. unfold modify in Hlog. injection Hlog as <-.
  rewrite (bind_Ok _ _ _ i _ (issue_memoized (show _ (with_disk _ w)) i Hissue)) in H.
  inv_bind H as u2 wd Hdeletes. destruct u2. apply deletions_trace in Hdeletes as [Htrace Hself].
  unfold jira in H at 1. rewrite bind_assoc, bind_get in H. rewrite Hself in H.
  simpl self in H. rewrite Hjira, bind_ret, bind_get in H.
  inv_bind H as token' wf Hrequest. apply ret_Ok_inv in H as [_ ->].
  apply request_Ok_inv in Hrequest as [-> _]. simpl.
  rewrite Htrace, Hself. simpl. by rewrite <- app_assoc.
Qed.

Lemma upload_replaces_the_attachments_of_that_name_witness :
  exists data token,
    local_files (disk Demo.after_first_read) !! "debug.log" = Some data
    /\ trace (snd (upload_file ∅ "debug.log" Demo.after_first_read))
       = trace Demo.after_first_read ++ deletions Demo.issue_A "debug.log"
           ++ [Net (AddAttachment (ticket_number (self Demo.after_first_read))
                      "debug.log" data)]
    /\ respond (tracker Demo.after_first_read)
         (AddAttachment (ticket_number (self Demo.after_first_read)) "debug.log" data)
       = Some token
    /\ {[ "debug.log" := "T2" ]} = <[ "debug.log" := token ]> (∅ : gmap string string).
Proof.
  apply (upload_replaces_the_attachments_of_that_name ∅ {[ "debug.log" := "T2" ]}
           "debug.log" Demo.after_first_read
           (snd (upload_file ∅ "debug.log" Demo.after_first_read)) Demo.issue_A).
  - reflexivity.
  - reflexivity.
  - vm_compute. reflexivity.
Defined.

(** ** Migrations that do not go through *)

Lemma stored_version_file w w' :
  metadata_files (disk w') !! "version" = metadata_files (disk w) !! "version" ->
  stored_version w' = stored_version w.
Proof.
  intros H.
  unfold stored_version, version, try_except, read_file, bind, get, read_path, ret, raise.
  simpl. rewrite H.
  destruct (metadata_files (disk w) !! "version") as [text|]; simpl; [|reflexivity].
  destruct (Py.parse_int (Py.strip text)); reflexivity.
Qed.

(** X24.  From a folder at a stored version [v] below the current one,
    [run_migrations] looks up the migration [v + 1]: when there is none it
    raises [AttributeError] and has changed nothing; when there is one, it
    logs that the migration started and calls it, and if the migration
    raises, [run_migrations] raises the same and leaves the folder as the
    migration left it: nothing is logged after it and no further migration
    is called. *)
Theorem run_migrations_stops_where_a_migration_fails (E : Env) (silent : bool) (w : World)
        (v : Z) (fuel : nat) :
  stored_version w = Ok v ->
  v < CURRENT_REPO_VERSION E ->
  can_log (if silent then DEBUG else INFO) w ->
  match migrations E (v + 1) with
  | None => run_migrations E (S fuel) silent w = Some (Raise AttributeError, w)
  | Some migrator =>
      exists w0,
        log "%s: Migration started" (Some [PStr (migration_name (v + 1))])
            (if silent then DEBUG else INFO) w = (Ok tt, w0)
        /\ forall e w_failed,
            migrator (emit (Migrate (v + 1)) w0) = (Raise e, w_failed) ->
            run_migrations E (S fuel) silent w = Some (Raise e, w_failed)
  end.
Proof.
  intros Hv Hlt Hcan. unfold run_migrations. simpl run_migrations_loop.
  rewrite version_pure, Hv. rewrite (proj2 (Z.ltb_lt _ _) Hlt).
  rewrite (bind_Ok _ _ _ v w) by (by rewrite version_pure, Hv).
  unfold get_migrator. destruct (migrations E (v + 1)) as [migrator|]; [|reflexivity].
  destruct (log_can_log "%s: Migration started" (Some [PStr (migration_name (v + 1))])
              (if silent then DEBUG else INFO) w eq_refl Hcan) as (w0 & Hstart & _).
  exists w0. split; [exact Hstart|]. intros e w_failed Hfails.
  rewrite bind_ret. unfold migrate.
  rewrite (bind_Ok _ _ _ _ _ Hstart), bind_modify, (bind_Raise _ _ _ _ _ Hfails).
  reflexivity.
Qed.

Lemma run_migrations_stops_where_a_migration_fails_witness :
  exists w0,
    log "%s: Migration started" (Some [PStr (migration_name (1 + 1))]) DEBUG (Demo.world "")
    = (Ok tt, w0)
    /\ forall e w_failed,
        raise (A := unit) IOError (emit (Migrate (1 + 1)) w0) = (Raise e, w_failed) ->
        run_migrations (Demo.env_with (fun _ => Some (raise IOError))) 1 true (Demo.world "")
        = Some (Raise e, w_failed).
Proof.
  apply (run_migrations_stops_where_a_migration_fails
           (Demo.env_with (fun _ => Some (raise IOError))) true (Demo.world "") 1 0).
  - reflexivity.
  - simpl. lia.
  - intros Hle. simpl in Hle. lia.
Defined.

(** X25.  [run_migrations] trusts each migration to move the stored
    version on.  With a migration [v + 1] that returns but leaves the
    version file as it was, the loop finds version [v] again at each pass
    and calls the same migration again: it does not return, whatever the
    number of passes allowed. *)
Theorem run_migrations_loops_when_the_version_stays (E : Env) (silent : bool) (w : World)
        (v : Z) (migrator : M unit) :
  stored_version w = Ok v ->
  v < CURRENT_REPO_VERSION E ->
  migrations E (v + 1) = Some migrator ->
  can_log (if silent then DEBUG else INFO) w ->
  (forall w0, exists w1,
      migrator w0 = (Ok tt, w1)
      /\ metadata_files (disk w1) !! "version" = metadata_files (disk w0) !! "version"
      /\ (is_Some (attr_issue (self w0)) -> is_Some (attr_issue (self w1)))) ->
  forall fuel, run_migrations E fuel silent w = None.
Proof.
  intros Hv Hlt Hreg Hcan Hidle fuel. unfold run_migrations.
  revert w Hv Hcan. induction fuel as [|fuel IH]; intros w Hv Hcan; [reflexivity|].
  simpl. rewrite version_pure, Hv. rewrite (proj2 (Z.ltb_lt _ _) Hlt).
  rewrite (bind_Ok _ _ _ v w) by (by rewrite version_pure, Hv).
  unfold get_migrator. rewrite Hreg, bind_ret. unfold migrate.
  destruct (log_can_log "%s: Migration started" (Some [PStr (migration_name (v + 1))])
              (if silent then DEBUG else INFO) w eq_refl Hcan)
    as (wa & Hstart & Hmeta_a & _ & Hmemo_a).
  destruct (Hidle (emit (Migrate (v + 1)) wa)) as (wb & Hmig & Hfile_b & Hself_b).
  assert (Hcan_b : can_log (if silent then DEBUG else INFO) wb).
  { apply (can_log_kept _ w); [exact Hcan|]. intros Hle. apply Hself_b. simpl.
    by apply Hmemo_a. }
  destruct (log_can_log "%s: Migration finished" (Some [PStr (migration_name (v + 1))])
              (if silent then DEBUG else INFO) wb eq_refl Hcan_b)
    as (wc & Hfinish & Hmeta_c & _ & Hmemo_c).
  rewrite (bind_Ok _ _ _ _ _ Hstart), bind_modify, (bind_Ok _ _ _ _ _ Hmig), Hfinish.
  apply IH.
  - rewrite (stored_version_metadata _ _ Hmeta_c), (stored_version_file _ _ Hfile_b).
    rewrite (stored_version_metadata wa (emit (Migrate (v + 1)) wa) eq_refl).
    by rewrite (stored_version_metadata _ _ Hmeta_a).
  - by apply (can_log_kept _ wb).
Qed.

Lemma run_migrations_loops_when_the_version_stays_witness :
  run_migrations (Demo.env_with (fun _ => Some (ret tt))) 1000 true (Demo.world "") = None.
Proof.
  refine (run_migrations_loops_when_the_version_stays
            (Demo.env_with (fun _ => Some (ret tt))) true (Demo.world "") 1 (ret tt)
            _ _ _ _ _ 1000%nat).
  - reflexivity.
  - simpl. lia.
  - reflexivity.
  - intros Hle. simpl in Hle. lia.
  - intros w0. exists w0. by repeat split.
Defined.

(** ** Stored files that do not load *)

(** X26.  Only a missing metadata file reads as the empty dict.  One that
    is there but does not load as [json] makes
    [get_remote_file_metadata] raise [ValueError]; [fetch] then raises it
    at its first step, having changed nothing and asked nothing of the
    tracker, and [push] raises too, before it writes anything to the
    tracker. *)
Theorem unreadable_metadata_stops_fetch_and_push (E : Env) (w : World) (text : string) :
  shadow_files (disk w) !! ".jirafs/remote_files.json" = Some text ->
  json_loads_files E text = None ->
  get_remote_file_metadata E w = (Raise ValueError, w)
  /\ fetch E w = (Raise ValueError, w)
  /\ (exists e, fst (push E w) = Raise e)
  /\ tracker_writes (trace (snd (push E w))) = tracker_writes (trace w).
Proof.
  intros Hfile Hload.
  assert (Hmeta : forall w', shadow_files (disk w') = shadow_files (disk w) ->
                             get_remote_file_metadata E w' = (Raise ValueError, w')).
  { intros w' Hsame. rewrite get_remote_file_metadata_pure. unfold read_metadata.
    by rewrite Hsame, Hfile, Hload. }
  split; [by apply Hmeta|]. split.
  - unfold fetch. by rewrite (bind_Raise _ _ _ _ _ (Hmeta w eq_refl)).
  - pose proof (status_only_ran_git E w) as Hstatus. unfold push.
    destruct (status E w) as [[st|e] w1] eqn:Hw1; simpl in Hstatus;
      destruct Hstatus as (_ & _ & Hshadow & _ & _ & _ & _ & _ & (events & Htrace & Hgit) & _).
    + rewrite (bind_Ok _ _ _ _ _ Hw1), (bind_Raise _ _ _ _ _ (Hmeta w1 Hshadow)). simpl.
      split; [by eexists|]. rewrite Htrace, tracker_writes_app.
      assert (tracker_writes events = []) as ->; [|by rewrite app_nil_r].
      clear Htrace. induction Hgit as [|ev events Hev _ IH]; [reflexivity|].
      destruct ev; try discriminate. exact IH.
    + rewrite (bind_Raise _ _ _ _ _ Hw1). simpl.
      split; [by eexists|]. rewrite Htrace, tracker_writes_app.
      assert (tracker_writes events = []) as ->; [|by rewrite app_nil_r].
      clear Htrace. induction Hgit as [|ev events Hev _ IH]; [reflexivity|].
      destruct ev; try discriminate. exact IH.
Qed.

Lemma unreadable_metadata_stops_fetch_and_push_witness :
  get_remote_file_metadata Demo.env
    (snd (write_file (Shadow ".jirafs/remote_files.json") "{" (Demo.world "")))
  = (Raise ValueError, snd (write_file (Shadow ".jirafs/remote_files.json") "{" (Demo.world "")))
  /\ fetch Demo.env (snd (write_file (Shadow ".jirafs/remote_files.json") "{" (Demo.world "")))
     = (Raise ValueError,
        snd (write_file (Shadow ".jirafs/remote_files.json") "{" (Demo.world "")))
  /\ (exists e,
         fst (push Demo.env
                (snd (write_file (Shadow ".jirafs/remote_files.json") "{" (Demo.world ""))))
         = Raise e)
  /\ tracker_writes
       (trace (snd (push Demo.env
                      (snd (write_file (Shadow ".jirafs/remote_files.json") "{"
                              (Demo.world ""))))))
     = tracker_writes
         (trace (snd (write_file (Shadow ".jirafs/remote_files.json") "{" (Demo.world "")))).
Proof.
  apply (unreadable_metadata_stops_fetch_and_push Demo.env
           (snd (write_file (Shadow ".jirafs/remote_files.json") "{" (Demo.world ""))) "{");
    reflexivity.
Defined.

(** X27.  [cached_issue] falls back on the tracker only when the stored
    issue cannot be read.  A stored issue that is read but does not load
    as [json] makes it raise [ValueError]: nothing is logged, nothing is
    asked of the tracker, and the instance keeps no cached issue, so the
    next read raises again. *)
Theorem stored_issue_that_does_not_load_raises (E : Env) (w : World) (text : string) :
  attr_cached_issue (self w) = None ->
  read_path (Metadata "issue.json") (disk w) = Some text ->
  json_loads_issue E text = None ->
  cached_issue E w = (Raise ValueError, w).
Proof. apply cached_issue_unloadable_raises. Qed.

Lemma stored_issue_that_does_not_load_raises_witness :
  cached_issue Demo.env (snd (write_file (Metadata "issue.json") "{" (Demo.world "")))
  = (Raise ValueError, snd (write_file (Metadata "issue.json") "{" (Demo.world ""))).
Proof.
  apply (stored_issue_that_does_not_load_raises Demo.env
           (snd (write_file (Metadata "issue.json") "{" (Demo.world ""))) "{");
    reflexivity.
Defined.

(** ** The attachments fetch downloads *)

Lemma block_writes_rendered E name header text :
  rendered_file E name ->
  Forall (fun o => rendered_file E (write_name o)) (block_writes name header text).
Proof.
  intros Hname. eapply Forall_impl; [apply block_writes_names|].
  intros o Ho. simpl in Ho. by rewrite Ho.
Qed.

Lemma rendering_writes_rendered E i file_meta :
  Forall (fun o => rendered_file E (write_name o)) (rendering_writes E i file_meta).
Proof.
  unfold rendering_writes.
  assert (Hfield : forall field, rendered_file E (TICKET_FILE_FIELD_TEMPLATE E field))
    by (intros field; do 3 right; by exists field).
  apply Forall_app_2; [apply Forall_singleton; by left|].
  apply Forall_app_2; [apply Forall_singleton; right; by left|].
  apply Forall_app_2; [|apply Forall_app_2].
  - apply Forall_concat, Forall_fmap, Forall_forall. intros field _.
    change (Forall (fun o => rendered_file E (write_name o)) (field_writes E i field)).
    unfold field_writes.
    destruct (raw_fields i !! field) as [value|]; [|constructor].
    destruct (render_field E field value) as [|text|text]; [constructor| |].
    + repeat (apply Forall_cons_2; [apply Hfield|]). apply Forall_nil_2.
    + apply block_writes_rendered. right. by left.
  - apply Forall_singleton. do 2 right. by left.
  - apply Forall_concat, Forall_fmap, Forall_forall. intros c _.
    change (Forall (fun o => rendered_file E (write_name o)) (comment_writes E c)).
    apply block_writes_rendered. do 2 right. by left.
Qed.

(** X28.  An attachment that matches no remote ignore glob and whose
    [created] token is not the one recorded for its name is downloaded:
    after a fetch that returned, the shadow tree holds, under that name,
    what the tracker served for the last attachment of that name (the name
    being none of the files [fetch] renders the issue into). *)
Theorem fetch_downloads_what_changed (E : Env) (w w1 : World) (i : Issue)
        (metadata : gmap string string) (changed : Attachment) :
  fetch E w = (Ok tt, w1) ->
  attr_issue (self w1) = Some i ->
  fst (get_remote_file_metadata E w) = Ok metadata ->
  changed ∈ attachment i ->
  metadata !! filename changed <> Some (created changed) ->
  (forall glob, ignored_by E (REMOTE_IGNORE_FILE E) w glob ->
                fnmatch E (filename changed) glob = false) ->
  ~ rendered_file E (filename changed) ->
  exists a data,
    last_named (filename changed) (attachment i) = Some a
    /\ respond (tracker w) (Download a) = Some data
    /\ shadow_files (disk w1) !! filename changed = Some data.
Proof.
  intros H Hheld Hmeta Hin Htoken Hglobs Hfile.
  destruct (fetch_Ok_inv E w w1 H)
    as (i' & metadata' & metadata1 & ops1 & r1
        & Hmeta' & Hresult1 & Hshadow1 & _ & _ & Hsettled1 & _).
  assert (i' = i) as -> by (destruct Hsettled1; congruence).
  rewrite get_remote_file_metadata_pure in Hmeta. simpl in Hmeta.
  assert (metadata' = metadata) as -> by congruence.
  set (names := changed_names E (ignore_globs_in E (REMOTE_IGNORE_FILE E) w) metadata i) in *.
  assert (Hchanged : filename changed ∈ names).
  { apply changed_names_elem. exists changed. repeat split; try done.
    apply file_matches_globs_false. intros glob Hglob. apply Hglobs. by apply ignored_by_iff. }
  destruct (last_named_is_Some (filename changed) (attachment i) changed Hin eq_refl)
    as [a Hlast].
  destruct (last_named_Some _ _ _ Hlast) as [Ha Hname].
  destruct (proj1 (downloads_needed i (tracker w) names metadata) ltac:(by eexists)
              (filename changed) a Hchanged Ha Hname) as [data Hdata].
  exists a, data. split; [exact Hlast|]. split; [exact Hdata|].
  rewrite Hshadow1, apply_writes_lookup, written_app.
  rewrite (proj2 (downloads_spec _ _ _ _ _ _ Hresult1 (filename changed))).
  unfold downloaded. rewrite decide_True by exact Hchanged. rewrite Hlast, Hdata.
  apply written_untouched.
  eapply Forall_impl; [apply rendering_writes_rendered|].
  intros o Ho Heq. simpl in Ho. apply Hfile. by rewrite <- Heq.
Qed.

Lemma demo_not_rendered : ~ rendered_file Demo.env "spec.pdf".
Proof.
  intros [H|[H|[H|[field H]]]]; try discriminate H. simpl in H.
  destruct field as [|c1 [|c2 [|c3 [|c4 [|c5 [|c6 [|c7 [|c8 [|c9 [|c10 field]]]]]]]]]];
    discriminate H.
Qed.

Lemma fetch_downloads_what_changed_witness :
  exists a data,
    last_named (filename Demo.spec_pdf) (attachment Demo.issue_A) = Some a
    /\ respond (tracker (Demo.world "")) (Download a) = Some data
    /\ shadow_files (disk (snd (fetch Demo.env (Demo.world "")))) !! filename Demo.spec_pdf
       = Some data.
Proof.
  apply (fetch_downloads_what_changed Demo.env (Demo.world "")
           (snd (fetch Demo.env (Demo.world ""))) Demo.issue_A ∅ Demo.spec_pdf).
  - vm_compute. reflexivity.
  - vm_compute. reflexivity.
  - vm_compute. reflexivity.
  - left.
  - by rewrite lookup_empty.
  - intros glob [Hglob|[Hglob|Hglob]]; vm_compute in Hglob;
      repeat (apply elem_of_cons in Hglob as [->|Hglob]; [reflexivity|]);
      by apply elem_of_nil in Hglob.
  - exact demo_not_rendered.
Defined.

(** ** Where the files are *)

Lemma endswith_cons suffix c s :
  Py.endswith suffix (String c s) = String.eqb (String c s) suffix || Py.endswith suffix s.
Proof. reflexivity. Qed.

Lemma endswith_slash_app a b : b <> "" -> Py.endswith "/" (a +:+ b) = Py.endswith "/" b.
Proof.
  intros Hb. induction a as [|c a IH]; [reflexivity|].
  change (String c a +:+ b) with (String c (a +:+ b)). rewrite endswith_cons, IH.
  destruct (a +:+ b) as [|d rest] eqn:Hab.
  - destruct a; [by subst | discriminate].
  - by destruct c as [[] [] [] [] [] [] [] []].
Qed.

Lemma os_path_join_relative a b :
  a <> "" -> Py.endswith "/" a = false -> Py.startswith "/" b = false ->
  os_path_join a b = a +:+ "/" +:+ b.
Proof.
  intros Ha Hslash Hb. unfold os_path_join. rewrite Hb, Hslash. by destruct a.
Qed.

Lemma os_path_join_absolute a b : Py.startswith "/" b = true -> os_path_join a b = b.
Proof. intros Hb. unfold os_path_join. by rewrite Hb. Qed.

(** X29.  The path helpers place a relative file name under the folder:
    [get_local_path] directly in it, [get_metadata_path] in its metadata
    directory, [get_shadow_path] in the directory [shadow] of that.  A
    name that starts with a slash is not placed at all: each of the three
    helpers returns the name itself, outside the folder. *)
Theorem paths_are_in_the_folder_for_relative_names (path METADATA_DIR name : string) :
  path <> "" -> Py.endswith "/" path = false ->
  METADATA_DIR <> "" -> Py.startswith "/" METADATA_DIR = false ->
  Py.endswith "/" METADATA_DIR = false ->
  (Py.startswith "/" name = false ->
   get_local_path path name = path +:+ "/" +:+ name
   /\ get_metadata_path path METADATA_DIR name = path +:+ "/" +:+ METADATA_DIR +:+ "/" +:+ name
   /\ get_shadow_path path METADATA_DIR name
      = path +:+ "/" +:+ METADATA_DIR +:+ "/" +:+ "shadow" +:+ "/" +:+ name)
  /\ (Py.startswith "/" name = true ->
      get_local_path path name = name
      /\ get_metadata_path path METADATA_DIR name = name
      /\ get_shadow_path path METADATA_DIR name = name).
Proof.
  intros Hpath Hpath_slash Hmeta Hmeta_abs Hmeta_slash.
  assert (Hdir : metadata_dir path METADATA_DIR = path +:+ "/" +:+ METADATA_DIR)
    by (by apply os_path_join_relative).
  assert (Hdir_ne : path +:+ "/" +:+ METADATA_DIR <> "") by (by destruct path).
  assert (Hdir_slash : Py.endswith "/" (path +:+ "/" +:+ METADATA_DIR) = false).
  { rewrite endswith_slash_app by done.
    change ("/" +:+ METADATA_DIR) with (String "/" METADATA_DIR).
    rewrite endswith_cons, Hmeta_slash. by destruct METADATA_DIR. }
  assert (Hshadow : get_metadata_path path METADATA_DIR "shadow"
                    = path +:+ "/" +:+ METADATA_DIR +:+ "/" +:+ "shadow").
  { unfold get_metadata_path. rewrite Hdir, os_path_join_relative by done.
    by rewrite !append_assoc. }
  split.
  - intros Hname. split; [by apply os_path_join_relative|]. split.
    + unfold get_metadata_path. rewrite Hdir, os_path_join_relative by done.
      by rewrite !append_assoc.
    + unfold get_shadow_path. rewrite Hshadow, os_path_join_relative.
      * by rewrite !append_assoc.
      * by destruct path.
      * replace (path +:+ "/" +:+ METADATA_DIR +:+ "/" +:+ "shadow")
          with ((path +:+ "/" +:+ METADATA_DIR +:+ "/") +:+ "shadow")
          by (by rewrite !append_assoc).
        by rewrite endswith_slash_app.
      * exact Hname.
  - intros Hname. unfold get_local_path, get_metadata_path, get_shadow_path.
    by rewrite !os_path_join_absolute.
Qed.

Lemma paths_are_in_the_folder_for_relative_names_witness :
  (Py.startswith "/" "notes.txt" = false ->
   get_local_path "/home/me/PROJ-123" "notes.txt" = "/home/me/PROJ-123" +:+ "/" +:+ "notes.txt"
   /\ get_metadata_path "/home/me/PROJ-123" ".jirafs" "notes.txt"
      = "/home/me/PROJ-123" +:+ "/" +:+ ".jirafs" +:+ "/" +:+ "notes.txt"
   /\ get_shadow_path "/home/me/PROJ-123" ".jirafs" "notes.txt"
      = "/home/me/PROJ-123" +:+ "/" +:+ ".jirafs" +:+ "/" +:+ "shadow" +:+ "/"
          +:+ "notes.txt")
  /\ (Py.startswith "/" "notes.txt" = true ->
      get_local_path "/home/me/PROJ-123" "notes.txt" = "notes.txt"
      /\ get_metadata_path "/home/me/PROJ-123" ".jirafs" "notes.txt" = "notes.txt"
      /\ get_shadow_path "/home/me/PROJ-123" ".jirafs" "notes.txt" = "notes.txt").
Proof.
  apply (paths_are_in_the_folder_for_relative_names "/home/me/PROJ-123" ".jirafs" "notes.txt");
    done.
Defined.
